(** * Open-space ROI decider: boundary stitching, segment fusing, hyperplanes

    A shallow embedding of
    [modules/planning/tasks/deciders/open_space_roi_decider.cc].

    Numbers.  The C++ code computes on [double].  Here coordinates, arc
    lengths and angles are exact rationals ([Q]); every comparison the
    source makes is kept as a boolean test on [Q].  Rounding, NaN and
    infinities are outside the model; a division whose divisor can be zero
    is guarded by an explicit hypothesis wherever a theorem depends on it.

    Library calls.  [std::cos], [std::sin], [atan2] (behind [Vec2d::Angle]),
    [M_PI] and [NormalizeAngle] are the fields of the class [Math]; the
    methods of [Box2d] that the decider calls are the fields of the class
    [BoxOps].  [std::hypot] (behind [Vec2d::DistanceTo]) only ever appears
    in a comparison against a non-negative constant, which is carried out
    on the squares.

    C++ behaviours.  A call either returns, or runs into undefined
    behaviour (indexing a vector out of range, [front]/[back] of an empty
    vector), or aborts on a failed [CHECK].  Loops are run with fuel. *)

From Stdlib Require Import QArith Qabs Qminmax Qround List Bool Arith Lia Lqa ZArith.
From Stdlib Require String.
Import ListNotations String.StringSyntax.
Delimit Scope string_scope with string.
Open Scope Q_scope.

(** ** Outcomes of a C++ call *)

Inductive outcome (A : Type) : Type :=
| Returns (a : A)
| Undefined
| Aborted
| OutOfFuel.
Arguments Returns {A} a.
Arguments Undefined {A}.
Arguments Aborted {A}.
Arguments OutOfFuel {A}.

Definition bind {A B : Type} (m : outcome A) (k : A -> outcome B) : outcome B :=
  match m with
  | Returns a => k a
  | Undefined => Undefined
  | Aborted => Aborted
  | OutOfFuel => OutOfFuel
  end.

Notation "'do' p <- m ; k" := (bind m (fun p => k))
  (at level 10, p pattern, m at level 100, k at level 200).

(** [v[i]]: an index past the end does not yield a value. *)
Definition index {A : Type} (v : list A) (i : nat) : outcome A :=
  match nth_error v i with
  | Some a => Returns a
  | None => Undefined
  end.

(** [v.front()]: undefined on an empty vector. *)
Definition front_of {A : Type} (v : list A) : outcome A := index v 0.

(** ** Comparisons on [Q] *)

Definition Qltb (a b : Q) : bool := negb (Qle_bool b a).
Definition Qgtb (a b : Q) : bool := Qltb b a.
Definition Qgeb (a b : Q) : bool := Qle_bool b a.

(** ** [common::math::Vec2d] *)

(** Modelled from the spec: the geometry primitives (a 2D point/vector with
    translate, rotate, cross-product and distance) are a collaborator of
    the decider; [vec2d.cc] and [math_utils.cc] are not among the sources.
    The operators are the usual ones on coordinates. *)
Record Vec2d : Type := mkVec2d { x : Q; y : Q }.

Definition vadd (a b : Vec2d) : Vec2d := mkVec2d (x a + x b) (y a + y b).
Definition vsub (a b : Vec2d) : Vec2d := mkVec2d (x a - x b) (y a - y b).
Definition vscale (a : Vec2d) (k : Q) : Vec2d := mkVec2d (x a * k) (y a * k).
Definition vdiv (a : Vec2d) (k : Q) : Vec2d := mkVec2d (x a / k) (y a / k).

(** Component-wise equality of rationals (numerically equal points). *)
Definition veq (a b : Vec2d) : Prop := x a == x b /\ y a == y b.

(** [Vec2d::CrossProd(other)] and the three-point [CrossProd] of
    [math_utils]: the cross product of [end1 - start] and [end2 - start]. *)
Definition vcross (a b : Vec2d) : Q := x a * y b - y a * x b.
Definition CrossProd (start end1 end2 : Vec2d) : Q :=
  vcross (vsub end1 start) (vsub end2 start).

Definition DistanceSquareTo (a b : Vec2d) : Q :=
  (x a - x b) * (x a - x b) + (y a - y b) * (y a - y b).

(** [a.DistanceTo(b) > eps] for a constant [eps >= 0], on the squares. *)
Definition DistanceTo_gt (a b : Vec2d) (eps : Q) : bool :=
  Qltb (eps * eps) (DistanceSquareTo a b).

(** ** The math library and [Vec2d] methods built on it *)

Class Math : Type := {
  cos : Q -> Q;
  sin : Q -> Q;
  atan2 : Q -> Q -> Q;
  M_PI : Q;
  NormalizeAngle : Q -> Q
}.

Section Rotation.
Context `{Math}.

(** [Vec2d::SelfRotate(angle)]. *)
Definition SelfRotate (v : Vec2d) (angle : Q) : Vec2d :=
  mkVec2d (x v * cos angle - y v * sin angle)
          (x v * sin angle + y v * cos angle).

(** [Vec2d::Angle()]. *)
Definition Angle (v : Vec2d) : Q := atan2 (y v) (x v).
End Rotation.

(** ** [std::vector] accessors *)

Definition front {A : Type} (v : list A) : option A := hd_error v.

Fixpoint back {A : Type} (v : list A) : option A :=
  match v with
  | [] => None
  | [a] => Some a
  | _ :: t => back t
  end.

(** ** The segment fuser: [OpenSpaceRoiDecider::FuseLineSegments] *)

Module Fuser.

Definition kEpsilon : Q := 1 # 100000000.

Definition segment : Type := list Vec2d.

(** The vector of segments with the iterator [cur_segment] in it: the
    segments before the iterator, the one it points to, the ones after. *)
Record cursor : Type := mkCursor {
  done : list segment;
  cur : segment;
  rest : list segment
}.

Inductive step : Type :=
| Continue (c : cursor)
| Exit (ok : bool) (v : list segment)
| Fault.

(** One pass through the body of the [while] loop, for an iterator that is
    not at the last segment. *)
Definition loop_body (done : list segment) (cur next : segment)
    (rest : list segment) : step :=
  match back cur, front next with
  | Some cur_last_point, Some next_first_point =>
      if DistanceTo_gt cur_last_point next_first_point kEpsilon then
        Continue (mkCursor (done ++ [cur]) next rest)
      else if (length cur <? 2)%nat || (length next <? 2)%nat then
        Exit false (done ++ cur :: next :: rest)
      else
        match nth_error cur (length cur - 2), nth_error next 1 with
        | Some cur_second_to_last_point, Some next_second_point =>
            if Qltb (CrossProd cur_second_to_last_point cur_last_point
                               next_second_point) 0 then
              let cur' := cur ++ [next_second_point] in
              match skipn 2 next with
              | [] => Continue (mkCursor done cur' rest)
              | next' => Continue (mkCursor done cur' (next' :: rest))
              end
            else
              Continue (mkCursor (done ++ [cur]) next rest)
        | _, _ => Fault
        end
  | _, _ => Fault
  end.

Definition fuse_step (c : cursor) : step :=
  match rest c with
  | [] => Exit true (done c ++ [cur c])
  | next :: rest' => loop_body (done c) (cur c) next rest'
  end.

Fixpoint fuse_loop (fuel : nat) (c : cursor) : outcome (bool * list segment) :=
  match fuse_step c with
  | Exit ok v => Returns (ok, v)
  | Fault => Undefined
  | Continue c' =>
      match fuel with
      | O => OutOfFuel
      | S fuel' => fuse_loop fuel' c'
      end
  end.

(** Every pass either moves the iterator forward or takes points away from
    the segment after it. *)
Definition work (rest : list segment) : nat :=
  list_sum (map (fun s => S (length s)) rest).

(** The vector is modified in place; the result carries the returned flag
    and the vector as the call leaves it.  On an empty vector [end() - 1]
    is not a valid iterator. *)
Definition FuseLineSegments (line_segments_vec : list segment)
  : outcome (bool * list segment) :=
  match line_segments_vec with
  | [] => Undefined
  | first :: others => fuse_loop (work others) (mkCursor [] first others)
  end.

End Fuser.

(** ** The hyperplane generator: [OpenSpaceRoiDecider::GetHyperPlanes] *)

Module HyperPlanes.

Definition kEpsilon : Q := 1 # 100000.

(** One row of [A] together with the entry of [b] in the same row. *)
Definition row : Type := (Q * Q) * Q.

(** [tmp1.inverse() * tmp2] for [tmp1 = [[x1, 1], [x2, 1]]] and
    [tmp2 = [y1; y2]]: the inverse is the adjugate over the determinant. *)
Definition solve_line (x1 y1 x2 y2 : Q) : Q * Q :=
  let det := x1 * 1 - 1 * x2 in
  let i00 := 1 / det in
  let i01 := - 1 / det in
  let i10 := - x2 / det in
  let i11 := x1 / det in
  (i00 * y1 + i01 * y2, i10 * y1 + i11 * y2).

(** The body of the inner loop: the hyperplane through [v1] and [v2]. *)
Definition edge_hyperplane (v1 v2 : Vec2d) : row :=
  if Qltb (Qabs (x v1 - x v2)) kEpsilon then
    if Qltb (y v2) (y v1) then ((1, 0), x v1)
    else ((- (1), 0), - x v1)
  else if Qltb (Qabs (y v1 - y v2)) kEpsilon then
    if Qltb (x v1) (x v2) then ((0, 1), y v1)
    else ((0, - (1)), - y v1)
  else
    let '(a, b) := solve_line (x v1) (y v1) (x v2) (y v2) in
    if Qltb (x v1) (x v2) then ((- a, 1), b)
    else ((a, - (1)), - b).

(** The inner loop, [j] counting up while [todo] rows remain. *)
Fixpoint piece_rows (piece : list Vec2d) (j todo : nat) : outcome (list row) :=
  match todo with
  | O => Returns []
  | S todo' =>
      do v1 <- index piece j;
      do v2 <- index piece (S j);
      do rows <- piece_rows piece (S j) todo';
      Returns (edge_hyperplane v1 v2 :: rows)
  end.

(** [M.block(counter, 0, rows, cols) = B]: the rows must exist in [M]. *)
Definition write_block {A : Type} (counter : nat) (B M : list A)
  : outcome (list A) :=
  if (counter + length B <=? length M)%nat then
    Returns (firstn counter M ++ B ++ skipn (counter + length B) M)
  else Undefined.

(** [M.resize(n, cols)]: nothing happens when the size is kept; Eigen
    leaves the entries unspecified otherwise, zero is taken here. *)
Definition resize {A : Type} (zero : A) (n : nat) (M : list A) : list A :=
  if (length M =? n)%nat then M else repeat zero n.

Definition MatrixA : Type := list (Q * Q).
Definition VectorB : Type := list Q.

(** The outer loop over the obstacles, [i] counting up while [todo]
    obstacles remain. *)
Fixpoint obstacles_loop (todo i counter : nat) (obstacles_edges_num : list nat)
    (obstacles_vertices_vec : list (list Vec2d)) (A_all : MatrixA)
    (b_all : VectorB) : outcome (MatrixA * VectorB) :=
  match todo with
  | O => Returns (A_all, b_all)
  | S todo' =>
      do current_vertice_num <- index obstacles_edges_num i;
      do piece <- index obstacles_vertices_vec i;
      do rows <- piece_rows piece 0 current_vertice_num;
      do A_all' <- write_block counter (map fst rows) A_all;
      do b_all' <- write_block counter (map snd rows) b_all;
      obstacles_loop todo' (S i) (counter + current_vertice_num)
                     obstacles_edges_num obstacles_vertices_vec A_all' b_all'
  end.

Definition GetHyperPlanes (obstacles_num : nat) (obstacles_edges_num : list nat)
    (obstacles_vertices_vec : list (list Vec2d)) (A_all : MatrixA)
    (b_all : VectorB) : outcome (bool * (MatrixA * VectorB)) :=
  if negb (obstacles_num =? length obstacles_vertices_vec)%nat then
    Returns (false, (A_all, b_all))
  else
    let A_all := resize (0, 0) (list_sum obstacles_edges_num) A_all in
    let b_all := resize 0 (list_sum obstacles_edges_num) b_all in
    do Ab <- obstacles_loop obstacles_num 0 0 obstacles_edges_num
                            obstacles_vertices_vec A_all b_all;
    Returns (true, Ab).

End HyperPlanes.

(** ** Configuration, frame and perception obstacles *)

Record OpenSpaceRoiDeciderConfig : Type := {
  roi_longitudinal_range : Q;
  roi_linesegment_min_angle : Q;
  roi_linesegment_length : Q;
  parking_depth_buffer : Q;
  parking_inwards : bool;
  parking_start_range : Q;
  enable_perception_obstacles : bool;
  perception_obstacle_buffer : Q;
  perception_obstacle_filtering_distance : Q
}.

Record VehicleParam : Type := {
  front_edge_to_center : Q;
  back_edge_to_center : Q
}.

Record VehicleState : Type := {
  vehicle_x : Q;
  vehicle_y : Q;
  vehicle_heading : Q
}.

(** The part of [OpenSpaceInfo] the decider reads and writes. *)
Record OpenSpaceInfo : Type := {
  origin_heading : Q;
  origin_point : Vec2d;
  ROI_xy_boundary : list Q;
  open_space_end_pose : list Q;
  obstacles_vertices_vec : list (list Vec2d);
  obstacles_edges_num : list nat;
  obstacles_num : nat;
  obstacles_A : HyperPlanes.MatrixA;
  obstacles_b : HyperPlanes.VectorB
}.

(** [common::math::Box2d], by the methods the decider calls. *)
Class BoxOps (Box2d : Type) : Type := {
  center : Box2d -> Vec2d;
  DistanceTo : Box2d -> Vec2d -> Q;
  Shift : Box2d -> Vec2d -> Box2d;
  LongitudinalExtend : Box2d -> Q -> Box2d;
  LateralExtend : Box2d -> Q -> Box2d;
  GetAllCorners : Box2d -> list Vec2d
}.

Record Obstacle (Box2d : Type) : Type := {
  IsVirtual : bool;
  PerceptionBoundingBox : Box2d
}.
Arguments IsVirtual {Box2d} o.
Arguments PerceptionBoundingBox {Box2d} o.

Module Obstacles.
Section Obstacles.
Context `{Math} {Box2d : Type} `{BoxOps Box2d}.
Variable config : OpenSpaceRoiDeciderConfig.
Variable vehicle_state : VehicleState.

(** [OpenSpaceRoiDecider::FilterOutObstacle]. *)
Definition FilterOutObstacle (info : OpenSpaceInfo) (obstacle : Obstacle Box2d)
  : outcome bool :=
  if IsVirtual obstacle then Returns true
  else
    let obstacle_box := PerceptionBoundingBox obstacle in
    let obstacle_center_xy := center obstacle_box in
    let roi_xy_boundary := ROI_xy_boundary info in
    let obstacle_center_xy := vsub obstacle_center_xy (origin_point info) in
    let obstacle_center_xy :=
      SelfRotate obstacle_center_xy (- origin_heading info) in
    do xmin <- index roi_xy_boundary 0;
    do xmax <- index roi_xy_boundary 1;
    do ymin <- index roi_xy_boundary 2;
    do ymax <- index roi_xy_boundary 3;
    if Qltb (x obstacle_center_xy) xmin || Qgtb (x obstacle_center_xy) xmax
       || Qltb (y obstacle_center_xy) ymin || Qgtb (y obstacle_center_xy) ymax
    then Returns true
    else
      let end_pose := open_space_end_pose info in
      do end_pose_0 <- index end_pose 0;
      do end_pose_1 <- index end_pose 1;
      let end_pose_x_y := mkVec2d end_pose_0 end_pose_1 in
      let end_pose_x_y := SelfRotate end_pose_x_y (origin_heading info) in
      let end_pose_x_y := vadd end_pose_x_y (origin_point info) in
      let vehicle_x_y :=
        mkVec2d (vehicle_x vehicle_state) (vehicle_y vehicle_state) in
      let vehicle_center_to_obstacle := DistanceTo obstacle_box vehicle_x_y in
      let end_pose_center_to_obstacle := DistanceTo obstacle_box end_pose_x_y in
      let filtering_distance := perception_obstacle_filtering_distance config in
      if Qgtb vehicle_center_to_obstacle filtering_distance
         && Qgtb end_pose_center_to_obstacle filtering_distance
      then Returns true
      else Returns false.

(** The [while (!vertices_ccw.empty())] loop: corners are taken from the
    back, rotated, and pushed. *)
Definition clockwise_corners (vertices_ccw : list Vec2d) (origin_heading : Q)
  : list Vec2d :=
  map (fun current_corner_pt =>
         SelfRotate current_corner_pt (- (1) * origin_heading))
      (rev vertices_ccw).

(** The vertices of one perception obstacle that is kept. *)
Definition obstacle_vertices (info : OpenSpaceInfo) (obstacle : Obstacle Box2d)
  : outcome (list Vec2d) :=
  let original_box := PerceptionBoundingBox obstacle in
  let original_box :=
    Shift original_box (vscale (origin_point info) (- (1))) in
  let original_box :=
    LongitudinalExtend original_box (perception_obstacle_buffer config) in
  let original_box :=
    LateralExtend original_box (perception_obstacle_buffer config) in
  let vertices_ccw := GetAllCorners original_box in
  let vertices_cw := clockwise_corners vertices_ccw (origin_heading info) in
  do first <- front_of vertices_cw;
  Returns (vertices_cw ++ [first]).

(** The loop over [obstacles_by_frame_->Items()]: the vertex lists to
    push, in order; their number is [perception_obstacles_num]. *)
Fixpoint perception_vertices (info : OpenSpaceInfo)
    (items : list (Obstacle Box2d)) : outcome (list (list Vec2d)) :=
  match items with
  | [] => Returns []
  | obstacle :: items' =>
      do filtered <- FilterOutObstacle info obstacle;
      if filtered then perception_vertices info items'
      else
        do vertices_cw <- obstacle_vertices info obstacle;
        do more <- perception_vertices info items';
        Returns (vertices_cw :: more)
  end.

(** The loops filling [parking_boundaries_obstacles_edges_num], with their
    [CHECK_GT(roi_parking_boundary[i].size(), 1)]. *)
Fixpoint parking_boundaries_edges_num (roi_parking_boundary : list (list Vec2d))
  : outcome (list nat) :=
  match roi_parking_boundary with
  | [] => Returns []
  | piece :: more =>
      if (1 <? length piece)%nat then
        do edges <- parking_boundaries_edges_num more;
        Returns ((length piece - 1)%nat :: edges)
      else Aborted
  end.

Definition set_vertices (info : OpenSpaceInfo) (v : list (list Vec2d))
    (e : list nat) (n : nat) : OpenSpaceInfo :=
  {| origin_heading := origin_heading info;
     origin_point := origin_point info;
     ROI_xy_boundary := ROI_xy_boundary info;
     open_space_end_pose := open_space_end_pose info;
     obstacles_vertices_vec := v;
     obstacles_edges_num := e;
     obstacles_num := n;
     obstacles_A := obstacles_A info;
     obstacles_b := obstacles_b info |}.

Definition set_hyperplanes (info : OpenSpaceInfo)
    (Ab : HyperPlanes.MatrixA * HyperPlanes.VectorB) : OpenSpaceInfo :=
  {| origin_heading := origin_heading info;
     origin_point := origin_point info;
     ROI_xy_boundary := ROI_xy_boundary info;
     open_space_end_pose := open_space_end_pose info;
     obstacles_vertices_vec := obstacles_vertices_vec info;
     obstacles_edges_num := obstacles_edges_num info;
     obstacles_num := obstacles_num info;
     obstacles_A := fst Ab;
     obstacles_b := snd Ab |}.

(** [OpenSpaceRoiDecider::LoadObstacleInVertices]: the vertex lists are
    pushed behind whatever the frame already holds; the edge counts and
    the obstacle count are overwritten. *)
Definition LoadObstacleInVertices (roi_parking_boundary : list (list Vec2d))
    (obstacles_by_frame : list (Obstacle Box2d)) (info : OpenSpaceInfo)
  : outcome (bool * OpenSpaceInfo) :=
  let parking_boundaries_num := length roi_parking_boundary in
  let vertices := obstacles_vertices_vec info ++ roi_parking_boundary in
  do parking_edges <- parking_boundaries_edges_num roi_parking_boundary;
  if enable_perception_obstacles config then
    do perception <- perception_vertices info obstacles_by_frame;
    let perception_obstacles_num := length perception in
    let perception_obstacles_edges_num :=
      repeat 4%nat perception_obstacles_num in
    Returns (true,
             set_vertices info (vertices ++ perception)
               (parking_edges ++ perception_obstacles_edges_num)
               (parking_boundaries_num + perception_obstacles_num))
  else
    Returns (true,
             set_vertices info vertices parking_edges
                          (parking_boundaries_num + 0)).

(** [OpenSpaceRoiDecider::LoadObstacleInHyperPlanes]. *)
Definition LoadObstacleInHyperPlanes (info : OpenSpaceInfo)
  : outcome (bool * OpenSpaceInfo) :=
  let rows := list_sum (obstacles_edges_num info) in
  let info := set_hyperplanes info (repeat (0, 0) rows, repeat 0 rows) in
  do r <- HyperPlanes.GetHyperPlanes (obstacles_num info)
            (obstacles_edges_num info) (obstacles_vertices_vec info)
            (obstacles_A info) (obstacles_b info);
  let '(ok, Ab) := r in
  Returns (ok, set_hyperplanes info Ab).

(** [OpenSpaceRoiDecider::FormulateBoundaryConstraints]. *)
Definition FormulateBoundaryConstraints
    (roi_parking_boundary : list (list Vec2d))
    (obstacles_by_frame : list (Obstacle Box2d)) (info : OpenSpaceInfo)
  : outcome (bool * OpenSpaceInfo) :=
  do r <- LoadObstacleInVertices roi_parking_boundary obstacles_by_frame info;
  let '(ok, info) := r in
  if negb ok then Returns (false, info)
  else
    do r <- LoadObstacleInHyperPlanes info;
    let '(ok, info) := r in
    if negb ok then Returns (false, info) else Returns (true, info).

End Obstacles.
End Obstacles.

(** ** The lane path *)

(** [hdmap::MapPathPoint]: a [Vec2d] with a heading. *)
Record MapPathPoint : Type := {
  point : Vec2d;
  heading : Q
}.

(** [hdmap::Path], by the queries the decider makes. *)
Record Path : Type := {
  GetSmoothPoint : Q -> MapPathPoint;
  GetRoadLeftWidth : Q -> Q;
  GetRoadRightWidth : Q -> Q;
  GetProjection : Vec2d -> option (Q * Q)
}.

(** ** The boundary builder: the sampling loop of [GetParkingBoundary] *)

Module Builder.

Record samples : Type := {
  right_lane_boundary : list Vec2d;
  left_lane_boundary : list Vec2d;
  center_lane_boundary : list Vec2d;
  center_lane_s : list Q;
  left_lane_road_width : list Q;
  right_lane_road_width : list Q
}.

Definition no_samples : samples :=
  {| right_lane_boundary := []; left_lane_boundary := [];
     center_lane_boundary := []; center_lane_s := [];
     left_lane_road_width := []; right_lane_road_width := [] |}.

Section Builder.
Context `{Math}.
Variable config : OpenSpaceRoiDeciderConfig.
Variable nearby_path : Path.
Variables start_s end_s : Q.

(** The six [push_back]s of a recorded station. *)
Definition record (acc : samples) (check_point_s : Q) : samples :=
  let check_point := GetSmoothPoint nearby_path check_point_s in
  let check_point_heading := heading check_point in
  let point_left_road_width := GetRoadLeftWidth nearby_path check_point_s in
  let point_right_road_width := GetRoadRightWidth nearby_path check_point_s in
  let point_right_vec_cos := cos (check_point_heading - M_PI / 2) in
  let point_right_vec_sin := sin (check_point_heading - M_PI / 2) in
  let point_left_vec_cos := cos (check_point_heading + M_PI / 2) in
  let point_left_vec_sin := sin (check_point_heading + M_PI / 2) in
  let right_lane_point :=
    mkVec2d (point_right_road_width * point_right_vec_cos)
            (point_right_road_width * point_right_vec_sin) in
  let right_lane_point := vadd right_lane_point (point check_point) in
  let left_lane_point :=
    mkVec2d (point_left_road_width * point_left_vec_cos)
            (point_left_road_width * point_left_vec_sin) in
  let left_lane_point := vadd left_lane_point (point check_point) in
  {| right_lane_boundary := right_lane_boundary acc ++ [right_lane_point];
     left_lane_boundary := left_lane_boundary acc ++ [left_lane_point];
     center_lane_boundary := center_lane_boundary acc ++ [point check_point];
     center_lane_s := center_lane_s acc ++ [check_point_s];
     left_lane_road_width := left_lane_road_width acc ++ [point_left_road_width];
     right_lane_road_width :=
       right_lane_road_width acc ++ [point_right_road_width] |}.

(** The test that sends the loop to [continue] without recording. *)
Definition skips (check_point_s check_point_heading last_check_point_heading : Q)
  : bool :=
  Qltb (Qabs (NormalizeAngle (check_point_heading - last_check_point_heading)))
       (roi_linesegment_min_angle config)
  && negb (Qeq_bool check_point_s start_s)
  && negb (Qeq_bool check_point_s end_s).

(** The station for a given value of [index], clamped to [end_s]. *)
Definition next_station (index : Q) : Q :=
  let check_point_s := index * roi_linesegment_length config in
  if Qgeb check_point_s end_s then end_s else check_point_s.

Fixpoint sample_loop (fuel : nat) (index check_point_s last_check_point_heading : Q)
    (acc : samples) : outcome samples :=
  if Qle_bool check_point_s end_s then
    match fuel with
    | O => OutOfFuel
    | S fuel' =>
        let check_point := GetSmoothPoint nearby_path check_point_s in
        let check_point_heading := heading check_point in
        if skips check_point_s check_point_heading last_check_point_heading
        then
          let index := index + 1 in
          sample_loop fuel' index (next_station index) check_point_heading acc
        else
          let acc := record acc check_point_s in
          if Qeq_bool check_point_s end_s then Returns acc
          else
            let index := index + 1 in
            sample_loop fuel' index (next_station index) check_point_heading
                        acc
    end
  else Returns acc.

Definition BuildLaneBoundary (fuel : nat) : outcome samples :=
  let start_point := GetSmoothPoint nearby_path start_s in
  let last_check_point_heading := heading start_point in
  sample_loop fuel 0 start_s last_check_point_heading no_samples.

End Builder.
End Builder.

(** ** The parking-spot stitcher: the two branches of [GetParkingBoundary] *)

Module Stitcher.

Definition segment : Type := list Vec2d.

(** [std::lower_bound] and [std::upper_bound] on a range partitioned by the
    searched value: the number of leading elements [< value], respectively
    [<= value]. *)
Fixpoint lower_bound (v : list Q) (value : Q) : nat :=
  match v with
  | [] => 0
  | a :: t => if Qltb a value then S (lower_bound t value) else 0
  end.

Fixpoint upper_bound (v : list Q) (value : Q) : nat :=
  match v with
  | [] => 0
  | a :: t => if Qltb value a then 0 else S (upper_bound t value)
  end.

(** [v.begin() + i]: an iterator into [v] or its end. *)
Definition iterator_at {A : Type} (v : list A) (i : nat) : outcome nat :=
  if (i <=? length v)%nat then Returns i else Undefined.

(** [v.size() - 1] as the bound of an index loop.  On an empty vector the
    subtraction wraps around and the loops that use the bound then index
    out of range. *)
Definition last_index {A : Type} (v : list A) : outcome nat :=
  match v with
  | [] => Undefined
  | _ :: t => Returns (length t)
  end.

(** [for (i = from; i < from + todo; i++) push {v[i], v[i + 1]}]. *)
Fixpoint forward_segments (v : list Vec2d) (i todo : nat)
  : outcome (list segment) :=
  match todo with
  | O => Returns []
  | S todo' =>
      do a <- index v i;
      do b <- index v (S i);
      do more <- forward_segments v (S i) todo';
      Returns ([a; b] :: more)
  end.

(** [for (i = from; i > from - todo; i--) push {v[i], v[i - 1]}]. *)
Fixpoint backward_segments (v : list Vec2d) (i todo : nat)
  : outcome (list segment) :=
  match todo with
  | O => Returns []
  | S todo' =>
      do a <- index v i;
      do b <- index v (i - 1);
      do more <- backward_segments v (i - 1) todo';
      Returns ([a; b] :: more)
  end.

Record corners : Type := {
  left_top : Vec2d;
  left_down : Vec2d;
  right_down : Vec2d;
  right_top : Vec2d
}.

Section Stitcher.
Context `{Math}.
Variable origin_point : Vec2d.
Variable origin_heading : Q.

(** World frame to parking frame: [p -= origin_point;
    p.SelfRotate(-origin_heading)]. *)
Definition to_local (p : Vec2d) : Vec2d :=
  SelfRotate (vsub p origin_point) (- origin_heading).

(** Parking frame back to world frame. *)
Definition to_world (p : Vec2d) : Vec2d :=
  vadd (SelfRotate p origin_heading) origin_point.

(** One pass of the rescaling loop on [boundary[i]].  [operator/=] has no
    rational result for a zero ratio; that case does not return. *)
Definition rescale_point (p center : Vec2d) (road_width factor : Q)
  : outcome Vec2d :=
  let p := SelfRotate p origin_heading in
  let p := vadd p origin_point in
  let p := vsub p center in
  if Qeq_bool road_width 0 then Aborted
  else
    let p := vdiv p road_width in
    let p := vscale p factor in
    let p := vadd p center in
    let p := vsub p origin_point in
    Returns (SelfRotate p (- origin_heading)).

(** The rescaling loop over [i < boundary.size()], reading
    [center_lane_boundary[i]] and the road width at [i]. *)
Fixpoint rescale (boundary center_lane_boundary : list Vec2d)
    (road_width : list Q) (factor : Q) : outcome (list Vec2d) :=
  match boundary with
  | [] => Returns []
  | p :: boundary' =>
      do c <- index center_lane_boundary 0;
      do w <- index road_width 0;
      do p' <- rescale_point p c w factor;
      do more <- rescale boundary' (tl center_lane_boundary) (tl road_width)
                         factor;
      Returns (p' :: more)
  end.

Variable spot : corners.
Variables left_top_s right_top_s average_l : Q.

Definition parking_spot_boundary : list Vec2d :=
  [left_top spot; left_down spot; right_down spot; right_top spot].

Definition parking_spot_segments : list segment :=
  [[left_top spot; left_down spot];
   [left_down spot; right_down spot];
   [right_down spot; right_top spot]].

(** The branch [average_l < 0], once the right edge is rescaled: the
    bracket search, the closed polyline and the list of segments. *)
Definition stitch_right_edges (right_lane_boundary left_lane_boundary : list Vec2d)
    (center_lane_s : list Q) : outcome (list Vec2d * list segment) :=
  let point_left_to_left_top_connor_index :=
    lower_bound center_lane_s left_top_s in
  let point_left_to_left_top_connor_index :=
    if (point_left_to_left_top_connor_index =? 0)%nat
    then point_left_to_left_top_connor_index
    else (point_left_to_left_top_connor_index - 1)%nat in
  do point_left_to_left_top_connor_itr <-
    iterator_at right_lane_boundary point_left_to_left_top_connor_index;
  let point_right_to_right_top_connor_index :=
    upper_bound center_lane_s right_top_s in
  do point_right_to_right_top_connor_itr <-
    iterator_at right_lane_boundary point_right_to_right_top_connor_index;
  let boundary_points :=
    firstn point_left_to_left_top_connor_itr right_lane_boundary in
  let boundary_points := boundary_points ++ parking_spot_boundary in
  let boundary_points :=
    boundary_points
      ++ skipn point_right_to_right_top_connor_itr right_lane_boundary in
  let boundary_points := boundary_points ++ rev left_lane_boundary in
  do first <- front_of right_lane_boundary;
  let boundary_points := boundary_points ++ [first] in
  do head_segments <-
    forward_segments right_lane_boundary 0
                     point_left_to_left_top_connor_index;
  do stitch_from <-
    index right_lane_boundary point_left_to_left_top_connor_index;
  let left_stitching_segment := [stitch_from; left_top spot] in
  do stitch_to <-
    index right_lane_boundary point_right_to_right_top_connor_index;
  let right_stitching_segment := [right_top spot; stitch_to] in
  do right_lane_boundary_last_index <- last_index right_lane_boundary;
  do tail_segments <-
    forward_segments right_lane_boundary
      point_right_to_right_top_connor_index
      (right_lane_boundary_last_index
       - point_right_to_right_top_connor_index);
  do left_lane_boundary_last_index <- last_index left_lane_boundary;
  do left_segments <-
    backward_segments left_lane_boundary left_lane_boundary_last_index
                      left_lane_boundary_last_index;
  Returns (boundary_points,
           head_segments ++ [left_stitching_segment]
             ++ parking_spot_segments ++ [right_stitching_segment]
             ++ tail_segments ++ left_segments).

(** The branch [average_l < 0]: the spot is on the right of the lane; the
    right edge is rescaled and the left edge is taken as it is. *)
Definition stitch_right (s : Builder.samples)
  : outcome (list Vec2d * list segment) :=
  do right_lane_boundary <-
    rescale (Builder.right_lane_boundary s) (Builder.center_lane_boundary s)
            (Builder.right_lane_road_width s) (- average_l);
  stitch_right_edges right_lane_boundary (Builder.left_lane_boundary s)
                     (Builder.center_lane_s s).

(** The branch [average_l >= 0], once the left edge is rescaled. *)
Definition stitch_left_edges (right_lane_boundary left_lane_boundary : list Vec2d)
    (center_lane_s : list Q) : outcome (list Vec2d * list segment) :=
  let point_right_to_right_top_connor_index :=
    lower_bound center_lane_s right_top_s in
  let point_right_to_right_top_connor_index :=
    if (point_right_to_right_top_connor_index <=? 0)%nat
    then point_right_to_right_top_connor_index
    else (point_right_to_right_top_connor_index - 1)%nat in
  do point_right_to_right_top_connor_itr <-
    iterator_at left_lane_boundary point_right_to_right_top_connor_index;
  let point_left_to_left_top_connor_index :=
    upper_bound center_lane_s left_top_s in
  do point_left_to_left_top_connor_itr <-
    iterator_at left_lane_boundary point_left_to_left_top_connor_index;
  let boundary_points := right_lane_boundary in
  let boundary_points :=
    boundary_points
      ++ rev (skipn point_left_to_left_top_connor_itr left_lane_boundary) in
  let boundary_points := boundary_points ++ parking_spot_boundary in
  let boundary_points :=
    boundary_points
      ++ rev (firstn point_right_to_right_top_connor_itr left_lane_boundary) in
  do first <- front_of right_lane_boundary;
  let boundary_points := boundary_points ++ [first] in
  do right_lane_boundary_last_index <- last_index right_lane_boundary;
  do right_segments <-
    forward_segments right_lane_boundary 0 right_lane_boundary_last_index;
  do left_lane_boundary_last_index <- last_index left_lane_boundary;
  do far_segments <-
    backward_segments left_lane_boundary left_lane_boundary_last_index
      (left_lane_boundary_last_index - point_left_to_left_top_connor_index);
  do stitch_from <-
    index left_lane_boundary point_left_to_left_top_connor_index;
  let left_stitching_segment := [stitch_from; left_top spot] in
  do stitch_to <-
    index left_lane_boundary point_right_to_right_top_connor_index;
  let right_stitching_segment := [right_top spot; stitch_to] in
  do near_segments <-
    backward_segments left_lane_boundary
      point_right_to_right_top_connor_index
      point_right_to_right_top_connor_index;
  Returns (boundary_points,
           right_segments ++ far_segments ++ [left_stitching_segment]
             ++ parking_spot_segments ++ [right_stitching_segment]
             ++ near_segments).

(** The branch [average_l >= 0]: the spot is on the left of the lane; the
    left edge is rescaled and the right edge is taken as it is. *)
Definition stitch_left (s : Builder.samples)
  : outcome (list Vec2d * list segment) :=
  do left_lane_boundary <-
    rescale (Builder.left_lane_boundary s) (Builder.center_lane_boundary s)
            (Builder.left_lane_road_width s) average_l;
  stitch_left_edges (Builder.right_lane_boundary s) left_lane_boundary
                    (Builder.center_lane_s s).

(** [if (average_l < 0) ... else ...]. *)
Definition StitchBoundary (s : Builder.samples)
  : outcome (list Vec2d * list segment) :=
  if Qltb average_l 0 then stitch_right s else stitch_left s.

End Stitcher.
End Stitcher.

(** ** [OpenSpaceRoiDecider::GetParkingBoundary] and [Process] *)

Inductive ErrorCode : Type := OK | PLANNING_ERROR.

Record Status : Type := {
  code : ErrorCode;
  error_message : String.string
}.

Definition Status_OK : Status := {| code := OK; error_message := String.EmptyString |}.

Record Frame (Box2d : Type) : Type := {
  vehicle_state : VehicleState;
  obstacles_by_frame : list (Obstacle Box2d);
  (** [routing_request.parking_space().id().id()], when both are set. *)
  routing_parking_space_id : option String.string;
  open_space_info : OpenSpaceInfo
}.
Arguments vehicle_state {Box2d} f.
Arguments obstacles_by_frame {Box2d} f.
Arguments routing_parking_space_id {Box2d} f.
Arguments open_space_info {Box2d} f.

Module Decider.

Definition kMathEpsilon : Q := 1 # 10000000000.

(** [std::minmax_element] with a [<] comparison on a key: the first
    smallest and the last largest element. *)
Definition min_element (key : Vec2d -> Q) (first : Vec2d) (others : list Vec2d)
  : Vec2d :=
  fold_left (fun m a => if Qltb (key a) (key m) then a else m) others first.

Definition max_element (key : Vec2d -> Q) (first : Vec2d) (others : list Vec2d)
  : Vec2d :=
  fold_left (fun m a => if Qltb (key a) (key m) then m else a) others first.

Definition xy_boundary (boundary_points : list Vec2d) : outcome (list Q) :=
  match boundary_points with
  | [] => Undefined
  | first :: others =>
      Returns [x (min_element x first others); x (max_element x first others);
               y (min_element y first others); y (max_element y first others)]
  end.

(** [polygon().points().at(i)]: an uncaught [std::out_of_range] ends the
    process. *)
Definition at_ {A : Type} (v : list A) (i : nat) : outcome A :=
  match nth_error v i with
  | Some a => Returns a
  | None => Aborted
  end.

Definition set_origin (info : OpenSpaceInfo) (heading : Q) (p : Vec2d)
  : OpenSpaceInfo :=
  {| origin_heading := heading;
     origin_point := p;
     ROI_xy_boundary := ROI_xy_boundary info;
     open_space_end_pose := open_space_end_pose info;
     obstacles_vertices_vec := obstacles_vertices_vec info;
     obstacles_edges_num := obstacles_edges_num info;
     obstacles_num := obstacles_num info;
     obstacles_A := obstacles_A info;
     obstacles_b := obstacles_b info |}.

Definition set_ROI_xy_boundary (info : OpenSpaceInfo) (b : list Q)
  : OpenSpaceInfo :=
  {| origin_heading := origin_heading info;
     origin_point := origin_point info;
     ROI_xy_boundary := b;
     open_space_end_pose := open_space_end_pose info;
     obstacles_vertices_vec := obstacles_vertices_vec info;
     obstacles_edges_num := obstacles_edges_num info;
     obstacles_num := obstacles_num info;
     obstacles_A := obstacles_A info;
     obstacles_b := obstacles_b info |}.

Definition push_end_pose (info : OpenSpaceInfo) (pose : list Q)
  : OpenSpaceInfo :=
  {| origin_heading := origin_heading info;
     origin_point := origin_point info;
     ROI_xy_boundary := ROI_xy_boundary info;
     open_space_end_pose := open_space_end_pose info ++ pose;
     obstacles_vertices_vec := obstacles_vertices_vec info;
     obstacles_edges_num := obstacles_edges_num info;
     obstacles_num := obstacles_num info;
     obstacles_A := obstacles_A info;
     obstacles_b := obstacles_b info |}.

Section Decider.
Context `{Math} {Box2d : Type} `{BoxOps Box2d}.
Variable config : OpenSpaceRoiDeciderConfig.
Variable vehicle_params : VehicleParam.

(** What [GetParkingSpotFromMap] hands back for a frame: the polygon
    points of the target spot and the path next to it, or nothing when
    the map search fails. *)
Variable GetParkingSpotFromMap : Frame Box2d -> option (list Vec2d * Path).

Definition with_info (frame : Frame Box2d) (info : OpenSpaceInfo)
  : Frame Box2d :=
  {| vehicle_state := vehicle_state frame;
     obstacles_by_frame := obstacles_by_frame frame;
     routing_parking_space_id := routing_parking_space_id frame;
     open_space_info := info |}.

(** The end pose of the parking spot, in the parking frame. *)
Definition end_pose_of (spot : Stitcher.corners) : outcome (list Q) :=
  let left_top := Stitcher.left_top spot in
  let left_down := Stitcher.left_down spot in
  let right_top := Stitcher.right_top spot in
  let parking_spot_heading := Angle (vsub left_down left_top) in
  let end_x := (x left_top + x right_top) / 2 in
  let parking_depth_buffer := parking_depth_buffer config in
  if negb (Qgeb parking_depth_buffer 0) then Aborted
  else
    let parking_inwards := parking_inwards config in
    let top_to_down_distance := y left_top - y left_down in
    let end_y :=
      if Qgtb parking_spot_heading kMathEpsilon then
        if parking_inwards then
          y left_down
          - (Qmax (3 * - top_to_down_distance / 4)
                  (front_edge_to_center vehicle_params)
             + parking_depth_buffer)
        else
          y left_down
          - (Qmax (- top_to_down_distance / 4)
                  (back_edge_to_center vehicle_params)
             + parking_depth_buffer)
      else
        if parking_inwards then
          y left_down
          + (Qmax (3 * top_to_down_distance / 4)
                  (front_edge_to_center vehicle_params)
             + parking_depth_buffer)
        else
          y left_down
          + (Qmax (top_to_down_distance / 4)
                  (back_edge_to_center vehicle_params)
             + parking_depth_buffer) in
    let end_heading :=
      if parking_inwards then parking_spot_heading
      else NormalizeAngle (parking_spot_heading + M_PI) in
    Returns [end_x; end_y; end_heading; 0].

(** The four corners read from the polygon of the target spot. *)
Definition spot_corners (points : list Vec2d) : outcome Stitcher.corners :=
  do left_top <- at_ points 3;
  do left_down <- at_ points 0;
  do right_top <- at_ points 2;
  do right_down <- at_ points 1;
  Returns {| Stitcher.left_top := left_top; Stitcher.left_down := left_down;
             Stitcher.right_down := right_down;
             Stitcher.right_top := right_top |}.

(** The loop that moves the two sampled edges into the parking frame. *)
Definition localize_samples (origin_point : Vec2d) (origin_heading : Q)
    (sampled : Builder.samples) : Builder.samples :=
  let local := Stitcher.to_local origin_point origin_heading in
  {| Builder.right_lane_boundary :=
       map local (Builder.right_lane_boundary sampled);
     Builder.left_lane_boundary :=
       map local (Builder.left_lane_boundary sampled);
     Builder.center_lane_boundary := Builder.center_lane_boundary sampled;
     Builder.center_lane_s := Builder.center_lane_s sampled;
     Builder.left_lane_road_width := Builder.left_lane_road_width sampled;
     Builder.right_lane_road_width := Builder.right_lane_road_width sampled |}.

Definition localize_corners (origin_point : Vec2d) (origin_heading : Q)
    (spot : Stitcher.corners) : Stitcher.corners :=
  let local := Stitcher.to_local origin_point origin_heading in
  {| Stitcher.left_top := local (Stitcher.left_top spot);
     Stitcher.left_down := local (Stitcher.left_down spot);
     Stitcher.right_down := local (Stitcher.right_down spot);
     Stitcher.right_top := local (Stitcher.right_top spot) |}.

(** What the first part of [GetParkingBoundary] has in hand when it gets
    to [FuseLineSegments]. *)
Record stitched : Type := {
  stitched_frame : Frame Box2d;
  stitched_spot : Stitcher.corners;
  boundary_points : list Vec2d;
  roi_parking_boundary : list (list Vec2d)
}.

(** [GetParkingBoundary] up to the end of the stitching branches; [None]
    stands for an early [return false]. *)
Definition locate_and_stitch (fuel : nat) (frame : Frame Box2d)
  : outcome (option stitched) :=
  match GetParkingSpotFromMap frame with
  | None => Returns None
  | Some (points, nearby_path) =>
      do spot <- spot_corners points;
      match GetProjection nearby_path (Stitcher.left_top spot),
            GetProjection nearby_path (Stitcher.right_top spot) with
      | Some (left_top_s, left_top_l), Some (right_top_s, right_top_l) =>
          let average_l := (left_top_l + right_top_l) / 2 in
          let center_line_s := (left_top_s + right_top_s) / 2 in
          let start_s := center_line_s - roi_longitudinal_range config in
          let end_s := center_line_s + roi_longitudinal_range config in
          do sampled <-
            Builder.BuildLaneBoundary config nearby_path start_s end_s fuel;
          let heading_vec :=
            vsub (Stitcher.right_top spot) (Stitcher.left_top spot) in
          let info :=
            set_origin (open_space_info frame) (Angle heading_vec)
                       (Stitcher.left_top spot) in
          let frame := with_info frame info in
          let origin_point := origin_point info in
          let origin_heading := origin_heading info in
          let sampled := localize_samples origin_point origin_heading sampled in
          let spot := localize_corners origin_point origin_heading spot in
          do r <-
            Stitcher.StitchBoundary origin_point origin_heading spot
              left_top_s right_top_s average_l sampled;
          Returns (Some {| stitched_frame := frame; stitched_spot := spot;
                           boundary_points := fst r;
                           roi_parking_boundary := snd r |})
      | _, _ => Returns None
      end
  end.

(** The test on the vehicle position against [ROI_xy_boundary]. *)
Definition outside_xy_boundary (vehicle_xy : Vec2d) (ROI_xy_boundary : list Q)
  : outcome bool :=
  do xmin <- index ROI_xy_boundary 0;
  do xmax <- index ROI_xy_boundary 1;
  do ymin <- index ROI_xy_boundary 2;
  do ymax <- index ROI_xy_boundary 3;
  Returns (Qltb (x vehicle_xy) xmin || Qgtb (x vehicle_xy) xmax
           || Qltb (y vehicle_xy) ymin || Qgtb (y vehicle_xy) ymax).

(** The vehicle position in the parking frame. *)
Definition vehicle_in_parking_frame (frame : Frame Box2d) : Vec2d :=
  let info := open_space_info frame in
  let vehicle_xy :=
    mkVec2d (vehicle_x (vehicle_state frame))
            (vehicle_y (vehicle_state frame)) in
  Stitcher.to_local (origin_point info) (origin_heading info) vehicle_xy.

(** The flag returned, the frame as the call leaves it, and
    [*roi_parking_boundary]. *)
Definition GetParkingBoundary (fuel : nat) (frame : Frame Box2d)
  : outcome (bool * Frame Box2d * list (list Vec2d)) :=
  do located <- locate_and_stitch fuel frame;
  match located with
  | None => Returns (false, frame, [])
  | Some st =>
      let frame := stitched_frame st in
      do fused <- Fuser.FuseLineSegments (roi_parking_boundary st);
      let '(fuse_ok, roi_parking_boundary) := fused in
      if negb fuse_ok then Returns (false, frame, roi_parking_boundary)
      else
        do ROI_xy_boundary <- xy_boundary (boundary_points st);
        let info := set_ROI_xy_boundary (open_space_info frame) ROI_xy_boundary in
        let frame := with_info frame info in
        do outside <-
          outside_xy_boundary (vehicle_in_parking_frame frame) ROI_xy_boundary;
        if outside then Returns (false, frame, roi_parking_boundary)
        else
          do pose <- end_pose_of (stitched_spot st);
          let frame := with_info frame (push_end_pose info pose) in
          Returns (true, frame, roi_parking_boundary)
  end.

(** [OpenSpaceRoiDecider::Process], on a frame pointer that may be null:
    the status returned and the frame as the call leaves it. *)
Definition Process (fuel : nat) (frame : option (Frame Box2d))
  : outcome (Status * option (Frame Box2d)) :=
  match frame with
  | None =>
      Returns ({| code := PLANNING_ERROR;
                  error_message :=
                    "Invalid frame, fail to process the OpenSpaceRoiDecider."%string |},
               None)
  | Some frame =>
      match routing_parking_space_id frame with
      | None =>
          Returns ({| code := PLANNING_ERROR;
                      error_message :=
                        "Failed to get parking space id from routing"%string |},
                   Some frame)
      | Some _ =>
          do r <- GetParkingBoundary fuel frame;
          let '(ok, frame, roi_parking_boundary) := r in
          if negb ok then
            Returns ({| code := PLANNING_ERROR;
                        error_message :=
                          "Fail to get parking boundary from map"%string |},
                     Some frame)
          else
            do r <- Obstacles.FormulateBoundaryConstraints config
                      (vehicle_state frame) roi_parking_boundary
                      (obstacles_by_frame frame) (open_space_info frame);
            let '(ok, info) := r in
            let frame := with_info frame info in
            if negb ok then
              Returns ({| code := PLANNING_ERROR;
                          error_message :=
                            "Fail to formulate boundary constraints"%string |},
                       Some frame)
            else Returns (Status_OK, Some frame)
      end
  end.

End Decider.
End Decider.

(** ** The map search: [GetParkingSpotFromMap] and its helpers *)

Module MapSearch.

Definition Id : Type := String.string.

(** [hdmap::LaneInfo], by what the search reads of it. *)
Record LaneInfo : Type := {
  lane_id : Id;
  successor_id : list Id;
  accumulate_s : list Q
}.

(** [hdmap::LaneSegment(lane, start_s, end_s)]. *)
Record LaneSegment : Type := {
  lane : LaneInfo;
  start_s : Q;
  end_s : Q
}.

(** [hdmap::ParkingSpaceInfo], by the points of its polygon. *)
Record ParkingSpaceInfo : Type := {
  polygon_points : list Vec2d
}.

(** The part of [OpenSpaceInfo] the search reads and writes. *)
Record TargetInfo : Type := {
  target_parking_spot_id : Id;
  target_parking_lane : option LaneInfo
}.

(** The HD map and [hdmap::Path], by the calls the search makes.  A
    lookup that finds nothing hands back a null pointer;
    [GetNearestLaneWithHeading] has no lane for a status other than 0. *)
Class MapService (MapPath : Type) : Type := {
  GetNearestLaneWithHeading :
    VehicleState -> Q -> Q -> Q -> option (LaneInfo * (Q * Q));
  GetLaneById : Id -> option LaneInfo;
  GetParkingSpaceById : Id -> option ParkingSpaceInfo;
  new_Path : list LaneSegment -> MapPath;
  parking_space_overlaps : MapPath -> list Id;
  GetNearestPoint : MapPath -> Vec2d -> Q * Q
}.

(** [v.back()]: undefined on an empty vector. *)
Definition back_of {A : Type} (v : list A) : outcome A :=
  match back v with
  | Some a => Returns a
  | None => Undefined
  end.

Section MapSearch.
Context `{Math} {MapPath : Type} `{MapService MapPath}.
Variable config : OpenSpaceRoiDeciderConfig.
Variable vehicle_state_ : VehicleState.
Variable target_parking_spot_id_ : Id.

(** [OpenSpaceRoiDecider::SearchTargetParkingSpotOnPath]: the loop runs
    over every overlap and assigns at each one that matches. *)
Definition SearchTargetParkingSpotOnPath (nearby_path : MapPath)
    (target_parking_spot : option ParkingSpaceInfo)
  : option ParkingSpaceInfo :=
  fold_left
    (fun target_parking_spot object_id =>
       if String.eqb object_id target_parking_spot_id_
       then GetParkingSpaceById object_id
       else target_parking_spot)
    (parking_space_overlaps nearby_path) target_parking_spot.

(** [OpenSpaceRoiDecider::CheckDistanceToParkingSpot]. *)
Definition CheckDistanceToParkingSpot (nearby_path : MapPath)
    (target_parking_spot : ParkingSpaceInfo) : outcome bool :=
  do left_bottom_point <- Decider.at_ (polygon_points target_parking_spot) 0;
  do right_bottom_point <- Decider.at_ (polygon_points target_parking_spot) 1;
  let left_bottom_point_s := fst (GetNearestPoint nearby_path left_bottom_point) in
  let right_bottom_point_s :=
    fst (GetNearestPoint nearby_path right_bottom_point) in
  let vehicle_vec :=
    mkVec2d (vehicle_x vehicle_state_) (vehicle_y vehicle_state_) in
  let vehicle_point_s := fst (GetNearestPoint nearby_path vehicle_vec) in
  if Qltb (Qabs ((left_bottom_point_s + right_bottom_point_s) / 2
                 - vehicle_point_s))
          (parking_start_range config)
  then Returns true
  else Returns false.

(** [LaneSegment(lane, lane->accumulate_s().front(),
    lane->accumulate_s().back())]. *)
Definition whole_lane (l : LaneInfo) : outcome LaneSegment :=
  do first <- front_of (accumulate_s l);
  do last <- back_of (accumulate_s l);
  Returns {| lane := l; start_s := first; end_s := last |}.

(** The loop over the successors of the nearest lane.  The vector of
    segments is not cleared between two passes. *)
Fixpoint successors_loop (nearest_lanesegment : LaneSegment)
    (successors : list Id) (segments_vector : list LaneSegment)
    (nearby_path : option MapPath)
    (target_parking_spot : option ParkingSpaceInfo)
  : outcome (option MapPath * option ParkingSpaceInfo) :=
  match successors with
  | [] => Returns (nearby_path, target_parking_spot)
  | next_lane_id :: successors' =>
      let segments_vector := segments_vector ++ [nearest_lanesegment] in
      match GetLaneById next_lane_id with
      | None => Undefined
      | Some next_lane =>
          do next_lanesegment <- whole_lane next_lane;
          let segments_vector := segments_vector ++ [next_lanesegment] in
          let nearby_path := new_Path segments_vector in
          let target_parking_spot :=
            SearchTargetParkingSpotOnPath nearby_path target_parking_spot in
          match target_parking_spot with
          | Some _ => Returns (Some nearby_path, target_parking_spot)
          | None =>
              successors_loop nearest_lanesegment successors' segments_vector
                              (Some nearby_path) target_parking_spot
          end
      end
  end.

(** The lane the search starts from: the lane of the last frame when it
    has one for the same spot, the nearest lane of the map otherwise. *)
Definition nearest_lane_of (info previous : TargetInfo) : option LaneInfo :=
  match target_parking_lane previous with
  | Some l =>
      if String.eqb (target_parking_spot_id previous)
                    (target_parking_spot_id info)
      then Some l
      else option_map fst
             (GetNearestLaneWithHeading vehicle_state_ 10
                (vehicle_heading vehicle_state_) (M_PI / 2))
  | None =>
      option_map fst
        (GetNearestLaneWithHeading vehicle_state_ 10
           (vehicle_heading vehicle_state_) (M_PI / 2))
  end.

(** What a call leaves behind: the flag, the frame, [*target_parking_spot]
    and [*nearby_path]. *)
Record found : Type := {
  found_ok : bool;
  found_frame : option TargetInfo;
  found_spot : option ParkingSpaceInfo;
  found_path : option MapPath
}.

(** [OpenSpaceRoiDecider::GetParkingSpotFromMap], on a frame pointer that
    may be null, the latest frame of the history, and the two pointers as
    the caller hands them in. *)
Definition GetParkingSpotFromMap (frame latest : option TargetInfo)
    (target_parking_spot : option ParkingSpaceInfo)
    (nearby_path : option MapPath) : outcome found :=
  match frame with
  | None =>
      Returns {| found_ok := false; found_frame := frame;
                 found_spot := target_parking_spot;
                 found_path := nearby_path |}
  | Some info =>
      match latest with
      | None =>
          Returns {| found_ok := false; found_frame := frame;
                     found_spot := target_parking_spot;
                     found_path := nearby_path |}
      | Some previous =>
          match nearest_lane_of info previous with
          | None =>
              Returns {| found_ok := false; found_frame := frame;
                         found_spot := target_parking_spot;
                         found_path := nearby_path |}
          | Some nearest_lane =>
              let frame :=
                Some {| target_parking_spot_id := target_parking_spot_id info;
                        target_parking_lane := Some nearest_lane |} in
              do nearest_lanesegment <- whole_lane nearest_lane;
              do r <-
                match successor_id nearest_lane with
                | [] =>
                    let nearby_path := new_Path [nearest_lanesegment] in
                    Returns (Some nearby_path,
                             SearchTargetParkingSpotOnPath nearby_path
                               target_parking_spot)
                | successors =>
                    successors_loop nearest_lanesegment successors []
                                    nearby_path target_parking_spot
                end;
              let '(nearby_path, target_parking_spot) := r in
              match target_parking_spot with
              | None =>
                  Returns {| found_ok := false; found_frame := frame;
                             found_spot := target_parking_spot;
                             found_path := nearby_path |}
              | Some spot =>
                  do path <-
                    match nearby_path with
                    | Some path => Returns path
                    | None => Undefined
                    end;
                  do near <- CheckDistanceToParkingSpot path spot;
                  Returns {| found_ok := near; found_frame := frame;
                             found_spot := target_parking_spot;
                             found_path := nearby_path |}
              end
          end
      end
  end.

End MapSearch.
End MapSearch.

(** * Vocabulary of the properties *)

(** ** Joints of the segment vector *)

Section FuserVocabulary.
Import Fuser.

(** The loop body leaves the joint alone and moves on. *)
Definition keeps (s t : segment) : bool :=
  match loop_body [] s t [] with
  | Continue c => match done c with [] => false | _ :: _ => true end
  | _ => false
  end.

(** The joint is one the loop body refuses: the end points coincide and
    one of the two segments has fewer than two points. *)
Definition malformed_joint (s t : segment) : Prop :=
  exists a b, back s = Some a /\ front t = Some b /\
    DistanceTo_gt a b kEpsilon = false /\
    (length s < 2 \/ length t < 2)%nat.

(** No joint of the list would be touched by the fuser. *)
Fixpoint settled (v : list segment) : Prop :=
  match v with
  | s :: (t :: _) as v' => keeps s t = true /\ settled v'
  | _ => True
  end.

(** The end points of the joint are farther apart than [kEpsilon]. *)
Definition apart (s t : segment) : Prop :=
  exists a b, back s = Some a /\ front t = Some b /\
    DistanceTo_gt a b kEpsilon = true.

(** Every joint of the vector is apart. *)
Fixpoint all_apart (v : list segment) : Prop :=
  match v with
  | s :: (t :: _) as v' => apart s t /\ all_apart v'
  | _ => True
  end.

(** The segment is not followed by a joint that coincides. *)
Definition last_or_apart (s : segment) (post : list segment) : Prop :=
  match post with
  | [] => True
  | t :: _ => apart s t
  end.

End FuserVocabulary.

(** ** Points and turns of the segment vector *)

Section FuserVocabularyMore.
Import Fuser.

(** [thinned l l']: [l'] is [l] with some points taken out, each of them
    within [kEpsilon] of the point just before it in [l], which stays; the
    point after a point taken out stays as well. *)
Inductive thinned : list Vec2d -> list Vec2d -> Prop :=
| thinned_nil : thinned [] []
| thinned_keep a l l' : thinned l l' -> thinned (a :: l) (a :: l')
| thinned_drop a b l l' :
    DistanceTo_gt a b kEpsilon = false -> thinned l l' ->
    thinned (a :: b :: l) (a :: l').

(** The polyline turns clockwise at every inner vertex: the cross product
    of three consecutive points is negative. *)
Definition clockwise_chain (s : segment) : Prop :=
  forall i p q r,
    nth_error s i = Some p -> nth_error s (S i) = Some q ->
    nth_error s (S (S i)) = Some r -> CrossProd p q r < 0.

(** What links the vector under the iterator to the vector the call
    started from: the points up to the last point of [cur] are a thinning
    that keeps that last point, the points behind are untouched. *)
Definition thinning_state (orig : list Vec2d) (c : cursor) : Prop :=
  exists l l' a,
    concat (done c) ++ cur c = l' ++ [a]
    /\ orig = (l ++ [a]) ++ concat (rest c)
    /\ thinned l l'.

(** The state of a walk over two-point segments. *)
Definition two_point_state (c : cursor) : Prop :=
  Forall (fun s => (2 <= length s)%nat) (done c)
  /\ (2 <= length (cur c))%nat
  /\ Forall (fun s => length s = 2%nat) (rest c).

(** The state of a walk over segments none of which is empty. *)
Definition nonempty_state (c : cursor) : Prop :=
  Forall (fun s => s <> []) (done c)
  /\ cur c <> []
  /\ Forall (fun s => s <> []) (rest c).

End FuserVocabularyMore.

(** ** Rows and edges *)

Section HyperPlaneVocabulary.
Import HyperPlanes.

(** The value [A_i . p] of a row at a point. *)
Definition row_value (r : row) (p : Vec2d) : Q :=
  fst (fst r) * x p + snd (fst r) * y p.

(** An edge taken by one of the two axis-aligned cases is axis-aligned
    exactly, not only within [kEpsilon]. *)
Definition axis_exact (v1 v2 : Vec2d) : Prop :=
  (Qabs (x v1 - x v2) < kEpsilon -> x v1 == x v2)
  /\ (~ Qabs (x v1 - x v2) < kEpsilon ->
      Qabs (y v1 - y v2) < kEpsilon -> y v1 == y v2).

End HyperPlaneVocabulary.

(** ** The passes of the sampling loop *)

Module Sampling.
Section Sampling.
Import Builder.
Context `{Math}.
Variable config : OpenSpaceRoiDeciderConfig.
Variable nearby_path : Path.
Variables start_s end_s : Q.

(** The value of [index] after [k] increments. *)
Definition index_at (k : nat) : Q := Nat.iter k (fun index => index + 1) 0.

(** The station of the [k]-th pass through the loop. *)
Definition station (k : nat) : Q :=
  match k with
  | O => start_s
  | S _ => next_station config end_s (index_at k)
  end.

Definition heading_at (s : Q) : Q := heading (GetSmoothPoint nearby_path s).

(** The [k]-th pass records its station: the test for [continue] is made
    against the heading of the station of the pass before, recorded or
    not (against the heading at [start_s] on the first pass). *)
Definition kept (k : nat) : bool :=
  negb (skips config start_s end_s (station k) (heading_at (station k))
              (heading_at (station (pred k)))).

Definition record_all (acc : samples) (stations : list Q) : samples :=
  fold_left (record nearby_path) stations acc.

(** The six arrays grow together. *)
Definition aligned (smp : samples) : Prop :=
  length (right_lane_boundary smp) = length (center_lane_s smp)
  /\ length (left_lane_boundary smp) = length (center_lane_s smp)
  /\ length (center_lane_boundary smp) = length (center_lane_s smp)
  /\ length (left_lane_road_width smp) = length (center_lane_s smp)
  /\ length (right_lane_road_width smp) = length (center_lane_s smp).

End Sampling.
End Sampling.

(** ** The rescaled edge *)

Module Rescaling.
Section Rescaling.
Import Stitcher.
Context `{Math}.
Variable origin_point : Vec2d.
Variable origin_heading : Q.

Local Abbreviation to_world := (to_world origin_point origin_heading).

(** What is asked of [cos] and [sin] at the origin heading. *)
Definition rotation_exact : Prop :=
  cos (- origin_heading) == cos origin_heading
  /\ sin (- origin_heading) == - sin origin_heading
  /\ cos origin_heading * cos origin_heading
     + sin origin_heading * sin origin_heading == 1.

(** The point the rescaling loop aims at, in the world frame: the offset
    from the centre line divided by the road width, times [factor]. *)
Definition rescaled_world (p_world center : Vec2d) (road_width factor : Q)
  : Vec2d :=
  vadd (vscale (vdiv (vsub p_world center) road_width) factor) center.

(** The outcome of the rescaling loop, entry by entry. *)
Definition rescaled_by (factor : Q) (boundary center_lane_boundary : list Vec2d)
    (road_width : list Q) (result : list Vec2d) : Prop :=
  length result = length boundary
  /\ forall i p c w,
       nth_error boundary i = Some p ->
       nth_error center_lane_boundary i = Some c ->
       nth_error road_width i = Some w ->
       exists p',
         nth_error result i = Some p'
         /\ veq (to_world p') (rescaled_world (to_world p) c w factor)
         /\ forall u,
              veq (to_world p) (vadd c (vscale u w)) ->
              x u * x u + y u * y u == 1 ->
              DistanceSquareTo (to_world p') c == factor * factor.

End Rescaling.
End Rescaling.

(** ** The brackets of the stitcher *)

Module Brackets.

(** The near bracket: one before the lower bound of the station, clamped
    at 0. *)
Definition near (center_lane_s : list Q) (value : Q) : nat :=
  let i := Stitcher.lower_bound center_lane_s value in
  if (i =? 0)%nat then i else (i - 1)%nat.

(** The stations the two brackets are searched for: the near bracket
    belongs to the left-top corner on the right branch and to the
    right-top corner on the left branch, the far bracket to the other
    corner. *)
Definition near_of (average_l left_top_s right_top_s : Q)
    (center_lane_s : list Q) : nat :=
  if Qltb average_l 0 then near center_lane_s left_top_s
  else near center_lane_s right_top_s.

Definition far_of (average_l left_top_s right_top_s : Q)
    (center_lane_s : list Q) : nat :=
  if Qltb average_l 0 then Stitcher.upper_bound center_lane_s right_top_s
  else Stitcher.upper_bound center_lane_s left_top_s.

End Brackets.

(** ** The segments of a searched path *)

Section MapSearchVocabulary.
Import MapSearch.

(** The vector of segments after some passes of the successor loop: the
    segment of the nearest lane in front of the segment of each
    successor tried so far. *)
Definition with_nearest (nearest_lanesegment : LaneSegment)
    (nexts : list LaneSegment) : list LaneSegment :=
  flat_map (fun next_lanesegment => [nearest_lanesegment; next_lanesegment])
           nexts.

End MapSearchVocabulary.

(** * Example data *)

(** Angles counted in quarter turns, exact at whole quarter turns: a half
    turn is [2], and [atan2] is given on the four axis directions. *)
Definition quarter_cos (a : Q) : Q :=
  match (Qfloor a mod 4)%Z with
  | 0%Z => 1
  | 2%Z => - (1)
  | _ => 0
  end.

Definition quarter_sin (a : Q) : Q :=
  match (Qfloor a mod 4)%Z with
  | 1%Z => 1
  | 3%Z => - (1)
  | _ => 0
  end.

Definition quarter_atan2 (b a : Q) : Q :=
  if Qeq_bool b 0 then (if Qltb a 0 then 2 else 0)
  else if Qltb 0 b then 1 else - (1).

Definition quarter_normalize (a : Q) : Q :=
  a - 4 * inject_Z (Qfloor ((a + 2) / 4)).

Definition QuarterTurns : Math :=
  {| cos := quarter_cos; sin := quarter_sin; atan2 := quarter_atan2;
     M_PI := 2; NormalizeAngle := quarter_normalize |}.

(** A box along the axes, by its centre and half sizes.  The distance to
    a point is exact when the point is level with the box. *)
Record AxisBox : Type := {
  box_center : Vec2d;
  half_length : Q;
  half_width : Q
}.

Definition axis_gap (d h : Q) : Q := Qmax (Qabs d - h) 0.

Definition AxisBoxOps : BoxOps AxisBox :=
  {| center := box_center;
     DistanceTo := fun b p =>
       axis_gap (x p - x (box_center b)) (half_length b)
       + axis_gap (y p - y (box_center b)) (half_width b);
     Shift := fun b v =>
       {| box_center := vadd (box_center b) v;
          half_length := half_length b; half_width := half_width b |};
     LongitudinalExtend := fun b e =>
       {| box_center := box_center b;
          half_length := half_length b + e / 2; half_width := half_width b |};
     LateralExtend := fun b e =>
       {| box_center := box_center b;
          half_length := half_length b; half_width := half_width b + e / 2 |};
     GetAllCorners := fun b =>
       let c := box_center b in
       [mkVec2d (x c + half_length b) (y c - half_width b);
        mkVec2d (x c + half_length b) (y c + half_width b);
        mkVec2d (x c - half_length b) (y c + half_width b);
        mkVec2d (x c - half_length b) (y c - half_width b)] |}.

Section Examples.
Local Abbreviation P := mkVec2d.

(** The square of side 2 walked clockwise (interior on the right of every
    edge) and counter-clockwise, first vertex repeated at the end. *)
Definition clockwise_square : list Vec2d :=
  [P 0 0; P 0 2; P 2 2; P 2 0; P 0 0].

Definition counterclockwise_square : list Vec2d :=
  [P 0 0; P 2 0; P 2 2; P 0 2; P 0 0].

(** A configuration: range of 10 on each side of the spot, stations one
    unit apart, a tenth of a quarter turn as the least turn recorded. *)
Definition example_config : OpenSpaceRoiDeciderConfig :=
  {| roi_longitudinal_range := 10;
     roi_linesegment_min_angle := 1 # 10;
     roi_linesegment_length := 1;
     parking_depth_buffer := 1 # 10;
     parking_inwards := false;
     parking_start_range := 7;
     enable_perception_obstacles := true;
     perception_obstacle_buffer := 1 # 2;
     perception_obstacle_filtering_distance := 10 |}.

(** A frame state for the vertex loading: the box of the region and an
    end pose are in place, no obstacle is stored yet. *)
Definition example_vehicle : VehicleState :=
  {| vehicle_x := 1; vehicle_y := 1; vehicle_heading := 0 |}.

Definition example_info : OpenSpaceInfo :=
  {| origin_heading := 0;
     origin_point := P 0 0;
     ROI_xy_boundary := [- (10); 10; - (10); 10];
     open_space_end_pose := [1; - (2); 1; 0];
     obstacles_vertices_vec := [];
     obstacles_edges_num := [];
     obstacles_num := 0;
     obstacles_A := [];
     obstacles_b := [] |}.

(** Two boundary pieces, of three and of two vertices. *)
Definition example_roi : list (list Vec2d) :=
  [[P 0 0; P 1 0; P 1 (- (1))]; [P 1 (- (1)); P 2 (- (1))]].

(** A real obstacle next to the vehicle and a virtual one. *)
Definition example_items : list (Obstacle AxisBox) :=
  [{| IsVirtual := false;
      PerceptionBoundingBox :=
        {| box_center := P 3 3; half_length := 1; half_width := 1 # 2 |} |};
   {| IsVirtual := true;
      PerceptionBoundingBox :=
        {| box_center := P 5 5; half_length := 1; half_width := 1 |} |}].

(** A lane that bends by 6 hundredths of a quarter turn per unit of arc
    length, with a 2 wide road on each side. *)
Definition gentle_curve : Path :=
  {| GetSmoothPoint := fun s => {| point := P s 0; heading := (6 # 100) * s |};
     GetRoadLeftWidth := fun _ => 2;
     GetRoadRightWidth := fun _ => 2;
     GetProjection := fun p => Some (x p, y p) |}.

(** ** A straight lane with a parking spot on its right *)

(** The lane runs along the x axis; a point projects to its abscissa and
    its ordinate. *)
Definition straight_lane : Path :=
  {| GetSmoothPoint := fun s => {| point := P s 0; heading := 0 |};
     GetRoadLeftWidth := fun _ => 2;
     GetRoadRightWidth := fun _ => 2;
     GetProjection := fun p => Some (x p, y p) |}.

(** A spot 5 deep and 5/2 wide below the lane, opening towards it:
    left-down, right-down, right-top, left-top. *)
Definition right_spot : list Vec2d :=
  [P 14 (- (7)); P (33 # 2) (- (7)); P (33 # 2) (- (2)); P 14 (- (2))].

Definition straight_lane_map (_ : Frame AxisBox) : option (list Vec2d * Path) :=
  Some (right_spot, straight_lane).

Definition example_vehicle_params : VehicleParam :=
  {| front_edge_to_center := 4; back_edge_to_center := 1 |}.

Definition frame_with_vehicle (vx vy : Q) : Frame AxisBox :=
  {| vehicle_state := {| vehicle_x := vx; vehicle_y := vy; vehicle_heading := 0 |};
     obstacles_by_frame := [];
     routing_parking_space_id := Some "spot"%string;
     open_space_info :=
       {| origin_heading := 0; origin_point := P 0 0; ROI_xy_boundary := [];
          open_space_end_pose := []; obstacles_vertices_vec := [];
          obstacles_edges_num := []; obstacles_num := 0;
          obstacles_A := []; obstacles_b := [] |} |}.

(** The same configuration with a longitudinal range of 1, less than half
    the width of the spot. *)
Definition short_range_config : OpenSpaceRoiDeciderConfig :=
  {| roi_longitudinal_range := 1;
     roi_linesegment_min_angle := roi_linesegment_min_angle example_config;
     roi_linesegment_length := roi_linesegment_length example_config;
     parking_depth_buffer := parking_depth_buffer example_config;
     parking_inwards := parking_inwards example_config;
     parking_start_range := parking_start_range example_config;
     enable_perception_obstacles := enable_perception_obstacles example_config;
     perception_obstacle_buffer := perception_obstacle_buffer example_config;
     perception_obstacle_filtering_distance :=
       perception_obstacle_filtering_distance example_config |}.

(** The spot in the parking frame: the origin is its left-top corner. *)
Definition right_spot_local : Stitcher.corners :=
  {| Stitcher.left_top := P 0 0; Stitcher.left_down := P 0 (- (5));
     Stitcher.right_down := P (5 # 2) (- (5));
     Stitcher.right_top := P (5 # 2) 0 |}.

(** What the builder records on the straight lane for a range of 10
    around the spot: the stations [21/4] and [101/4] only, the lane being
    straight; the two edges are given in the parking frame. *)
Definition straight_lane_samples : Builder.samples :=
  {| Builder.right_lane_boundary := [P (- (35 # 4)) 0; P (45 # 4) 0];
     Builder.left_lane_boundary := [P (- (35 # 4)) 4; P (45 # 4) 4];
     Builder.center_lane_boundary := [P (21 # 4) 0; P (101 # 4) 0];
     Builder.center_lane_s := [21 # 4; 101 # 4];
     Builder.left_lane_road_width := [2; 2];
     Builder.right_lane_road_width := [2; 2] |}.

(** The same configuration with a segment length of zero. *)
Definition zero_length_config : OpenSpaceRoiDeciderConfig :=
  {| roi_longitudinal_range := roi_longitudinal_range example_config;
     roi_linesegment_min_angle := roi_linesegment_min_angle example_config;
     roi_linesegment_length := 0;
     parking_depth_buffer := parking_depth_buffer example_config;
     parking_inwards := parking_inwards example_config;
     parking_start_range := parking_start_range example_config;
     enable_perception_obstacles := enable_perception_obstacles example_config;
     perception_obstacle_buffer := perception_obstacle_buffer example_config;
     perception_obstacle_filtering_distance :=
       perception_obstacle_filtering_distance example_config |}.

(** ** A map with one lane, one successor and one parking space *)

Definition example_lane : MapSearch.LaneInfo :=
  {| MapSearch.lane_id := "lane"%string;
     MapSearch.successor_id := ["next"%string];
     MapSearch.accumulate_s := [0; 10; 20] |}.

Definition example_next_lane : MapSearch.LaneInfo :=
  {| MapSearch.lane_id := "next"%string;
     MapSearch.successor_id := [];
     MapSearch.accumulate_s := [0; 15] |}.

(** A path is its list of segments; the parking space overlaps every
    path that holds the successor lane; a point is as far along a path
    as its abscissa. *)
Definition example_map : MapSearch.MapService (list MapSearch.LaneSegment) :=
  {| MapSearch.GetNearestLaneWithHeading :=
       fun _ _ _ _ => Some (example_lane, (1, 0));
     MapSearch.GetLaneById :=
       fun id => if String.eqb id "next" then Some example_next_lane else None;
     MapSearch.GetParkingSpaceById :=
       fun id =>
         if String.eqb id "spot"
         then Some {| MapSearch.polygon_points := right_spot |}
         else None;
     MapSearch.new_Path := fun segments => segments;
     MapSearch.parking_space_overlaps :=
       fun path =>
         if existsb (fun s => String.eqb (MapSearch.lane_id (MapSearch.lane s))
                                         "next") path
         then ["other"%string; "spot"%string] else [];
     MapSearch.GetNearestPoint := fun _ p => (x p, y p) |}.

Definition example_target : MapSearch.TargetInfo :=
  {| MapSearch.target_parking_spot_id := "spot"%string;
     MapSearch.target_parking_lane := None |}.

End Examples.

(** * Properties *)

(** ** Comparisons and vector accessors *)

Lemma Qltb_lt a b : Qltb a b = true <-> a < b.
Proof.
  unfold Qltb. rewrite negb_true_iff, <- not_true_iff_false, Qle_bool_iff.
  split; [apply Qnot_le_lt | apply Qlt_not_le].
Qed.

Lemma Qltb_ge a b : Qltb a b = false <-> b <= a.
Proof.
  unfold Qltb. rewrite negb_false_iff. apply Qle_bool_iff.
Qed.

Lemma back_app_one {A : Type} (v : list A) (a : A) : back (v ++ [a]) = Some a.
Proof.
  induction v as [|b v IH]; [reflexivity|].
  simpl. destruct (v ++ [a]) eqn:E; [destruct v; discriminate | exact IH].
Qed.

Lemma front_grow {A : Type} (v : list A) (a b : A) :
  front v = Some a -> front (v ++ [b]) = Some a.
Proof. destruct v; [discriminate | trivial]. Qed.

Lemma app_one_neq {A : Type} (v : list A) (a : A) : v ++ [a] <> v.
Proof.
  intros E. apply (f_equal (@length A)) in E.
  rewrite length_app in E. simpl in E. lia.
Qed.

(** ** The segment fuser *)

Section FuserFacts.
Import Fuser.

(** The ways out of one pass through the loop body. *)
Lemma loop_body_inv dn s t rs :
  match loop_body dn s t rs with
  | Continue c =>
      (c = mkCursor (dn ++ [s]) t rs /\ keeps s t = true)
      \/ (exists q, nth_error t 1 = Some q /\ (2 <= length t)%nat /\
            keeps s t = false /\
            (c = mkCursor dn (s ++ [q]) rs
             \/ (skipn 2 t <> [] /\
                 c = mkCursor dn (s ++ [q]) (skipn 2 t :: rs))))
  | Exit ok v => ok = false /\ v = dn ++ s :: t :: rs /\ malformed_joint s t
  | Fault => True
  end.
Proof.
  unfold keeps, loop_body.
  destruct (back s) as [a|] eqn:Ha; [|exact I].
  destruct (front t) as [b|] eqn:Hb; [|exact I].
  destruct (DistanceTo_gt a b kEpsilon) eqn:Hfar.
  - left. split; reflexivity.
  - destruct ((length s <? 2)%nat || (length t <? 2)%nat) eqn:Hshort.
    + split; [reflexivity|]. split; [reflexivity|].
      exists a, b. repeat split; trivial.
      apply orb_true_iff in Hshort.
      destruct Hshort as [Hs|Ht]; [left|right]; now apply Nat.ltb_lt.
    + apply orb_false_iff in Hshort. destruct Hshort as [_ Ht].
      apply Nat.ltb_ge in Ht.
      destruct (nth_error s (length s - 2)) as [p|]; [|exact I].
      destruct (nth_error t 1) as [q|]; [|exact I].
      destruct (Qltb (CrossProd p a q) 0).
      * destruct (skipn 2 t) eqn:Hskip.
        -- right. exists q. repeat split; trivial. now left.
        -- right. exists q. repeat split; trivial. right.
           split; [discriminate | reflexivity].
      * left. split; reflexivity.
Qed.

Lemma keeps_spec s t :
  keeps s t = true ->
  forall dn rs, loop_body dn s t rs = Continue (mkCursor (dn ++ [s]) t rs).
Proof.
  unfold keeps, loop_body. intros K dn rs.
  destruct (back s) as [a|]; [|discriminate].
  destruct (front t) as [b|]; [|discriminate].
  destruct (DistanceTo_gt a b kEpsilon); [reflexivity|].
  destruct ((length s <? 2)%nat || (length t <? 2)%nat); [discriminate|].
  destruct (nth_error s (length s - 2)) as [p|]; [|discriminate].
  destruct (nth_error t 1) as [q|]; [|discriminate].
  destruct (Qltb (CrossProd p a q) 0); [|reflexivity].
  destruct (skipn 2 t); discriminate.
Qed.

(** Pushing a point behind the right segment of a kept joint keeps it. *)
Lemma keeps_grow s t q : keeps s t = true -> keeps s (t ++ [q]) = true.
Proof.
  unfold keeps, loop_body.
  destruct (back s) as [a|]; [|discriminate].
  destruct (front t) as [b|] eqn:Hb; [|discriminate].
  rewrite (front_grow _ _ q Hb).
  destruct (DistanceTo_gt a b kEpsilon); [trivial|].
  destruct (length s <? 2)%nat eqn:Hs; [discriminate|].
  destruct (length t <? 2)%nat eqn:Ht; [discriminate|]. simpl orb.
  apply Nat.ltb_ge in Ht.
  assert ((length (t ++ [q]) <? 2)%nat = false) as ->
    by (apply Nat.ltb_ge; rewrite length_app; lia).
  rewrite (nth_error_app1 t [q]) by lia.
  destruct (nth_error s (length s - 2)) as [p|]; [|discriminate].
  destruct (nth_error t 1) as [q1|]; [|discriminate].
  destruct (Qltb (CrossProd p a q1) 0); [|trivial].
  destruct (skipn 2 t); discriminate.
Qed.

Lemma settled_snoc dn s t :
  settled (dn ++ [s]) -> keeps s t = true -> settled ((dn ++ [s]) ++ [t]).
Proof.
  induction dn as [|d dn IH]; simpl; intros S K; [tauto|].
  destruct (dn ++ [s]) as [|e l] eqn:E; [destruct dn; discriminate|].
  simpl. split; [tauto|]. apply IH; tauto.
Qed.

Lemma settled_grow dn s q :
  settled (dn ++ [s]) -> settled (dn ++ [s ++ [q]]).
Proof.
  induction dn as [|d dn IH]; simpl; intros S; [trivial|].
  destruct dn as [|e dn]; simpl in *.
  - split; [|trivial]. apply keeps_grow; tauto.
  - split; [tauto|]. apply IH; tauto.
Qed.

(** Each pass reduces the work left behind the iterator. *)
Lemma step_work c c' :
  fuse_step c = Continue c' -> (work (rest c') < work (rest c))%nat.
Proof.
  unfold fuse_step. destruct c as [dn s [|t rs]]; simpl; [discriminate|].
  intros E. pose proof (loop_body_inv dn s t rs) as I. rewrite E in I.
  unfold work in *.
  destruct I as [[-> _]|(q & _ & Ht & _ & [->|[_ ->]])];
    cbn [rest map list_sum fold_right]; try lia.
  rewrite length_skipn. lia.
Qed.

Lemma fuse_loop_fuel fuel : forall c,
  (work (rest c) <= fuel)%nat -> fuse_loop fuel c <> OutOfFuel.
Proof.
  induction fuel as [|fuel IH]; intros c Hw; simpl;
    destruct (fuse_step c) as [c'| |] eqn:E; try discriminate.
  - apply step_work in E. lia.
  - apply IH. apply step_work in E. lia.
Qed.

(** The fuser always comes to an end. *)
Lemma FuseLineSegments_terminates v : FuseLineSegments v <> OutOfFuel.
Proof.
  destruct v as [|s v]; [discriminate|].
  apply fuse_loop_fuel. simpl. lia.
Qed.

(** A successful run ends in a settled vector. *)
Lemma fuse_loop_settled fuel : forall c out,
  settled (done c ++ [cur c]) ->
  fuse_loop fuel c = Returns (true, out) ->
  out <> [] /\ settled out.
Proof.
  induction fuel as [|fuel IH]; intros [dn s rs] out S; simpl;
    unfold fuse_step; simpl; (destruct rs as [|t rs];
      [intros [= <-]; split; [now destruct dn | exact S]|]);
    pose proof (loop_body_inv dn s t rs) as I;
    destruct (loop_body dn s t rs) as [c'| |]; try discriminate;
    try (destruct I as [-> _]; discriminate).
  intros R. apply (IH c'); [|exact R].
  destruct I as [[-> K]|(q & _ & _ & _ & [->|[_ ->]])]; simpl in *.
  - now apply settled_snoc.
  - now apply settled_grow.
  - now apply settled_grow.
Qed.

(** On a settled vector the loop only walks to the end. *)
Lemma fuse_loop_walk rs : forall fuel dn s,
  settled (s :: rs) -> (length rs <= fuel)%nat ->
  fuse_loop fuel (mkCursor dn s rs) = Returns (true, dn ++ s :: rs).
Proof.
  induction rs as [|t rs IH]; intros fuel dn s S Hf.
  - destruct fuel; reflexivity.
  - destruct S as [K S]. simpl in Hf.
    destruct fuel as [|fuel]; [lia|].
    simpl. unfold fuse_step. simpl. rewrite (keeps_spec _ _ K).
    rewrite IH; [|exact S|lia]. now rewrite <- app_assoc.
Qed.

Lemma work_length rs : (length rs <= work rs)%nat.
Proof. unfold work. induction rs; simpl; lia. Qed.

(** A failed run leaves a malformed joint in the vector. *)
Lemma fuse_loop_failure fuel : forall c out,
  fuse_loop fuel c = Returns (false, out) ->
  exists pre s t post, out = pre ++ s :: t :: post /\ malformed_joint s t.
Proof.
  induction fuel as [|fuel IH]; intros [dn s rs] out; simpl;
    unfold fuse_step; simpl; (destruct rs as [|t rs]; [discriminate|]);
    pose proof (loop_body_inv dn s t rs) as I;
    destruct (loop_body dn s t rs) as [c'|ok v|]; try discriminate;
    try (intros [= -> <-]; destruct I as (_ & -> & M);
         now exists dn, s, t, rs).
  apply IH.
Qed.

(** Segments behind the iterator are never touched again. *)
Lemma fuse_loop_prefix fuel : forall c ok out,
  fuse_loop fuel c = Returns (ok, out) -> exists tail, out = done c ++ tail.
Proof.
  induction fuel as [|fuel IH]; intros [dn s rs] ok out; simpl;
    unfold fuse_step; simpl;
    (destruct rs as [|t rs]; [intros [= _ <-]; now exists [s]|]);
    pose proof (loop_body_inv dn s t rs) as I;
    destruct (loop_body dn s t rs) as [c'|ok' v|]; try discriminate;
    try (intros [= _ <-]; destruct I as (_ & -> & _);
         now exists (s :: t :: rs)).
  intros R. destruct (IH _ _ _ R) as [tail ->].
  destruct I as [[-> _]|(q & _ & _ & _ & [->|[_ ->]])]; simpl.
  - exists ([s] ++ tail). now rewrite <- app_assoc.
  - now exists tail.
  - now exists tail.
Qed.

Lemma apart_keeps s t : apart s t -> keeps s t = true.
Proof.
  intros (a & b & Ha & Hb & F). unfold keeps, loop_body.
  now rewrite Ha, Hb, F.
Qed.

Lemma all_apart_settled v : all_apart v -> settled v.
Proof.
  induction v as [|s [|t v] IH]; simpl; trivial.
  intros [A B]. split; [now apply apart_keeps | now apply IH].
Qed.

(** A single-point segment that is last, or apart from its successor,
    comes out of a successful run as it went in. *)
Lemma fuse_loop_single fuel : forall c out p post,
  fuse_loop fuel c = Returns (true, out) ->
  last_or_apart [p] post ->
  (cur c = [p] /\ rest c = post)
  \/ (exists r1, rest c = r1 ++ [p] :: post) ->
  exists pre' post', out = pre' ++ [p] :: post'.
Proof.
  induction fuel as [|fuel IH]; intros [dn s rs] out p post; simpl;
    unfold fuse_step; simpl; intros R L [[-> ->]|[r1 ->]].
  - destruct post as [|t rs]; [injection R as <-; now exists dn, []|].
    rewrite (keeps_spec _ _ (apart_keeps _ _ L)) in R. discriminate.
  - destruct r1 as [|t r1]; simpl in R.
    + pose proof (loop_body_inv dn s [p] post) as I.
      destruct (loop_body dn s [p] post); try discriminate.
      destruct I as (-> & _). discriminate.
    + pose proof (loop_body_inv dn s t (r1 ++ [p] :: post)) as I.
      destruct (loop_body dn s t (r1 ++ [p] :: post)); try discriminate.
      destruct I as (-> & _). discriminate.
  - destruct post as [|t rs]; [injection R as <-; now exists dn, []|].
    rewrite (keeps_spec _ _ (apart_keeps _ _ L)) in R.
    destruct (fuse_loop_prefix _ _ _ _ R) as [tail ->]. simpl.
    exists dn, tail. now rewrite <- app_assoc.
  - destruct r1 as [|t r1]; simpl in R.
    + pose proof (loop_body_inv dn s [p] post) as I.
      destruct (loop_body dn s [p] post) as [c'|ok v|]; try discriminate.
      * destruct I as [[-> _]|(q & _ & Hl & _)]; [|simpl in Hl; lia].
        apply (IH _ _ _ _ R L). now left.
      * destruct I as (-> & _). discriminate.
    + pose proof (loop_body_inv dn s t (r1 ++ [p] :: post)) as I.
      destruct (loop_body dn s t (r1 ++ [p] :: post)) as [c'|ok v|];
        try discriminate.
      * apply (IH _ _ _ _ R L). right.
        destruct I as [[-> _]|(q & _ & _ & _ & [->|[_ ->]])]; simpl.
        -- now exists r1.
        -- now exists r1.
        -- now exists (skipn 2 t :: r1).
      * destruct I as (-> & _). discriminate.
Qed.

(** A single-point segment that is last, or apart from its successor,
    is in the vector a run leaves, whatever the flag. *)
Lemma fuse_loop_single_any fuel : forall c ok out p post,
  fuse_loop fuel c = Returns (ok, out) ->
  last_or_apart [p] post ->
  (cur c = [p] /\ rest c = post)
  \/ (exists r1, rest c = r1 ++ [p] :: post) ->
  exists pre' post', out = pre' ++ [p] :: post'.
Proof.
  assert (forall dn s (r1 : list segment) p post,
            dn ++ s :: r1 ++ [p] :: post = (dn ++ s :: r1) ++ [p] :: post)
    as Shift by (intros; now rewrite <- app_assoc).
  induction fuel as [|fuel IH]; intros [dn s rs] ok out p post; simpl;
    unfold fuse_step; simpl; intros R L [[-> ->]|[r1 ->]].
  - destruct post as [|t rs]; [injection R as _ <-; now exists dn, []|].
    rewrite (keeps_spec _ _ (apart_keeps _ _ L)) in R. discriminate.
  - destruct r1 as [|t r1]; simpl in R.
    + pose proof (loop_body_inv dn s [p] post) as I.
      destruct (loop_body dn s [p] post); try discriminate.
      destruct I as (_ & -> & _). injection R as _ <-.
      now exists (dn ++ [s]), post; rewrite <- app_assoc.
    + pose proof (loop_body_inv dn s t (r1 ++ [p] :: post)) as I.
      destruct (loop_body dn s t (r1 ++ [p] :: post)); try discriminate.
      destruct I as (_ & -> & _). injection R as _ <-.
      exists (dn ++ s :: t :: r1), post.
      now rewrite <- app_assoc.
  - destruct post as [|t rs]; [injection R as _ <-; now exists dn, []|].
    rewrite (keeps_spec _ _ (apart_keeps _ _ L)) in R.
    destruct (fuse_loop_prefix _ _ _ _ R) as [tail ->]. simpl.
    exists dn, tail. now rewrite <- app_assoc.
  - destruct r1 as [|t r1]; simpl in R.
    + pose proof (loop_body_inv dn s [p] post) as I.
      destruct (loop_body dn s [p] post) as [c'|ok' v|]; try discriminate.
      * destruct I as [[-> _]|(q & _ & Hl & _)]; [|simpl in Hl; lia].
        apply (IH _ _ _ _ _ R L). now left.
      * destruct I as (_ & -> & _). injection R as _ <-.
        now exists (dn ++ [s]), post; rewrite <- app_assoc.
    + pose proof (loop_body_inv dn s t (r1 ++ [p] :: post)) as I.
      destruct (loop_body dn s t (r1 ++ [p] :: post)) as [c'|ok' v|];
        try discriminate.
      * apply (IH _ _ _ _ _ R L). right.
        destruct I as [[-> _]|(q & _ & _ & _ & [->|[_ ->]])]; simpl.
        -- now exists r1.
        -- now exists r1.
        -- now exists (skipn 2 t :: r1).
      * destruct I as (_ & -> & _). injection R as _ <-.
        exists (dn ++ s :: t :: r1), post.
        now rewrite <- app_assoc.
Qed.

(** The loop body does not move on at a malformed joint. *)
Lemma malformed_not_kept s t : malformed_joint s t -> keeps s t = false.
Proof.
  intros (a & b & Ha & Hb & F & Short). unfold keeps, loop_body.
  rewrite Ha, Hb, F.
  assert ((length s <? 2)%nat || (length t <? 2)%nat = true) as ->;
    [|reflexivity].
  apply orb_true_iff. rewrite !Nat.ltb_lt. exact Short.
Qed.

(** Every joint of a settled vector is one the loop body moves on at. *)
Lemma settled_joint : forall pre v s t post,
  settled v -> v = pre ++ s :: t :: post -> keeps s t = true.
Proof.
  induction pre as [|a pre IH]; intros v s t post S ->; simpl in S.
  - apply S.
  - apply (IH (pre ++ s :: t :: post) s t post); [|reflexivity].
    destruct (pre ++ s :: t :: post) eqn:E;
      [destruct pre; discriminate | apply S].
Qed.

End FuserFacts.

Section FuserClaims.
Import Fuser.

Local Abbreviation P := mkVec2d.

(** C5, as amended.  At a joint whose end points [a] (last of the left
    segment) and [b] (first of the right segment) exist, the loop body
    does exactly one of three things.  If the points are farther apart
    than [kEpsilon] it moves on and both segments stay as they are.  If
    they coincide and one segment has fewer than two points, the fuser
    returns false.  If they coincide and both segments have two points
    or more, it merges exactly when the cross product of (second-to-last
    of the left, joint, second of the right) is negative: the second
    point of the right segment is pushed behind the left one, the first
    two points of the right segment are erased, and the right segment is
    erased from the vector when nothing is left of it; otherwise it moves
    on and both segments stay as they are. *)
Theorem fuse_joint_rule (dn : list segment) (s t : segment)
    (rs : list segment) (a b : Vec2d) :
  back s = Some a -> front t = Some b ->
  (DistanceTo_gt a b kEpsilon = true ->
     loop_body dn s t rs = Continue (mkCursor (dn ++ [s]) t rs))
  /\ (DistanceTo_gt a b kEpsilon = false ->
      (length s < 2 \/ length t < 2)%nat ->
      loop_body dn s t rs = Exit false (dn ++ s :: t :: rs))
  /\ (DistanceTo_gt a b kEpsilon = false ->
      forall p q, (2 <= length s)%nat ->
        nth_error s (length s - 2) = Some p -> nth_error t 1 = Some q ->
        let merged :=
          mkCursor dn (s ++ [q])
                   (match skipn 2 t with [] => rs | t' => t' :: rs end) in
        (CrossProd p a q < 0 -> loop_body dn s t rs = Continue merged)
        /\ (~ CrossProd p a q < 0 ->
            loop_body dn s t rs = Continue (mkCursor (dn ++ [s]) t rs))
        /\ (loop_body dn s t rs = Continue merged <-> CrossProd p a q < 0)).
Proof.
  intros Ha Hb. unfold loop_body. rewrite Ha, Hb.
  split; [intros ->; reflexivity|].
  split.
  - intros -> Hshort.
    assert ((length s <? 2)%nat || (length t <? 2)%nat = true) as ->; trivial.
    apply orb_true_iff. destruct Hshort; [left|right]; now apply Nat.ltb_lt.
  - intros -> p q Hs Hp Hq.
    assert (2 <= length t)%nat as Ht
      by (apply (proj1 (nth_error_Some t 1)); rewrite Hq; discriminate).
    assert ((length s <? 2)%nat || (length t <? 2)%nat = false) as ->
      by (apply orb_false_iff; split; apply Nat.ltb_ge; lia).
    rewrite Hp, Hq.
    destruct (Qltb (CrossProd p a q) 0) eqn:C.
    + apply Qltb_lt in C.
      destruct (skipn 2 t); repeat split; trivial; intros N; now destruct N.
    + apply Qltb_ge in C. repeat split; trivial.
      * intros L. exfalso. apply (Qlt_not_le _ _ L C).
      * intros [= E _]. exfalso. apply (app_one_neq _ _ E).
      * intros L. exfalso. apply (Qlt_not_le _ _ L C).
Qed.

(** The joint of [(0,0) (1,0)] and [(1,0) (1,-1)] turns clockwise and is
    merged into one three-point segment. *)
Lemma fuse_joint_rule_witness :
  back [P 0 0; P 1 0] = Some (P 1 0)
  /\ front [P 1 0; P 1 (-1)] = Some (P 1 0)
  /\ loop_body [] [P 0 0; P 1 0] [P 1 0; P 1 (-1)] []
     = Continue (mkCursor [] [P 0 0; P 1 0; P 1 (-1)] []).
Proof.
  split; [reflexivity|]. split; [reflexivity|].
  destruct (fuse_joint_rule [] [P 0 0; P 1 0] [P 1 0; P 1 (-1)] []
              (P 1 0) (P 1 0) eq_refl eq_refl) as (_ & _ & W).
  destruct (W eq_refl (P 0 0) (P 1 (-1)) (le_n 2) eq_refl eq_refl)
    as (M & _).
  apply M. reflexivity.
Defined.

(** C5 as stated fails: the vector below holds a single-point segment,
    the walk passes over it, and the fuser returns true. *)
Lemma fuse_single_point_not_refused :
  In [P 0 0] [[P 0 0]; [P 5 5; P 6 6]]
  /\ FuseLineSegments [[P 0 0]; [P 5 5; P 6 6]]
     = Returns (true, [[P 0 0]; [P 5 5; P 6 6]]).
Proof. split; [now left | reflexivity]. Qed.

(** C9.  When [FuseLineSegments] has returned true on a vector, running
    it on the vector it left returns true again, merges nothing (no
    joint of the vector would be touched) and leaves the same vector. *)
Theorem fuse_idempotent (v v' : list segment) :
  FuseLineSegments v = Returns (true, v') ->
  FuseLineSegments v' = Returns (true, v') /\ settled v'.
Proof.
  destruct v as [|s rs]; [discriminate|]. unfold FuseLineSegments at 1.
  intros R. apply fuse_loop_settled in R; [|exact I].
  destruct R as [Hne S]. split; [|exact S].
  destruct v' as [|s' rs']; [congruence|].
  apply (fuse_loop_walk rs' (work rs') [] s' S (work_length rs')).
Qed.

Lemma fuse_idempotent_witness :
  FuseLineSegments [[P 0 0; P 1 0]; [P 1 0; P 1 (-1)]; [P 1 (-1); P 2 (-1)]]
  = Returns (true, [[P 0 0; P 1 0; P 1 (-1)]; [P 1 (-1); P 2 (-1)]])
  /\ FuseLineSegments [[P 0 0; P 1 0; P 1 (-1)]; [P 1 (-1); P 2 (-1)]]
     = Returns (true, [[P 0 0; P 1 0; P 1 (-1)]; [P 1 (-1); P 2 (-1)]]).
Proof.
  split; [reflexivity|].
  apply (fuse_idempotent
           [[P 0 0; P 1 0]; [P 1 0; P 1 (-1)]; [P 1 (-1); P 2 (-1)]]).
  reflexivity.
Defined.

(** C10, as amended.  When [FuseLineSegments] returns, the flag is false
    exactly when the vector it leaves holds a joint whose end points
    coincide within [kEpsilon] and one of whose two segments has fewer
    than two points.  A single-point segment is passed over when it is
    the last one or when its point is farther than [kEpsilon] from the
    first point of its successor: the loop body moves on without
    touching it, and it is in the vector the call leaves, whatever the
    flag.  It is refused all the same when its point coincides with the
    last point of the segment before it: the loop body then returns
    false, also when it is the last segment or apart from its successor.
    The call returns true with the vector unchanged when all joints are
    apart, single-point segments included. *)
Theorem fuse_failure_rule (v out : list segment) (ok : bool) :
  (FuseLineSegments v = Returns (ok, out) ->
   (ok = false <->
    exists pre s t post, out = pre ++ s :: t :: post /\ malformed_joint s t))
  /\ (forall dn p, fuse_step (mkCursor dn [p] []) = Exit true (dn ++ [[p]]))
  /\ (forall dn p t rs, apart [p] t ->
        fuse_step (mkCursor dn [p] (t :: rs))
        = Continue (mkCursor (dn ++ [[p]]) t rs))
  /\ (forall dn s a p rs,
        back s = Some a -> DistanceTo_gt a p kEpsilon = false ->
        fuse_step (mkCursor dn s ([p] :: rs))
        = Exit false (dn ++ s :: [p] :: rs))
  /\ (forall pre p post,
        v = pre ++ [p] :: post -> last_or_apart [p] post ->
        FuseLineSegments v = Returns (ok, out) ->
        exists pre' post', out = pre' ++ [p] :: post')
  /\ (v <> [] -> all_apart v -> FuseLineSegments v = Returns (true, v)).
Proof.
  split; [|split; [|split; [|split; [|split]]]].
  - destruct v as [|s rs]; [discriminate|]. unfold FuseLineSegments.
    intros R. split.
    + intros ->. apply (fuse_loop_failure _ _ _ R).
    + intros (pre & s' & t & post & E & M).
      destruct ok; [|reflexivity]. exfalso.
      apply fuse_loop_settled in R as [_ S]; [|constructor].
      pose proof (settled_joint _ _ _ _ _ S E) as K.
      rewrite (malformed_not_kept _ _ M) in K. discriminate.
  - reflexivity.
  - intros dn p t rs A. unfold fuse_step. simpl.
    apply keeps_spec, apart_keeps, A.
  - intros dn s a p rs Ha F. unfold fuse_step, loop_body.
    cbn [rest done cur front hd_error]. rewrite Ha, F.
    cbn [length Nat.ltb Nat.leb]. now rewrite orb_true_r.
  - intros pre p post -> L. destruct pre as [|s pre]; simpl; intros R.
    + apply (fuse_loop_single_any _ _ _ _ _ _ R L). now left.
    + apply (fuse_loop_single_any _ _ _ _ _ _ R L). right. now exists pre.
  - intros Ne A. destruct v as [|s rs]; [congruence|].
    apply (fuse_loop_walk rs (work rs) [] s); [|apply work_length].
    now apply all_apart_settled.
Qed.

(** Between two points that are apart, the single point [(5,5)] is
    passed over and is in the vector that comes back with the flag
    true, which holds no malformed joint. *)
Lemma fuse_failure_rule_witness :
  FuseLineSegments [[P 0 0; P 1 0]; [P 5 5]; [P 7 7; P 8 8]]
  = Returns (true, [[P 0 0; P 1 0]; [P 5 5]; [P 7 7; P 8 8]])
  /\ last_or_apart [P 5 5] [[P 7 7; P 8 8]]
  /\ (exists pre' post',
        [[P 0 0; P 1 0]; [P 5 5]; [P 7 7; P 8 8]] = pre' ++ [P 5 5] :: post')
  /\ ~ exists pre s t post,
         [[P 0 0; P 1 0]; [P 5 5]; [P 7 7; P 8 8]] = pre ++ s :: t :: post
         /\ malformed_joint s t.
Proof.
  assert (FuseLineSegments [[P 0 0; P 1 0]; [P 5 5]; [P 7 7; P 8 8]]
          = Returns (true, [[P 0 0; P 1 0]; [P 5 5]; [P 7 7; P 8 8]])) as R
    by reflexivity.
  assert (last_or_apart [P 5 5] [[P 7 7; P 8 8]]) as L
    by (exists (P 5 5), (P 7 7); repeat split).
  destruct (fuse_failure_rule [[P 0 0; P 1 0]; [P 5 5]; [P 7 7; P 8 8]]
              [[P 0 0; P 1 0]; [P 5 5]; [P 7 7; P 8 8]] true)
    as (Flag & _ & _ & _ & Stays & _).
  split; [exact R|]. split; [exact L|]. split.
  - apply (Stays [[P 0 0; P 1 0]] (P 5 5) [[P 7 7; P 8 8]] eq_refl L R).
  - intros M. apply (proj2 (Flag R)) in M. discriminate M.
Defined.

(** C10 as stated fails.  A single-point segment that is the last one,
    or apart from its successor, does not make the call return true: in
    both vectors the point [(1,0)] of the single-point segment coincides
    with the last point of the segment before it, and the call returns
    false. *)
Lemma fuse_last_single_point_refused :
  FuseLineSegments [[P 0 0; P 1 0]; [P 1 0]]
  = Returns (false, [[P 0 0; P 1 0]; [P 1 0]])
  /\ last_or_apart [P 1 0] []
  /\ FuseLineSegments [[P 0 0; P 1 0]; [P 1 0]; [P 5 5; P 6 6]]
     = Returns (false, [[P 0 0; P 1 0]; [P 1 0]; [P 5 5; P 6 6]])
  /\ last_or_apart [P 1 0] [[P 5 5; P 6 6]].
Proof.
  split; [reflexivity|]. split; [exact I|]. split; [reflexivity|].
  exists (P 1 0), (P 5 5). repeat split.
Qed.

End FuserClaims.

(** ** The hyperplane generator *)

Section HyperPlaneFacts.
Import HyperPlanes.

Lemma Qabs_small_nonzero a : ~ Qabs a < kEpsilon -> ~ a == 0.
Proof.
  intros N E. apply N. rewrite E. reflexivity.
Qed.

(** The row of an edge, compared with the side of the directed edge the
    point lies on: [A_i . p - b_i] has the sign of the cross product of
    [v2 - v1] and [p - v1]. *)
Lemma edge_hyperplane_side (v1 v2 p : Vec2d) :
  axis_exact v1 v2 ->
  (CrossProd v1 v2 p < 0 ->
   row_value (edge_hyperplane v1 v2) p < snd (edge_hyperplane v1 v2))
  /\ (0 < CrossProd v1 v2 p ->
      snd (edge_hyperplane v1 v2) < row_value (edge_hyperplane v1 v2) p).
Proof.
  unfold axis_exact, edge_hyperplane, row_value, CrossProd, vcross, vsub.
  cbn [x y]. intros [Hv Hh].
  set (x1 := x v1) in *. set (y1 := y v1) in *.
  set (x2 := x v2) in *. set (y2 := y v2) in *.
  set (xp := x p). set (yp := y p).
  destruct (Qltb (Qabs (x1 - x2)) kEpsilon) eqn:V.
  - apply Qltb_lt in V. specialize (Hv V).
    destruct (Qltb y2 y1) eqn:D; cbn [fst snd].
    + apply Qltb_lt in D. split; intros C; nra.
    + apply Qltb_ge in D. split; intros C; nra.
  - apply Qltb_ge in V.
    assert (~ Qabs (x1 - x2) < kEpsilon) as NV by (apply Qle_not_lt, V).
    pose proof (Qabs_small_nonzero _ NV) as Nz.
    destruct (Qltb (Qabs (y1 - y2)) kEpsilon) eqn:Hz.
    + apply Qltb_lt in Hz. specialize (Hh NV Hz).
      destruct (Qltb x1 x2) eqn:D; cbn [fst snd].
      * apply Qltb_lt in D. split; intros C; nra.
      * apply Qltb_ge in D. split; intros C; nra.
    + unfold solve_line.
      assert (~ x1 * 1 - 1 * x2 == 0) as Nd by (intros E; apply Nz; lra).
      set (d := x1 * 1 - 1 * x2) in *.
      assert (1 / d * y1 + - 1 / d * y2 == (y1 - y2) / d) as Ea
        by (field; exact Nd).
      assert (- x2 / d * y1 + x1 / d * y2 == (x1 * y2 - x2 * y1) / d) as Eb
        by (field; exact Nd).
      set (a := 1 / d * y1 + - 1 / d * y2) in *.
      set (b := - x2 / d * y1 + x1 / d * y2) in *.
      assert (a * d == y1 - y2) as Ea' by (rewrite Ea; field; exact Nd).
      assert (b * d == x1 * y2 - x2 * y1) as Eb' by (rewrite Eb; field; exact Nd).
      assert (d == x1 - x2) as Ed by (unfold d; ring).
      destruct (Qltb x1 x2) eqn:D; cbn [fst snd].
      * apply Qltb_lt in D. split; intros C; nra.
      * apply Qltb_ge in D. split; intros C; nra.
Qed.

Lemma bind_returns {A B : Type} (m : outcome A) (k : A -> outcome B) (b : B) :
  bind m k = Returns b -> exists a, m = Returns a /\ k a = Returns b.
Proof. destruct m; try discriminate. intros E. now exists a. Qed.

Lemma index_returns {A : Type} (v : list A) (i : nat) (a : A) :
  index v i = Returns a <-> nth_error v i = Some a.
Proof.
  unfold index. destruct (nth_error v i); split; congruence.
Qed.

(** The rows of a piece are those of its consecutive vertex pairs. *)
Lemma piece_rows_spec piece : forall todo j rows,
  piece_rows piece j todo = Returns rows ->
  length rows = todo
  /\ forall k, (k < todo)%nat ->
       exists v1 v2, nth_error piece (j + k) = Some v1
         /\ nth_error piece (S (j + k)) = Some v2
         /\ nth_error rows k = Some (edge_hyperplane v1 v2).
Proof.
  induction todo as [|todo IH]; intros j rows; simpl.
  - intros [= <-]. split; [reflexivity | intros k Hk; lia].
  - intros E.
    apply bind_returns in E as (v1 & E1 & E).
    apply bind_returns in E as (v2 & E2 & E).
    apply bind_returns in E as (more & E3 & E).
    injection E as <-. apply index_returns in E1, E2.
    destruct (IH _ _ E3) as [L R]. split; [simpl; lia|].
    intros [|k] Hk.
    + exists v1, v2. rewrite Nat.add_0_r. now repeat split.
    + destruct (R k ltac:(lia)) as (w1 & w2 & W1 & W2 & W3).
      exists w1, w2. rewrite Nat.add_succ_r. now repeat split.
Qed.

Lemma write_block_spec {A : Type} (counter : nat) (B M M' : list A) :
  write_block counter B M = Returns M' ->
  length M' = length M
  /\ (counter + length B <= length M)%nat
  /\ (forall r, (r < counter)%nat -> nth_error M' r = nth_error M r)
  /\ (forall k, (k < length B)%nat ->
        nth_error M' (counter + k) = nth_error B k).
Proof.
  unfold write_block.
  destruct (counter + length B <=? length M)%nat eqn:E; [|discriminate].
  apply Nat.leb_le in E. intros [= <-].
  assert (length (firstn counter M) = counter) as Lf
    by (rewrite length_firstn; lia).
  repeat split; trivial.
  - rewrite !length_app, Lf, length_skipn. lia.
  - intros r Hr. rewrite nth_error_app1 by lia.
    now rewrite nth_error_firstn, (proj2 (Nat.ltb_lt _ _) Hr).
  - intros k Hk. rewrite nth_error_app2 by lia.
    rewrite Lf. replace (counter + k - counter)%nat with k by lia.
    now rewrite nth_error_app1.
Qed.

(** What the outer loop leaves in [A_all] and [b_all]: rows before
    [counter] stay, and the piece at [i + k] has its rows from
    [counter] plus the edge counts of the pieces [i .. i + k - 1] on. *)
Lemma obstacles_loop_spec edges vertices : forall todo i counter A0 b0 A b,
  obstacles_loop todo i counter edges vertices A0 b0 = Returns (A, b) ->
  (length A = length A0 /\ length b = length b0)
  /\ (forall r, (r < counter)%nat ->
        nth_error A r = nth_error A0 r /\ nth_error b r = nth_error b0 r)
  /\ (forall k n piece j, (k < todo)%nat ->
        nth_error edges (i + k) = Some n ->
        nth_error vertices (i + k) = Some piece -> (j < n)%nat ->
        exists v1 v2, nth_error piece j = Some v1
          /\ nth_error piece (S j) = Some v2
          /\ let r := (counter + list_sum (firstn k (skipn i edges)) + j)%nat in
             nth_error A r = Some (fst (edge_hyperplane v1 v2))
             /\ nth_error b r = Some (snd (edge_hyperplane v1 v2))).
Proof.
  induction todo as [|todo IH]; intros i counter A0 b0 A b; simpl.
  - intros [= <- <-]. repeat split; trivial. intros; lia.
  - intros E.
    apply bind_returns in E as (n0 & E1 & E).
    apply bind_returns in E as (piece0 & E2 & E).
    apply bind_returns in E as (rows & E3 & E).
    apply bind_returns in E as (A1 & E4 & E).
    apply bind_returns in E as (b1 & E5 & E).
    apply index_returns in E1, E2.
    destruct (piece_rows_spec _ _ _ _ E3) as [Lr Rr].
    unfold row in *.
    destruct (write_block_spec _ _ _ _ E4) as (LA & _ & PA & WA).
    destruct (write_block_spec _ _ _ _ E5) as (Lb & _ & Pb & Wb).
    rewrite length_map in WA, Wb.
    destruct (IH _ _ _ _ _ _ E) as ((LA' & Lb') & P & R).
    split; [split; congruence|]. split.
    + intros r Hr. destruct (P r ltac:(lia)) as [-> ->].
      split; [apply PA | apply Pb]; exact Hr.
    + assert (skipn i edges = n0 :: skipn (S i) edges) as Sk.
      { clear - E1. revert i E1.
        induction edges as [|e edges IHe]; intros [|i]; simpl; try discriminate.
        - now intros [= ->].
        - intros E. now apply IHe. }
      intros [|k] n piece j Hk He Hv Hj.
      * rewrite Nat.add_0_r in He, Hv.
        assert (n = n0) as -> by congruence.
        assert (piece = piece0) as -> by congruence.
        destruct (Rr j ltac:(lia)) as (v1 & v2 & V1 & V2 & V3).
        assert (j < length rows)%nat as Hj' by lia.
        exists v1, v2. repeat split; trivial; simpl; rewrite Nat.add_0_r.
        -- destruct (P (counter + j)%nat ltac:(lia)) as [-> _].
           rewrite (WA j Hj'). now rewrite nth_error_map, V3.
        -- destruct (P (counter + j)%nat ltac:(lia)) as [_ ->].
           rewrite (Wb j Hj'). now rewrite nth_error_map, V3.
      * rewrite Nat.add_succ_r in He, Hv.
        destruct (R k n piece j ltac:(lia) He Hv Hj) as (v1 & v2 & V1 & V2 & V3).
        exists v1, v2. repeat split; trivial; rewrite Sk; simpl;
          rewrite Nat.add_assoc; apply V3.
Qed.

Lemma resize_length {A : Type} (zero : A) (n : nat) (M : list A) :
  length (resize zero n M) = n.
Proof.
  unfold resize. destruct (length M =? n)%nat eqn:E.
  - now apply Nat.eqb_eq. 
  - apply repeat_length.
Qed.

(** A successful call fills [A] and [b] with one row per counted edge. *)
Lemma GetHyperPlanes_rows obstacles_num edges vertices A0 b0 A b :
  GetHyperPlanes obstacles_num edges vertices A0 b0 = Returns (true, (A, b)) ->
  obstacles_num = length vertices
  /\ length A = list_sum edges /\ length b = list_sum edges
  /\ forall i n piece j,
       nth_error edges i = Some n -> nth_error vertices i = Some piece ->
       (j < n)%nat ->
       exists v1 v2, nth_error piece j = Some v1
         /\ nth_error piece (S j) = Some v2
         /\ let r := (list_sum (firstn i edges) + j)%nat in
            nth_error A r = Some (fst (edge_hyperplane v1 v2))
            /\ nth_error b r = Some (snd (edge_hyperplane v1 v2)).
Proof.
  unfold GetHyperPlanes.
  destruct (obstacles_num =? length vertices)%nat eqn:N; [|discriminate].
  apply Nat.eqb_eq in N. simpl. intros E.
  apply bind_returns in E as ([A' b'] & E & [= <- <-]).
  destruct (obstacles_loop_spec _ _ _ _ _ _ _ _ _ E) as ((LA & Lb) & _ & R).
  rewrite resize_length in LA. rewrite resize_length in Lb.
  repeat split; trivial.
  intros i n piece j He Hv Hj.
  assert (i < obstacles_num)%nat as Hi
    by (rewrite N; apply nth_error_Some; congruence).
  apply (R i n piece j Hi He Hv Hj).
Qed.

End HyperPlaneFacts.

Section HyperPlaneClaims.
Import HyperPlanes.
Local Abbreviation P := mkVec2d.

(** C1, as amended.  After a successful call, row [j] of piece [i] sits at
    the sum of the edge counts of the pieces before [i], plus [j], and is
    the hyperplane of the vertices [j] and [j + 1] of the piece.  For an
    edge that is exactly axis-aligned or not axis-aligned within
    [kEpsilon], a point strictly on the right of the directed edge (the
    inside of a loop walked clockwise, the order in which the decider
    stores its pieces) has [A_i . p < b_i], and a point strictly on its
    left (the inside of a loop walked counter-clockwise) has
    [A_i . p > b_i]. *)
Theorem hyperplanes_orientation (obstacles_num : nat) (edges : list nat)
    (vertices : list (list Vec2d)) (A0 A : MatrixA) (b0 b : VectorB) :
  GetHyperPlanes obstacles_num edges vertices A0 b0 = Returns (true, (A, b)) ->
  forall i n piece j,
    nth_error edges i = Some n -> nth_error vertices i = Some piece ->
    (j < n)%nat ->
    exists v1 v2 Ai bi,
      nth_error piece j = Some v1 /\ nth_error piece (S j) = Some v2
      /\ nth_error A (list_sum (firstn i edges) + j) = Some Ai
      /\ nth_error b (list_sum (firstn i edges) + j) = Some bi
      /\ (axis_exact v1 v2 ->
          forall p,
            (CrossProd v1 v2 p < 0 -> fst Ai * x p + snd Ai * y p < bi)
            /\ (0 < CrossProd v1 v2 p -> bi < fst Ai * x p + snd Ai * y p)).
Proof.
  intros G i n piece j He Hv Hj.
  destruct (GetHyperPlanes_rows _ _ _ _ _ _ _ G) as (_ & _ & _ & R).
  destruct (R i n piece j He Hv Hj) as (v1 & v2 & V1 & V2 & RA & Rb).
  exists v1, v2, (fst (edge_hyperplane v1 v2)), (snd (edge_hyperplane v1 v2)).
  repeat split; trivial; apply (edge_hyperplane_side v1 v2 p H).
Qed.

(** The first edge of the counter-clockwise square, from [(0,0)] to
    [(2,0)]: the centroid [(1,1)] is on its left and satisfies the row
    [(0, 1) . p > 0]. *)
Lemma hyperplanes_orientation_witness :
  GetHyperPlanes 1 [4%nat] [counterclockwise_square] [] []
  = Returns (true, ([(0, 1); (- (1), 0); (0, - (1)); (1, 0)],
                    [0; - (2); - (2); 0]))
  /\ axis_exact (P 0 0) (P 2 0)
  /\ 0 < CrossProd (P 0 0) (P 2 0) (P 1 1)
  /\ 0 < fst (0, 1) * x (P 1 1) + snd (0, 1) * y (P 1 1).
Proof.
  assert (axis_exact (P 0 0) (P 2 0)) as Ax.
  { split; [intros L; discriminate L | intros _ _; reflexivity]. }
  split; [reflexivity|]. split; [exact Ax|]. split; [reflexivity|].
  destruct (hyperplanes_orientation 1 [4%nat] [counterclockwise_square]
              [] [(0, 1); (- (1), 0); (0, - (1)); (1, 0)]
              [] [0; - (2); - (2); 0]
              eq_refl 0%nat 4%nat counterclockwise_square 0%nat
              eq_refl eq_refl ltac:(repeat constructor))
    as (v1 & v2 & Ai & bi & E1 & E2 & EA & Eb & Side).
  injection E1 as <-. injection E2 as <-.
  injection EA as <-. injection Eb as <-.
  apply (Side Ax (P 1 1)). reflexivity.
Defined.

(** C1 as stated fails on a loop walked clockwise: the centroid [(1,1)]
    of the clockwise square is strictly inside (strictly on the right of
    each of its four edges), and every row gives [A_i . p < b_i]. *)
Lemma clockwise_square_rows_point_outward :
  Forall (fun e => CrossProd (fst e) (snd e) (P 1 1) < 0)
         [(P 0 0, P 0 2); (P 0 2, P 2 2); (P 2 2, P 2 0); (P 2 0, P 0 0)]
  /\ exists A b,
       GetHyperPlanes 1 [4%nat] [clockwise_square] [] [] = Returns (true, (A, b))
       /\ Forall2 (fun Ai bi => ~ bi < fst Ai * 1 + snd Ai * 1) A b.
Proof.
  split; [repeat constructor|].
  exists [(- (1), 0); (0, 1); (1, 0); (0, - (1))], [0; 2; 2; 0].
  split; [reflexivity|].
  repeat constructor; apply Qle_not_lt; discriminate.
Qed.

End HyperPlaneClaims.

(** ** Vertex loading and edge counts *)

Section ObstacleFacts.
Import Obstacles.
Context `{Math} {Box2d : Type} `{BoxOps Box2d}.
Variable config : OpenSpaceRoiDeciderConfig.
Variable vehicle_state : VehicleState.

Lemma parking_boundaries_edges_num_spec roi : forall edges,
  parking_boundaries_edges_num roi = Returns edges ->
  edges = map (fun piece => (length piece - 1)%nat) roi.
Proof.
  induction roi as [|piece roi IH]; simpl; intros edges.
  - now intros [= <-].
  - destruct (1 <? length piece)%nat; [|discriminate]. intros E.
    apply bind_returns in E as (more & E & [= <-]).
    now rewrite (IH _ E).
Qed.

(** With four corners to a box, every perception piece has five
    vertices: the corners and the first of them again. *)
Lemma perception_vertices_spec info :
  (forall box : Box2d, length (GetAllCorners box) = 4%nat) ->
  forall items pieces,
    perception_vertices config vehicle_state info items = Returns pieces ->
    Forall (fun piece => length piece = 5%nat) pieces.
Proof.
  intros Four. induction items as [|o items IH]; simpl; intros pieces.
  - intros [= <-]. constructor.
  - intros E. apply bind_returns in E as (filtered & _ & E).
    destruct filtered; [now apply IH|].
    apply bind_returns in E as (piece & Ep & E).
    apply bind_returns in E as (more & Em & [= <-]).
    constructor; [|now apply IH].
    unfold obstacle_vertices in Ep.
    apply bind_returns in Ep as (first & _ & [= <-]).
    unfold clockwise_corners.
    now rewrite length_app, length_map, length_rev, Four.
Qed.

Lemma Forall2_edges_roi (roi : list (list Vec2d)) :
  Forall2 (fun n piece => n = (length piece - 1)%nat)
          (map (fun piece => (length piece - 1)%nat) roi) roi.
Proof. induction roi; simpl; constructor; trivial. Qed.

Lemma Forall2_edges_perception (pieces : list (list Vec2d)) :
  Forall (fun piece => length piece = 5%nat) pieces ->
  Forall2 (fun n piece => n = (length piece - 1)%nat)
          (repeat 4%nat (length pieces)) pieces.
Proof.
  induction 1 as [|piece pieces L _ IH]; simpl; constructor; trivial.
  now rewrite L.
Qed.

(** C6.  When [FormulateBoundaryConstraints] (the vertex loading followed
    by the hyperplane step) returns true, the stored pieces are the
    boundary pieces followed by the perception pieces; each boundary
    piece is recorded with its number of vertices minus one, each
    perception piece with 4, which for the five vertices of a closed box
    is again the number of vertices minus one; and the edge counts add up
    to the number of rows of [A] and to the number of rows of [b]. *)
Theorem edge_counts_match_rows (roi : list (list Vec2d))
    (items : list (Obstacle Box2d)) (info info' : OpenSpaceInfo) :
  (forall box : Box2d, length (GetAllCorners box) = 4%nat) ->
  FormulateBoundaryConstraints config vehicle_state roi items info
  = Returns (true, info') ->
  exists perception,
    obstacles_vertices_vec info' = roi ++ perception
    /\ Forall (fun piece => length piece = 5%nat) perception
    /\ obstacles_edges_num info'
       = map (fun piece => (length piece - 1)%nat) roi
         ++ repeat 4%nat (length perception)
    /\ Forall2 (fun n piece => n = (length piece - 1)%nat)
               (obstacles_edges_num info') (obstacles_vertices_vec info')
    /\ list_sum (obstacles_edges_num info') = length (obstacles_A info')
    /\ list_sum (obstacles_edges_num info') = length (obstacles_b info').
Proof.
  intros Four. unfold FormulateBoundaryConstraints. intros E.
  apply bind_returns in E as ([ok1 info1] & E1 & E).
  destruct ok1; simpl in E; [|discriminate].
  apply bind_returns in E as ([ok2 info2] & E2 & E).
  destruct ok2; simpl in E; [|discriminate]. injection E as <-.
  unfold LoadObstacleInHyperPlanes in E2.
  apply bind_returns in E2 as ([ok Ab] & G & [= -> <-]).
  destruct Ab as [A b]. simpl in G.
  apply GetHyperPlanes_rows in G.
  destruct G as (N & LA & Lb & _). simpl.
  unfold LoadObstacleInVertices in E1.
  apply bind_returns in E1 as (parking_edges & Ee & E1).
  apply parking_boundaries_edges_num_spec in Ee. subst parking_edges.
  assert (forall (pre : list (list Vec2d)) perception,
            (length roi + length perception)%nat
            = length ((pre ++ roi) ++ perception) -> pre = []) as Empty.
  { intros pre perception L. rewrite !length_app in L.
    destruct pre; [reflexivity | simpl in L; lia]. }
  destruct (enable_perception_obstacles config).
  - apply bind_returns in E1 as (perception & Ep & [= <-]).
    simpl in *. apply Empty in N. rewrite N in *. simpl in *.
    pose proof (perception_vertices_spec _ Four _ _ Ep) as Five.
    exists perception. repeat split; trivial; try congruence.
    apply Forall2_app;
      [apply Forall2_edges_roi | now apply Forall2_edges_perception].
  - injection E1 as <-. simpl in *.
    rewrite <- (app_nil_r (obstacles_vertices_vec info ++ roi)) in N.
    apply (Empty _ []) in N. rewrite N in *. simpl in *.
    exists []. rewrite !app_nil_r. repeat split; trivial; try congruence.
    apply Forall2_edges_roi.
Qed.

End ObstacleFacts.

Section ObstacleExample.
Local Abbreviation P := mkVec2d.

Lemma edge_counts_match_rows_witness :
  (forall box : AxisBox, length (@GetAllCorners _ AxisBoxOps box) = 4%nat)
  /\ exists info',
       @Obstacles.FormulateBoundaryConstraints QuarterTurns AxisBox AxisBoxOps
         example_config example_vehicle example_roi example_items example_info
       = Returns (true, info')
       /\ obstacles_edges_num info' = [2; 1; 4]%nat
       /\ list_sum (obstacles_edges_num info') = length (obstacles_A info')
       /\ list_sum (obstacles_edges_num info') = length (obstacles_b info').
Proof.
  split; [reflexivity|].
  assert (exists info',
            @Obstacles.FormulateBoundaryConstraints QuarterTurns AxisBox
              AxisBoxOps example_config example_vehicle example_roi
              example_items example_info
            = Returns (true, info')) as [info' E]
    by (eexists; vm_compute; reflexivity).
  exists info'. split; [exact E|].
  destruct (@edge_counts_match_rows QuarterTurns AxisBox AxisBoxOps
              example_config example_vehicle example_roi example_items
              example_info info' (fun _ => eq_refl) E)
    as (perception & _ & _ & _ & _ & SA & Sb).
  split; [|split; [exact SA | exact Sb]].
  clear - E. vm_compute in E. injection E as <-. reflexivity.
Defined.

End ObstacleExample.

(** ** The boundary builder *)

Section BuilderFacts.
Import Builder.
Context `{Math}.
Variable config : OpenSpaceRoiDeciderConfig.
Variable nearby_path : Path.
Variables start_s end_s : Q.

Local Abbreviation index_at := Sampling.index_at.
Local Abbreviation station := (Sampling.station config start_s end_s).
Local Abbreviation heading_at := (Sampling.heading_at nearby_path).
Local Abbreviation kept := (Sampling.kept config nearby_path start_s end_s).
Local Abbreviation record_all := (Sampling.record_all nearby_path).
Local Abbreviation aligned := Sampling.aligned.

Lemma next_station_le (index : Q) :
  Qle_bool (next_station config end_s index) end_s = true.
Proof.
  unfold next_station, Qgeb.
  destruct (Qle_bool end_s (index * roi_linesegment_length config)) eqn:E.
  - apply Qle_bool_iff, Qle_refl.
  - apply Qle_bool_iff, Qlt_le_weak, Qltb_lt. unfold Qltb. now rewrite E.
Qed.

Lemma station_le (k : nat) :
  start_s <= end_s -> Qle_bool (station k) end_s = true.
Proof.
  intros L. destruct k; [now apply Qle_bool_iff | apply next_station_le].
Qed.

Lemma kept_end (k : nat) : station k == end_s -> kept k = true.
Proof.
  intros E. unfold Sampling.kept, skips.
  rewrite (Qeq_eq_bool _ _ E). now rewrite andb_false_r.
Qed.

(** From the [k]-th pass on, the loop records the kept stations up to the
    pass [n] that reaches [end_s], and returns. *)
Lemma sample_loop_from (n : nat) :
  start_s <= end_s ->
  (forall k, (k < n)%nat -> ~ station k == end_s) -> station n == end_s ->
  forall d k fuel acc, (k + d = n)%nat -> (d < fuel)%nat ->
    sample_loop config nearby_path start_s end_s fuel (index_at k) (station k)
                (heading_at (station (pred k))) acc
    = Returns (record_all acc (map station (filter kept (seq k (S d))))).
Proof.
  intros L Before At.
  induction d as [|d IH]; intros k fuel acc Hk Hf;
    (destruct fuel as [|fuel]; [lia|]); simpl sample_loop;
    rewrite (station_le k L); fold (heading_at (station k)).
  - assert (k = n) as -> by lia.
    pose proof (kept_end n At) as K. unfold Sampling.kept in K.
    apply negb_true_iff in K. rewrite K.
    rewrite (Qeq_eq_bool _ _ At). simpl. unfold Sampling.kept. now rewrite K.
  - assert (~ station k == end_s) as Ne by (apply Before; lia).
    assert (Qeq_bool (station k) end_s = false) as Nb.
    { destruct (Qeq_bool (station k) end_s) eqn:E; [|reflexivity].
      now apply Qeq_bool_iff in E. }
    change (seq k (S (S d))) with (k :: seq (S k) (S d)).
    cbn [filter]. unfold Sampling.kept at 1.
    destruct (skips config start_s end_s (station k) (heading_at (station k))
                    (heading_at (station (pred k)))); cbn [negb map].
    + apply (IH (S k) fuel acc); lia.
    + rewrite Nb. apply (IH (S k) fuel _); lia.
Qed.

Lemma record_all_center_lane_s stations : forall acc,
  center_lane_s (record_all acc stations) = center_lane_s acc ++ stations.
Proof.
  unfold Sampling.record_all.
  induction stations as [|s stations IH]; intros acc; simpl.
  - now rewrite app_nil_r.
  - rewrite IH. simpl. now rewrite <- app_assoc.
Qed.

Lemma record_all_aligned stations : forall acc,
  aligned acc -> aligned (record_all acc stations).
Proof.
  unfold Sampling.record_all.
  induction stations as [|s stations IH]; intros acc A; simpl; [exact A|].
  apply IH. unfold Sampling.aligned, record in *. simpl. rewrite !length_app. simpl.
  intuition lia.
Qed.

Lemma record_all_center_lane_boundary stations : forall acc,
  center_lane_boundary (record_all acc stations)
  = center_lane_boundary acc
    ++ map (fun s => point (GetSmoothPoint nearby_path s)) stations.
Proof.
  unfold Sampling.record_all.
  induction stations as [|s stations IH]; intros acc; simpl.
  - now rewrite app_nil_r.
  - rewrite IH. simpl. now rewrite <- app_assoc.
Qed.

(** C4, as amended.  Let the loop reach [end_s] for the first time on
    pass [n], the stations being [start_s] and then [index] times the
    segment length clamped to [end_s].  With fuel for these passes the
    builder returns; the recorded stations are, in order, the stations of
    the passes that are kept; a pass is kept exactly when the absolute
    normalized heading change since the station of the pass before
    (recorded or skipped) is at least the minimum angle, or its station
    is [start_s] or [end_s]; and the point arrays hold one entry per
    recorded station and none for a skipped one. *)
Theorem sampling_records (n fuel : nat) :
  start_s <= end_s ->
  (forall k, (k < n)%nat -> ~ station k == end_s) -> station n == end_s ->
  (n < fuel)%nat ->
  exists smp,
    BuildLaneBoundary config nearby_path start_s end_s fuel = Returns smp
    /\ center_lane_s smp = map station (filter kept (seq 0 (S n)))
    /\ (forall k, kept k = true <->
          (roi_linesegment_min_angle config
           <= Qabs (NormalizeAngle (heading_at (station k)
                                    - heading_at (station (pred k))))
           \/ station k == start_s \/ station k == end_s))
    /\ center_lane_boundary smp
       = map (fun s => point (GetSmoothPoint nearby_path s)) (center_lane_s smp)
    /\ aligned smp.
Proof.
  intros L Before At Hf.
  exists (record_all no_samples (map station (filter kept (seq 0 (S n))))).
  split; [|split; [|split; [|split]]].
  - unfold BuildLaneBoundary.
    apply (sample_loop_from n L Before At n 0%nat fuel no_samples); lia.
  - apply record_all_center_lane_s.
  - intros k. unfold Sampling.kept, skips.
    rewrite negb_true_iff, !andb_false_iff, !negb_false_iff, Qltb_ge,
      !Qeq_bool_iff.
    tauto.
  - rewrite record_all_center_lane_boundary, record_all_center_lane_s.
    reflexivity.
  - apply record_all_aligned. unfold Sampling.aligned. simpl. tauto.
Qed.

End BuilderFacts.

Section BuilderExample.
Local Abbreviation P := mkVec2d.

Lemma sampling_records_witness :
  0 <= 3
  /\ Sampling.station example_config 0 3 3 == 3
  /\ exists smp,
       @Builder.BuildLaneBoundary QuarterTurns example_config gentle_curve
         0 3 10 = Returns smp
       /\ Builder.center_lane_s smp
          = map (Sampling.station example_config 0 3)
                (filter (@Sampling.kept QuarterTurns example_config gentle_curve 0 3)
                        (seq 0 4)).
Proof.
  split; [discriminate|]. split; [reflexivity|].
  destruct (@sampling_records QuarterTurns example_config gentle_curve 0 3
              3%nat 10%nat) as (smp & R & S & _).
  - discriminate.
  - intros [|[|[|k]]] Hk; try lia; discriminate.
  - reflexivity.
  - lia.
  - exists smp. split; [exact R | exact S].
Defined.

(** C4 as stated fails.  On the gentle curve the stations are 0, 1, 2 and
    3; only 0 and 3 are recorded.  When the loop is at station 2, the
    last recorded station is 0 and the heading has changed by 12
    hundredths since, which is not below the minimum angle of one tenth;
    the station is skipped all the same. *)
Lemma gentle_curve_station_dropped :
  Sampling.station example_config 0 3 2 == 2
  /\ ~ Qabs (@NormalizeAngle QuarterTurns
               (heading (GetSmoothPoint gentle_curve 2)
                - heading (GetSmoothPoint gentle_curve 0)))
       < roi_linesegment_min_angle example_config
  /\ exists smp,
       @Builder.BuildLaneBoundary QuarterTurns example_config gentle_curve
         0 3 10 = Returns smp
       /\ Builder.center_lane_s smp = [0; 3].
Proof.
  split; [reflexivity|]. split; [apply Qle_not_lt; discriminate|].
  eexists. split; reflexivity.
Qed.

End BuilderExample.

(** ** The parking-spot stitcher *)

Section StitcherFacts.
Import Stitcher.
Context `{Math}.
Variable origin_point : Vec2d.
Variable origin_heading : Q.

Local Abbreviation to_local := (to_local origin_point origin_heading).
Local Abbreviation to_world := (to_world origin_point origin_heading).
Local Abbreviation rotation_exact := (Rescaling.rotation_exact origin_heading).
Local Abbreviation rescaled_world := Rescaling.rescaled_world.
Local Abbreviation rescaled_by :=
  (Rescaling.rescaled_by origin_point origin_heading).
Local Abbreviation aligned := Sampling.aligned.

Lemma to_world_to_local (q : Vec2d) :
  rotation_exact -> veq (to_world (to_local q)) q.
Proof.
  intros (Hc & Hs & Hu).
  unfold veq, Stitcher.to_world, Stitcher.to_local, SelfRotate, vadd, vsub.
  cbn [x y]. rewrite Hc, Hs.
  set (c := cos origin_heading) in *. set (s := sin origin_heading) in *.
  split.
  - setoid_replace ((((x q - x origin_point) * c - (y q - y origin_point) * - s) * c
      - ((x q - x origin_point) * - s + (y q - y origin_point) * c) * s
      + x origin_point))
      with ((x q - x origin_point) * (c * c + s * s) + x origin_point) by ring.
    rewrite Hu. ring.
  - setoid_replace ((((x q - x origin_point) * c - (y q - y origin_point) * - s) * s
      + ((x q - x origin_point) * - s + (y q - y origin_point) * c) * c
      + y origin_point))
      with ((y q - y origin_point) * (c * c + s * s) + y origin_point) by ring.
    rewrite Hu. ring.
Qed.

Lemma rescale_point_spec (p center : Vec2d) (road_width factor : Q) :
  rotation_exact -> ~ road_width == 0 ->
  exists p',
    rescale_point origin_point origin_heading p center road_width factor
    = Returns p'
    /\ veq (to_world p') (rescaled_world (to_world p) center road_width factor).
Proof.
  intros R W. unfold rescale_point.
  destruct (Qeq_bool road_width 0) eqn:E;
    [now apply Qeq_bool_iff in E|].
  eexists. split; [reflexivity|].
  apply (to_world_to_local _ R).
Qed.

(** A point that sat at [road_width] along the unit vector [u] from the
    centre line sits at [factor] along it afterwards. *)
Lemma rescaled_world_offset (p_world center u q : Vec2d) (road_width factor : Q) :
  ~ road_width == 0 ->
  veq p_world (vadd center (vscale u road_width)) ->
  x u * x u + y u * y u == 1 ->
  veq q (rescaled_world p_world center road_width factor) ->
  DistanceSquareTo q center == factor * factor.
Proof.
  unfold veq, Rescaling.rescaled_world, DistanceSquareTo, vadd, vscale, vdiv, vsub.
  cbn [x y]. intros W [Px Py] U [Qx Qy]. rewrite Qx, Qy, Px, Py.
  setoid_replace ((x center + x u * road_width - x center) / road_width)
    with (x u) by (field; exact W).
  setoid_replace ((y center + y u * road_width - y center) / road_width)
    with (y u) by (field; exact W).
  setoid_replace ((x u * factor + x center - x center)
                  * (x u * factor + x center - x center)
                  + (y u * factor + y center - y center)
                    * (y u * factor + y center - y center))
    with (factor * factor * (x u * x u + y u * y u)) by ring.
  rewrite U. ring.
Qed.

Lemma rescale_spec (factor : Q) (boundary : list Vec2d) :
  rotation_exact ->
  forall center_lane_boundary road_width,
    length center_lane_boundary = length boundary ->
    length road_width = length boundary ->
    Forall (fun w => ~ w == 0) road_width ->
    exists result,
      rescale origin_point origin_heading boundary center_lane_boundary
              road_width factor = Returns result
      /\ rescaled_by factor boundary center_lane_boundary road_width result.
Proof.
  intros R. induction boundary as [|p boundary IH];
    intros centers widths Lc Lw Nz; simpl.
  - exists []. split; [reflexivity|]. split; [reflexivity|].
    intros [|i] ? ? ? E; discriminate.
  - destruct centers as [|c centers]; [discriminate|].
    destruct widths as [|w widths]; [discriminate|].
    inversion Nz as [|? ? Nw Nz']; subst.
    destruct (rescale_point_spec p c w factor R Nw) as (p' & Ep & Vp).
    destruct (IH centers widths) as (more & Em & Lm & Rm);
      [simpl in Lc; lia | simpl in Lw; lia | exact Nz' |].
    exists (p' :: more). unfold index. cbn [nth_error bind tl].
    rewrite Ep. cbn [bind]. rewrite Em. cbn [bind].
    split; [reflexivity|]. split; [simpl; lia|].
    intros [|i] p0 c0 w0; cbn [nth_error].
    + intros [= <-] [= <-] [= <-]. exists p'. repeat split; trivial.
      * apply Vp.
      * apply Vp.
      * intros u Pu Uu.
        apply (rescaled_world_offset (to_world p) c u _ w factor Nw Pu Uu Vp).
    + apply Rm.
Qed.

Variable spot : corners.
Variables left_top_s right_top_s average_l : Q.

Lemma front_of_returns {A : Type} (v : list A) (a : A) :
  front_of v = Returns a -> exists t, v = a :: t.
Proof.
  destruct v as [|b t]; [discriminate|]. intros [= ->]. now exists t.
Qed.

(** The left branch copies the whole right edge first: its polyline
    starts and ends at the first point of the right edge. *)
Lemma stitch_left_edges_closed (right_lane_boundary left_lane_boundary : list Vec2d)
    (center_lane_s : list Q) (boundary_points : list Vec2d)
    (segments : list segment) :
  stitch_left_edges spot left_top_s right_top_s right_lane_boundary
                    left_lane_boundary center_lane_s
  = Returns (boundary_points, segments) ->
  exists first,
    front right_lane_boundary = Some first
    /\ front boundary_points = Some first
    /\ back boundary_points = Some first.
Proof.
  unfold stitch_left_edges. intros E.
  apply bind_returns in E as (near & _ & E).
  apply bind_returns in E as (far & _ & E).
  apply bind_returns in E as (first & F & E).
  apply front_of_returns in F as [t ->].
  repeat (apply bind_returns in E as (? & _ & E)).
  injection E as <- _. exists first.
  split; [reflexivity|]. split; [reflexivity|].
  rewrite !app_comm_cons. apply back_app_one.
Qed.

(** The right branch copies the right edge up to, not including, the near
    bracket: with the near bracket at index 0 its polyline starts at the
    left-top corner of the spot, and ends at the first point of the right
    edge. *)
Lemma stitch_right_edges_first (right_lane_boundary left_lane_boundary : list Vec2d)
    (center_lane_s : list Q) (boundary_points : list Vec2d)
    (segments : list segment) :
  stitch_right_edges spot left_top_s right_top_s right_lane_boundary
                     left_lane_boundary center_lane_s
  = Returns (boundary_points, segments) ->
  (lower_bound center_lane_s left_top_s <= 1)%nat ->
  front boundary_points = Some (left_top spot)
  /\ back boundary_points = front right_lane_boundary.
Proof.
  unfold stitch_right_edges. intros E Near.
  assert ((if (lower_bound center_lane_s left_top_s =? 0)%nat
           then lower_bound center_lane_s left_top_s
           else (lower_bound center_lane_s left_top_s - 1)%nat) = 0%nat) as Z
    by (destruct (lower_bound center_lane_s left_top_s) as [|[|n]];
        simpl; lia).
  rewrite Z in E. simpl in E.
  apply bind_returns in E as (far & _ & E).
  apply bind_returns in E as (first & F & E).
  apply front_of_returns in F as [t ->].
  repeat (apply bind_returns in E as (? & _ & E)).
  injection E as <- _.
  split; [reflexivity|].
  rewrite !app_comm_cons. apply back_app_one.
Qed.

Lemma lower_bound_le (v : list Q) (value : Q) :
  (lower_bound v value <= length v)%nat.
Proof.
  induction v as [|a v IH]; simpl; [lia|].
  destruct (Qltb a value); simpl; lia.
Qed.

(** The near bracket, clamped at 0 and otherwise one before the lower
    bound, is an index into a non-empty edge as long as the stations. *)
Lemma near_bracket_in_range (center_lane_s : list Q) (edge : list Vec2d)
    (value : Q) :
  length edge = length center_lane_s -> edge <> [] ->
  let i := lower_bound center_lane_s value in
  ((if (i =? 0)%nat then i else (i - 1)%nat) < length edge)%nat.
Proof.
  intros L Ne. pose proof (lower_bound_le center_lane_s value) as B.
  destruct edge as [|p edge]; [congruence|]. simpl in *.
  destruct (lower_bound center_lane_s value) as [|n]; simpl; lia.
Qed.

(** The far bracket is used as it comes from the upper bound: when that
    is the length of the rescaled edge, neither branch returns. *)
Lemma stitch_right_edges_far_end (right_lane_boundary left_lane_boundary : list Vec2d)
    (center_lane_s : list Q) :
  upper_bound center_lane_s right_top_s = length right_lane_boundary ->
  forall r,
    stitch_right_edges spot left_top_s right_top_s right_lane_boundary
                       left_lane_boundary center_lane_s <> Returns r.
Proof.
  intros Far r E. unfold stitch_right_edges in E. rewrite Far in E.
  do 5 (apply bind_returns in E as (? & _ & E)).
  apply bind_returns in E as (stitch_to & I & _).
  apply index_returns in I.
  assert (nth_error right_lane_boundary (length right_lane_boundary) = None)
    by (apply nth_error_None; lia).
  congruence.
Qed.

Lemma stitch_left_edges_far_end (right_lane_boundary left_lane_boundary : list Vec2d)
    (center_lane_s : list Q) :
  upper_bound center_lane_s left_top_s = length left_lane_boundary ->
  forall r,
    stitch_left_edges spot left_top_s right_top_s right_lane_boundary
                      left_lane_boundary center_lane_s <> Returns r.
Proof.
  intros Far r E. unfold stitch_left_edges in E. rewrite Far in E.
  do 7 (apply bind_returns in E as (? & _ & E)).
  apply bind_returns in E as (stitch_from & I & _).
  apply index_returns in I.
  assert (nth_error left_lane_boundary (length left_lane_boundary) = None)
    by (apply nth_error_None; lia).
  congruence.
Qed.

(** C2.  With [cos] and [sin] exact at the origin heading, the arrays of
    the builder aligned and no road width zero: if [average_l < 0] the
    stitcher takes the right branch, working on the right edge rescaled
    and on the left edge as it came; otherwise (also at [average_l] zero)
    it takes the left branch, working on the left edge rescaled and on
    the right edge as it came.  At every station the rescaled point is,
    in the world frame, the centre point plus the stored offset divided
    by the road width of that side and multiplied by [- average_l] (right
    branch) or [average_l] (left branch); for an edge point that was at
    the road width along a unit vector from the centre line, its squared
    distance from the centre point is the square of [average_l]. *)
Theorem rescale_rule (s : Builder.samples) :
  rotation_exact -> aligned s ->
  Forall (fun w => ~ w == 0) (Builder.right_lane_road_width s) ->
  Forall (fun w => ~ w == 0) (Builder.left_lane_road_width s) ->
  (average_l < 0 ->
   exists right_lane_boundary,
     rescale origin_point origin_heading (Builder.right_lane_boundary s)
             (Builder.center_lane_boundary s)
             (Builder.right_lane_road_width s) (- average_l)
     = Returns right_lane_boundary
     /\ StitchBoundary origin_point origin_heading spot left_top_s right_top_s
                       average_l s
        = stitch_right_edges spot left_top_s right_top_s right_lane_boundary
            (Builder.left_lane_boundary s) (Builder.center_lane_s s)
     /\ rescaled_by (- average_l) (Builder.right_lane_boundary s)
          (Builder.center_lane_boundary s) (Builder.right_lane_road_width s)
          right_lane_boundary
     /\ - average_l * - average_l == average_l * average_l)
  /\ (~ average_l < 0 ->
      exists left_lane_boundary,
        rescale origin_point origin_heading (Builder.left_lane_boundary s)
                (Builder.center_lane_boundary s)
                (Builder.left_lane_road_width s) average_l
        = Returns left_lane_boundary
        /\ StitchBoundary origin_point origin_heading spot left_top_s
                          right_top_s average_l s
           = stitch_left_edges spot left_top_s right_top_s
               (Builder.right_lane_boundary s) left_lane_boundary
               (Builder.center_lane_s s)
        /\ rescaled_by average_l (Builder.left_lane_boundary s)
             (Builder.center_lane_boundary s) (Builder.left_lane_road_width s)
             left_lane_boundary).
Proof.
  intros R (Ar & Al & Ac & Alw & Arw) Nr Nl. split; intros Side.
  - destruct (rescale_spec (- average_l) (Builder.right_lane_boundary s) R
                (Builder.center_lane_boundary s)
                (Builder.right_lane_road_width s))
      as (r & Er & Sr); [congruence | congruence | exact Nr |].
    exists r. repeat split; try apply Sr; trivial.
    + unfold StitchBoundary, stitch_right.
      rewrite (proj2 (Qltb_lt _ _) Side), Er. reflexivity.
    + ring.
  - destruct (rescale_spec average_l (Builder.left_lane_boundary s) R
                (Builder.center_lane_boundary s)
                (Builder.left_lane_road_width s))
      as (l & El & Sl); [congruence | congruence | exact Nl |].
    exists l. repeat split; try apply Sl; trivial.
    unfold StitchBoundary, stitch_left.
    assert (Qltb average_l 0 = false) as ->
      by (apply Qltb_ge, Qnot_lt_le, Side).
    rewrite El. reflexivity.
Qed.

End StitcherFacts.

(** ** The vehicle test of [GetParkingBoundary] *)

Section DeciderFacts.
Import Decider.
Context `{Math} {Box2d : Type} `{BoxOps Box2d}.
Variable config : OpenSpaceRoiDeciderConfig.
Variable vehicle_params : VehicleParam.
Variable GetParkingSpotFromMap : Frame Box2d -> option (list Vec2d * Path).

Lemma outside_xy_boundary_true (v : Vec2d) (xmin xmax ymin ymax : Q) :
  x v < xmin \/ xmax < x v \/ y v < ymin \/ ymax < y v ->
  outside_xy_boundary v [xmin; xmax; ymin; ymax] = Returns true.
Proof.
  intros O. unfold outside_xy_boundary, index. cbn [nth_error bind].
  f_equal. unfold Qgtb. rewrite !orb_true_iff, !Qltb_lt. tauto.
Qed.

(** C8.  Let the first part of [GetParkingBoundary] get as far as a
    stitched boundary, let the fuser return true, and let
    [xmin, xmax, ymin, ymax] be the box of the boundary points.  If the
    vehicle position in the parking frame is outside the box in some
    coordinate, [GetParkingBoundary] returns false and [Process] returns
    the status [PLANNING_ERROR] with its message; no end pose is pushed
    and the vertex lists, edge counts and hyperplanes of the frame are
    left as they were (the origin and the box have been written). *)
Theorem vehicle_outside_roi_fails (fuel : nat) (frame : Frame Box2d)
    (st : stitched) (roi : list (list Vec2d)) (xmin xmax ymin ymax : Q) :
  routing_parking_space_id frame <> None ->
  locate_and_stitch config GetParkingSpotFromMap fuel frame = Returns (Some st) ->
  Fuser.FuseLineSegments (roi_parking_boundary st) = Returns (true, roi) ->
  xy_boundary (boundary_points st) = Returns [xmin; xmax; ymin; ymax] ->
  (let v := vehicle_in_parking_frame (stitched_frame st) in
   x v < xmin \/ xmax < x v \/ y v < ymin \/ ymax < y v) ->
  exists frame',
    GetParkingBoundary config vehicle_params GetParkingSpotFromMap fuel frame
    = Returns (false, frame', roi)
    /\ Process config vehicle_params GetParkingSpotFromMap fuel (Some frame)
       = Returns ({| code := PLANNING_ERROR;
                     error_message :=
                       "Fail to get parking boundary from map"%string |},
                  Some frame')
    /\ ROI_xy_boundary (open_space_info frame') = [xmin; xmax; ymin; ymax]
    /\ open_space_end_pose (open_space_info frame')
       = open_space_end_pose (open_space_info (stitched_frame st))
    /\ obstacles_vertices_vec (open_space_info frame')
       = obstacles_vertices_vec (open_space_info (stitched_frame st))
    /\ obstacles_edges_num (open_space_info frame')
       = obstacles_edges_num (open_space_info (stitched_frame st))
    /\ obstacles_A (open_space_info frame')
       = obstacles_A (open_space_info (stitched_frame st))
    /\ obstacles_b (open_space_info frame')
       = obstacles_b (open_space_info (stitched_frame st)).
Proof.
  intros Id L F B O.
  exists (with_info (stitched_frame st)
            (set_ROI_xy_boundary (open_space_info (stitched_frame st))
                                 [xmin; xmax; ymin; ymax])).
  assert (GetParkingBoundary config vehicle_params GetParkingSpotFromMap fuel
            frame
          = Returns (false,
                     with_info (stitched_frame st)
                       (set_ROI_xy_boundary
                          (open_space_info (stitched_frame st))
                          [xmin; xmax; ymin; ymax]), roi)) as G.
  { unfold GetParkingBoundary. rewrite L. cbn [bind]. rewrite F. cbn [bind negb].
    rewrite B. cbn [bind].
    change (vehicle_in_parking_frame
              (with_info (stitched_frame st)
                 (set_ROI_xy_boundary (open_space_info (stitched_frame st))
                                      [xmin; xmax; ymin; ymax])))
      with (vehicle_in_parking_frame (stitched_frame st)).
    rewrite (outside_xy_boundary_true _ xmin xmax ymin ymax O). reflexivity. }
  split; [exact G|]. split; [|repeat split].
  unfold Process. destruct (routing_parking_space_id frame); [|congruence].
  rewrite G. reflexivity.
Qed.

End DeciderFacts.

(** ** The straight lane, worked out *)

Section StraightLaneFacts.
Import Decider.
Local Abbreviation P := mkVec2d.

Lemma straight_lane_samples_built :
  exists smp,
    @Builder.BuildLaneBoundary QuarterTurns example_config straight_lane
      (21 # 4) (101 # 4) 100 = Returns smp
    /\ Builder.center_lane_s smp = Builder.center_lane_s straight_lane_samples
    /\ Forall2 veq
         (Builder.right_lane_boundary
            (@localize_samples QuarterTurns (P 14 (- (2))) 0 smp))
         (Builder.right_lane_boundary straight_lane_samples)
    /\ Forall2 veq
         (Builder.left_lane_boundary
            (@localize_samples QuarterTurns (P 14 (- (2))) 0 smp))
         (Builder.left_lane_boundary straight_lane_samples).
Proof.
  eexists. split; [vm_compute; reflexivity|].
  split; [reflexivity|]. split; repeat constructor.
Qed.

Lemma rescale_rule_witness :
  @Rescaling.rotation_exact QuarterTurns 0
  /\ - (2) < 0
  /\ exists right_lane_boundary,
       @Stitcher.rescale QuarterTurns (P 14 (- (2))) 0
         (Builder.right_lane_boundary straight_lane_samples)
         (Builder.center_lane_boundary straight_lane_samples)
         (Builder.right_lane_road_width straight_lane_samples) (- - (2))
       = Returns right_lane_boundary
       /\ @Rescaling.rescaled_by QuarterTurns (P 14 (- (2))) 0 (- - (2))
            (Builder.right_lane_boundary straight_lane_samples)
            (Builder.center_lane_boundary straight_lane_samples)
            (Builder.right_lane_road_width straight_lane_samples)
            right_lane_boundary.
Proof.
  assert (@Rescaling.rotation_exact QuarterTurns 0) as R by (repeat split).
  split; [exact R|]. split; [reflexivity|].
  destruct (@rescale_rule QuarterTurns (P 14 (- (2))) 0 right_spot_local
              14 (33 # 2) (- (2)) straight_lane_samples R)
    as [Right _].
  - repeat split.
  - repeat constructor; discriminate.
  - repeat constructor; discriminate.
  - destruct (Right eq_refl) as (r & E & _ & S & _).
    exists r. split; [exact E | exact S].
Defined.

(** C7 fails on the straight lane.  The spot is on the right
    ([average_l = -2]); the builder records two stations, the near
    bracket is index 0, and no point of the right edge is copied in
    front of the spot corners: the polyline starts at the left-top corner
    of the spot and ends at the first point of the right edge. *)
Lemma straight_lane_boundary_not_closed :
  exists st first last,
    @locate_and_stitch QuarterTurns AxisBox example_config straight_lane_map
      100 (frame_with_vehicle 15 0) = Returns (Some st)
    /\ front (boundary_points st) = Some first
    /\ back (boundary_points st) = Some last
    /\ veq first (P 0 0) /\ veq last (P (- (35 # 4)) 0)
    /\ ~ veq first last.
Proof.
  eexists. eexists. eexists.
  split; [vm_compute; reflexivity|].
  split; [vm_compute; reflexivity|].
  split; [vm_compute; reflexivity|].
  split; [split; reflexivity|].
  split; [split; reflexivity|].
  intros [E _]. discriminate E.
Qed.

(** C3 fails for a longitudinal range of 1.  The recorded stations are
    [57/4] and [65/4], the right-top corner projects to [33/2], the upper
    bound search returns 2, the length of the arrays, and the right
    stitching segment reads the rescaled edge at that index. *)
Lemma short_range_far_bracket_out_of_range :
  (exists smp,
     @Builder.BuildLaneBoundary QuarterTurns short_range_config straight_lane
       (57 # 4) (65 # 4) 100 = Returns smp
     /\ Builder.center_lane_s smp = [57 # 4; 65 # 4]
     /\ Stitcher.upper_bound (Builder.center_lane_s smp) (33 # 2) = 2%nat
     /\ length (Builder.right_lane_boundary smp) = 2%nat)
  /\ @locate_and_stitch QuarterTurns AxisBox short_range_config
       straight_lane_map 100 (frame_with_vehicle 15 0) = Undefined
  /\ @Process QuarterTurns AxisBox AxisBoxOps short_range_config
       example_vehicle_params straight_lane_map 100
       (Some (frame_with_vehicle 15 0)) = Undefined.
Proof.
  split; [eexists; split; [vm_compute; reflexivity | repeat split]|].
  split; reflexivity.
Qed.

(** The vehicle 100 above the lane: the box of the boundary is
    [-35/4, 45/4] by [-5, 4] and the vehicle is at [(1, 102)] in the
    parking frame. *)
Lemma vehicle_outside_roi_fails_witness :
  exists frame',
    @Process QuarterTurns AxisBox AxisBoxOps example_config
      example_vehicle_params straight_lane_map 100
      (Some (frame_with_vehicle 15 100))
    = Returns ({| code := PLANNING_ERROR;
                  error_message :=
                    "Fail to get parking boundary from map"%string |},
               Some frame')
    /\ open_space_end_pose (open_space_info frame') = [].
Proof.
  edestruct (@vehicle_outside_roi_fails QuarterTurns AxisBox AxisBoxOps
               example_config example_vehicle_params straight_lane_map
               100%nat (frame_with_vehicle 15 100))
    as (frame' & _ & Pr & _ & Pose & _).
  - discriminate.
  - vm_compute. reflexivity.
  - vm_compute. reflexivity.
  - vm_compute. reflexivity.
  - right. right. right. reflexivity.
  - exists frame'. split; [exact Pr | exact Pose].
Defined.

End StraightLaneFacts.

(** ** The segment fuser: points, turns and two-point segments *)

Section FuserMore.
Import Fuser.

Lemma back_some_app {A : Type} (l s : list A) :
  s <> [] -> back (l ++ s) = back s.
Proof.
  intros Ne. induction l as [|a l IH]; [reflexivity|].
  simpl. destruct (l ++ s) eqn:E; [|exact IH].
  destruct l; simpl in E; [congruence | discriminate].
Qed.

Lemma back_snoc_inv {A : Type} (s : list A) (a : A) :
  back s = Some a -> exists s', s = s' ++ [a].
Proof.
  induction s as [|b s IH]; [discriminate|].
  destruct s as [|c s]; simpl.
  - intros [= ->]. now exists [].
  - intros B. destruct (IH B) as [s' E]. exists (b :: s'). simpl. now rewrite <- E.
Qed.

Lemma back_nth {A : Type} (s : list A) (a : A) :
  back s = Some a -> nth_error s (length s - 1) = Some a.
Proof.
  intros B. destruct (back_snoc_inv s a B) as [s' ->].
  rewrite length_app, nth_error_app2; simpl; [|lia].
  now replace (length s' + 1 - 1 - length s')%nat with 0%nat by lia.
Qed.

Lemma back_none {A : Type} (s : list A) : back s = None -> s = [].
Proof.
  induction s as [|a s IH]; [reflexivity|].
  destruct s as [|b s]; [discriminate|].
  intros B. specialize (IH B). discriminate.
Qed.

(** One pass through the loop body, with what it read. *)
Lemma loop_body_cases dn s t rs :
  match loop_body dn s t rs with
  | Continue c' =>
      (c' = mkCursor (dn ++ [s]) t rs /\ s <> [] /\ t <> [])
      \/ (exists a p q0 q t',
            back s = Some a /\ nth_error s (length s - 2) = Some p
            /\ (2 <= length s)%nat /\ t = q0 :: q :: t'
            /\ DistanceTo_gt a q0 kEpsilon = false /\ CrossProd p a q < 0
            /\ c' = mkCursor dn (s ++ [q])
                      (match t' with [] => rs | _ :: _ => t' :: rs end))
  | Exit ok v => ok = false /\ v = dn ++ s :: t :: rs
  | Fault => s = [] \/ t = []
  end.
Proof.
  unfold loop_body.
  destruct (back s) as [a|] eqn:Ha; [|left; now apply back_none].
  destruct t as [|q0 t]; [right; reflexivity|]. cbn [front hd_error].
  assert (s <> []) as Ns by (intros ->; discriminate).
  destruct (DistanceTo_gt a q0 kEpsilon) eqn:Hfar.
  - left. repeat split; trivial. discriminate.
  - destruct ((length s <? 2)%nat || (length (q0 :: t) <? 2)%nat) eqn:Hshort;
      [split; reflexivity|].
    apply orb_false_iff in Hshort. destruct Hshort as [Hs Ht].
    apply Nat.ltb_ge in Hs, Ht.
    destruct (nth_error s (length s - 2)) as [p|] eqn:Hp;
      [|apply nth_error_None in Hp; lia].
    destruct t as [|q t']; [simpl in Ht; lia|]. cbn [nth_error].
    destruct (Qltb (CrossProd p a q) 0) eqn:C.
    + apply Qltb_lt in C. cbn [skipn].
      destruct t' as [|z t']; right;
        [exists a, p, q0, q, [] | exists a, p, q0, q, (z :: t')];
        repeat split; trivial.
    + left. repeat split; trivial. discriminate.
Qed.

Lemma thinned_refl l : thinned l l.
Proof. induction l; constructor; trivial. Qed.

Lemma thinned_app l1 l1' l2 l2' :
  thinned l1 l1' -> thinned l2 l2' -> thinned (l1 ++ l2) (l1' ++ l2').
Proof.
  induction 1 as [|a l l' T1 IH|a b l l' C T1 IH]; intros T; simpl.
  - exact T.
  - apply thinned_keep, IH, T.
  - apply thinned_drop; [exact C | apply IH, T].
Qed.

Lemma thinning_step orig c :
  thinning_state orig c ->
  match fuse_step c with
  | Continue c' => thinning_state orig c'
  | Exit ok v => thinned orig (concat v)
  | Fault => True
  end.
Proof.
  destruct c as [dn s rs]. intros (l & l' & a & EP & EO & T).
  unfold fuse_step. cbn [done cur rest] in *.
  destruct rs as [|t rs].
  - subst orig. rewrite concat_app. simpl. rewrite !app_nil_r, EP.
    apply thinned_app; [exact T | apply thinned_refl].
  - pose proof (loop_body_cases dn s t rs) as I.
    destruct (loop_body dn s t rs) as [c'|ok v|];
      [|destruct I as [_ ->]|constructor].
    + destruct I as [(-> & Ns & Nt)|(a' & p & q0 & q & t' & Ha & _ & _ & -> & Cl & _ & ->)].
      * destruct (exists_last Nt) as (t0 & z & ->).
        exists (l ++ [a] ++ t0), (l' ++ [a] ++ t0), z. cbn [done cur rest].
        repeat split.
        -- rewrite concat_app. simpl. rewrite app_nil_r, app_assoc, EP.
           now rewrite <- !app_assoc.
        -- subst orig. simpl. now rewrite <- !app_assoc.
        -- apply thinned_app; [exact T | apply thinned_refl].
      * assert (a' = a) as ->.
        { assert (s <> []) as Ns by (intros ->; discriminate).
          rewrite <- (back_some_app (concat dn) s Ns), EP, back_app_one in Ha.
          congruence. }
        exists (l ++ [a; q0]), (l' ++ [a]), q. cbn [done cur rest].
        repeat split.
        -- now rewrite app_assoc, EP.
        -- subst orig. destruct t'; simpl; now rewrite <- !app_assoc.
        -- apply thinned_app; [exact T|].
           apply thinned_drop; [exact Cl | constructor].
    + subst orig. rewrite concat_app.
      change (concat (s :: t :: rs)) with (s ++ concat (t :: rs)).
      rewrite app_assoc, EP.
      apply thinned_app; [|apply thinned_refl].
      apply thinned_app; [exact T | apply thinned_refl].
Qed.

Lemma fuse_loop_thinned orig fuel : forall c ok out,
  thinning_state orig c -> fuse_loop fuel c = Returns (ok, out) ->
  thinned orig (concat out).
Proof.
  induction fuel as [|fuel IH]; intros c ok out S; simpl;
    pose proof (thinning_step orig c S) as St;
    destruct (fuse_step c) as [c'|ok' v|]; try discriminate;
    try (intros [= _ <-]; exact St).
  intros R. apply (IH c' ok out St R).
Qed.

Lemma chain_snoc s a p q :
  clockwise_chain s -> back s = Some a ->
  nth_error s (length s - 2) = Some p -> (2 <= length s)%nat ->
  CrossProd p a q < 0 -> clockwise_chain (s ++ [q]).
Proof.
  intros Ch Ha Hp L C i p0 q0 r0 E1 E2 E3.
  apply back_nth in Ha.
  assert (S (S i) < length (s ++ [q]))%nat as B
    by (apply nth_error_Some; congruence).
  rewrite length_app in B. simpl in B.
  destruct (Nat.eq_dec (S (S i)) (length s)) as [E|N].
  - rewrite nth_error_app1 in E1, E2 by lia.
    rewrite nth_error_app2 in E3 by lia.
    replace (S (S i) - length s)%nat with 0%nat in E3 by lia.
    replace (length s - 2)%nat with i in Hp by lia.
    replace (length s - 1)%nat with (S i) in Ha by lia.
    simpl in E3. congruence.
  - rewrite nth_error_app1 in E1, E2, E3 by lia.
    apply (Ch i); trivial.
Qed.

Lemma chain_skip2 q0 q t : clockwise_chain (q0 :: q :: t) -> clockwise_chain t.
Proof. intros Ch i p0 q1 r0 E1 E2 E3. apply (Ch (S (S i))); trivial. Qed.

Lemma fuse_step_chains c :
  Forall clockwise_chain (done c ++ cur c :: rest c) ->
  match fuse_step c with
  | Continue c' => Forall clockwise_chain (done c' ++ cur c' :: rest c')
  | Exit ok v => Forall clockwise_chain v
  | Fault => True
  end.
Proof.
  destruct c as [dn s rs]. unfold fuse_step. cbn [done cur rest].
  intros F. destruct rs as [|t rs].
  - rewrite Forall_app in *. destruct F as [Fd Fs]. split; trivial.
  - pose proof (loop_body_cases dn s t rs) as I.
    destruct (loop_body dn s t rs) as [c'|ok v|];
      [|destruct I as [_ ->]; exact F|constructor].
    destruct I as [(-> & _)|(a & p & q0 & q & t' & Ha & Hp & L & -> & _ & C & ->)];
      cbn [done cur rest].
    + now rewrite <- app_assoc.
    + rewrite Forall_app in *. destruct F as [Fd Fs].
      inversion Fs as [|? ? Cs Fr]; subst.
      inversion Fr as [|? ? Ct Frs]; subst.
      split; [exact Fd|]. constructor; [now apply (chain_snoc s a p q)|].
      destruct t' as [|z t']; [exact Frs|].
      constructor; [now apply (chain_skip2 q0 q) | exact Frs].
Qed.

Lemma fuse_loop_chains fuel : forall c ok out,
  Forall clockwise_chain (done c ++ cur c :: rest c) ->
  fuse_loop fuel c = Returns (ok, out) -> Forall clockwise_chain out.
Proof.
  induction fuel as [|fuel IH]; intros c ok out F; simpl;
    pose proof (fuse_step_chains c F) as St;
    destruct (fuse_step c) as [c'|ok' v|]; try discriminate;
    try (intros [= _ <-]; exact St).
  intros R. apply (IH c' ok out St R).
Qed.

Lemma two_point_step c :
  two_point_state c ->
  match fuse_step c with
  | Continue c' => two_point_state c'
  | Exit ok v => ok = true /\ Forall (fun s => (2 <= length s)%nat) v
  | Fault => False
  end.
Proof.
  destruct c as [dn s rs]. unfold fuse_step, two_point_state.
  cbn [done cur rest]. intros (Fd & Ls & Fr). destruct rs as [|t rs].
  - split; [reflexivity|]. apply Forall_app. split; [exact Fd|].
    constructor; [exact Ls | constructor].
  - inversion Fr as [|? ? Lt Frs]; subst.
    pose proof (loop_body_cases dn s t rs) as I.
    pose proof (loop_body_inv dn s t rs) as J.
    destruct (loop_body dn s t rs) as [c'|ok v|].
    + destruct I as [(-> & _)|(a & p & q0 & q & t' & _ & _ & _ & -> & _ & _ & ->)];
        cbn [done cur rest].
      * repeat split; [|lia|exact Frs]. apply Forall_app. split; [exact Fd|].
        constructor; [exact Ls | constructor].
      * destruct t' as [|z t']; [|simpl in Lt; lia].
        repeat split; [exact Fd | rewrite length_app; simpl; lia | exact Frs].
    + destruct J as (_ & _ & (a & b & _ & _ & _ & [Sh|Sh])); lia.
    + destruct I as [->| ->]; simpl in *; lia.
Qed.

Lemma fuse_loop_two_point fuel : forall c,
  two_point_state c -> (work (rest c) <= fuel)%nat ->
  exists out,
    fuse_loop fuel c = Returns (true, out)
    /\ Forall (fun s => (2 <= length s)%nat) out.
Proof.
  induction fuel as [|fuel IH]; intros c S W; simpl;
    pose proof (two_point_step c S) as St;
    destruct (fuse_step c) as [c'|ok v|] eqn:E; try (exfalso; exact St);
    try (destruct St as [-> F]; now exists v).
  - apply step_work in E. lia.
  - apply IH; [exact St|]. apply step_work in E. lia.
Qed.

End FuserMore.

Section FuserMoreResults.
Import Fuser.
Local Abbreviation P := mkVec2d.

Lemma short_chain (s : segment) : (length s <= 2)%nat -> clockwise_chain s.
Proof.
  intros L i p q r _ _ E.
  assert (S (S i) < length s)%nat by (apply nth_error_Some; congruence). lia.
Qed.

(** X2.  Whatever [FuseLineSegments] returns, the points of the vector it
    leaves, read in order, are the points of the vector it was given with
    some of them taken out; each point taken out lies within [kEpsilon] of
    the point just before it, and that point stays.  No point is added,
    moved or changed. *)
Theorem fuse_only_drops_joint_points (v : list segment) (ok : bool)
    (out : list segment) :
  FuseLineSegments v = Returns (ok, out) -> thinned (concat v) (concat out).
Proof.
  destruct v as [|first others]; [discriminate|]. unfold FuseLineSegments.
  destruct first as [|p first].
  - destruct others as [|t others]; [|destruct (work (t :: others)); discriminate].
    destruct (work []); intros [= _ <-]; constructor.
  - apply fuse_loop_thinned.
    destruct (@exists_last _ (p :: first)) as (l & a & E); [discriminate|].
    exists l, l, a. cbn [done cur rest concat app].
    split; [exact E|]. split; [|apply thinned_refl].
    change (p :: first ++ concat others) with ((p :: first) ++ concat others).
    now rewrite E.
Qed.

Lemma fuse_only_drops_joint_points_witness :
  FuseLineSegments [[P 0 0; P 1 0]; [P 1 0; P 1 (-1)]; [P 1 (-1); P 2 (-1)]]
  = Returns (true, [[P 0 0; P 1 0; P 1 (-1)]; [P 1 (-1); P 2 (-1)]])
  /\ thinned [P 0 0; P 1 0; P 1 0; P 1 (-1); P 1 (-1); P 2 (-1)]
             [P 0 0; P 1 0; P 1 (-1); P 1 (-1); P 2 (-1)].
Proof.
  split; [reflexivity|].
  apply (fuse_only_drops_joint_points
           [[P 0 0; P 1 0]; [P 1 0; P 1 (-1)]; [P 1 (-1); P 2 (-1)]] true
           [[P 0 0; P 1 0; P 1 (-1)]; [P 1 (-1); P 2 (-1)]]).
  reflexivity.
Defined.

(** X3.  If every segment given to [FuseLineSegments] turns clockwise at
    each of its inner vertices (as every segment of at most two points
    does), so does every segment of the vector it leaves: a point is only
    pushed behind a segment when the turn it makes there has a negative
    cross product. *)
Theorem fuse_keeps_clockwise_chains (v : list segment) (ok : bool)
    (out : list segment) :
  Forall clockwise_chain v -> FuseLineSegments v = Returns (ok, out) ->
  Forall clockwise_chain out.
Proof.
  destruct v as [|first others]; [discriminate|].
  intros F. apply fuse_loop_chains. exact F.
Qed.

Lemma fuse_keeps_clockwise_chains_witness :
  Forall clockwise_chain
         [[P 0 0; P 1 0]; [P 1 0; P 1 (-1)]; [P 1 (-1); P 2 (-1)]]
  /\ Forall clockwise_chain [[P 0 0; P 1 0; P 1 (-1)]; [P 1 (-1); P 2 (-1)]].
Proof.
  assert (Forall clockwise_chain
            [[P 0 0; P 1 0]; [P 1 0; P 1 (-1)]; [P 1 (-1); P 2 (-1)]]) as F
    by (repeat constructor; apply short_chain; repeat constructor).
  split; [exact F|].
  apply (fuse_keeps_clockwise_chains _ true _ F). reflexivity.
Defined.

(** X4.  On a non-empty vector whose segments all have exactly two points
    [FuseLineSegments] returns true, without reading outside any vector,
    and every segment of the vector it leaves has at least two points. *)
Theorem fuse_two_point_vector (v : list segment) :
  v <> [] -> Forall (fun s => length s = 2%nat) v ->
  exists out,
    FuseLineSegments v = Returns (true, out)
    /\ Forall (fun s => (2 <= length s)%nat) out.
Proof.
  destruct v as [|first others]; [congruence|]. intros _ F.
  inversion F as [|? ? L Fo]; subst.
  apply fuse_loop_two_point; [|apply Nat.le_refl].
  repeat split; [constructor | cbn [cur]; lia | exact Fo].
Qed.

Lemma fuse_two_point_vector_witness :
  exists out,
    FuseLineSegments [[P 0 0; P 1 0]; [P 1 0; P 1 (-1)]; [P 5 5; P 6 6]]
    = Returns (true, out)
    /\ Forall (fun s => (2 <= length s)%nat) out.
Proof.
  apply fuse_two_point_vector; [discriminate | repeat constructor].
Defined.

End FuserMoreResults.

(** ** The hyperplane generator: lines through the vertices, bounds *)

Section HyperPlaneMore.
Import HyperPlanes.
Local Abbreviation P := mkVec2d.

(** X5.  The line of a row always passes through the first vertex of its
    edge.  It passes through the second vertex as well when the edge is
    exactly axis-aligned or not axis-aligned within [kEpsilon]; for an
    edge within [kEpsilon] of the vertical whose abscissas differ it does
    not.  The normal [(A_i0, A_i1)] is never zero. *)
Theorem edge_hyperplane_through (v1 v2 : Vec2d) :
  axis_exact v1 v2 ->
  row_value (edge_hyperplane v1 v2) v1 == snd (edge_hyperplane v1 v2)
  /\ row_value (edge_hyperplane v1 v2) v2 == snd (edge_hyperplane v1 v2)
  /\ ~ (fst (fst (edge_hyperplane v1 v2)) == 0
        /\ snd (fst (edge_hyperplane v1 v2)) == 0)
  /\ forall w2,
       Qabs (x v1 - x w2) < kEpsilon -> ~ x v1 == x w2 ->
       row_value (edge_hyperplane v1 w2) v1 == snd (edge_hyperplane v1 w2)
       /\ ~ row_value (edge_hyperplane v1 w2) w2 == snd (edge_hyperplane v1 w2).
Proof.
  intros [Hv Hh].
  assert (forall u1 u2,
            row_value (edge_hyperplane u1 u2) u1 == snd (edge_hyperplane u1 u2))
    as First.
  { intros u1 u2. unfold edge_hyperplane, row_value, solve_line.
    destruct (Qltb (Qabs (x u1 - x u2)) kEpsilon) eqn:V.
    - destruct (Qltb (y u2) (y u1)); cbn [fst snd]; ring.
    - apply Qltb_ge in V.
      assert (~ Qabs (x u1 - x u2) < kEpsilon) as NV by (apply Qle_not_lt, V).
      pose proof (Qabs_small_nonzero _ NV) as Nz.
      destruct (Qltb (Qabs (y u1 - y u2)) kEpsilon).
      + destruct (Qltb (x u1) (x u2)); cbn [fst snd]; ring.
      + assert (~ x u1 * 1 - 1 * x u2 == 0) as Nd by (intros E; apply Nz; lra).
        destruct (Qltb (x u1) (x u2)); cbn [fst snd]; field;
          first [exact Nz | exact Nd]. }
  split; [apply First|]. split; [|split].
  - unfold edge_hyperplane, row_value, solve_line.
    destruct (Qltb (Qabs (x v1 - x v2)) kEpsilon) eqn:V.
    + apply Qltb_lt in V. specialize (Hv V).
      destruct (Qltb (y v2) (y v1)); cbn [fst snd]; lra.
    + apply Qltb_ge in V.
      assert (~ Qabs (x v1 - x v2) < kEpsilon) as NV by (apply Qle_not_lt, V).
      pose proof (Qabs_small_nonzero _ NV) as Nz.
      destruct (Qltb (Qabs (y v1 - y v2)) kEpsilon) eqn:Hz.
      * apply Qltb_lt in Hz. specialize (Hh NV Hz).
        destruct (Qltb (x v1) (x v2)); cbn [fst snd]; lra.
      * assert (~ x v1 * 1 - 1 * x v2 == 0) as Nd by (intros E; apply Nz; lra).
        destruct (Qltb (x v1) (x v2)); cbn [fst snd]; field;
          first [exact Nz | exact Nd].
  - unfold edge_hyperplane, solve_line.
    destruct (Qltb (Qabs (x v1 - x v2)) kEpsilon);
      [destruct (Qltb (y v2) (y v1))|
       destruct (Qltb (Qabs (y v1 - y v2)) kEpsilon);
       destruct (Qltb (x v1) (x v2))];
      cbn [fst snd]; intros [E1 E2]; try discriminate E1; discriminate E2.
  - intros w2 Near Ne. split; [apply First|].
    unfold edge_hyperplane, row_value.
    rewrite (proj2 (Qltb_lt _ _) Near).
    destruct (Qltb (y w2) (y v1)); cbn [fst snd]; intros E; apply Ne; lra.
Qed.

Lemma edge_hyperplane_through_witness :
  axis_exact (P 0 0) (P 2 1)
  /\ row_value (edge_hyperplane (P 0 0) (P 2 1)) (P 2 1)
     == snd (edge_hyperplane (P 0 0) (P 2 1)).
Proof.
  assert (axis_exact (P 0 0) (P 2 1)) as Ax.
  { split; [intros L; discriminate L | intros _ L; discriminate L]. }
  split; [exact Ax|].
  apply (edge_hyperplane_through (P 0 0) (P 2 1) Ax).
Defined.

Lemma piece_rows_returns piece : forall todo j,
  todo = 0%nat \/ (j + todo < length piece)%nat ->
  exists rows, piece_rows piece j todo = Returns rows.
Proof.
  induction todo as [|todo IH]; intros j B; simpl; [now exists []|].
  destruct B as [B|B]; [discriminate|].
  destruct (nth_error piece j) as [v1|] eqn:E1;
    [|apply nth_error_None in E1; lia].
  destruct (nth_error piece (S j)) as [v2|] eqn:E2;
    [|apply nth_error_None in E2; lia].
  destruct (IH (S j)) as [rows R]; [destruct todo; [now left | right; lia]|].
  unfold index. rewrite E1, E2. cbn [bind]. rewrite R. cbn [bind].
  now eexists.
Qed.

Lemma list_sum_firstn_le (l : list nat) (k : nat) :
  (list_sum (firstn k l) <= list_sum l)%nat.
Proof.
  revert k. induction l as [|a l IH]; intros [|k]; simpl; try lia.
  specialize (IH k). lia.
Qed.

Lemma skipn_nth_cons {A : Type} (l : list A) (i : nat) (a : A) :
  nth_error l i = Some a -> skipn i l = a :: skipn (S i) l.
Proof.
  revert i. induction l as [|b l IH]; intros [|i]; simpl; try discriminate.
  - now intros [= ->].
  - apply IH.
Qed.

(** With every count below the number of vertices of its piece, the outer
    loop stays inside the pieces and inside [A] and [b]. *)
Lemma obstacles_loop_returns edges vertices : forall todo i counter A0 b0,
  (forall k, (k < todo)%nat ->
     exists n piece, nth_error edges (i + k) = Some n
       /\ nth_error vertices (i + k) = Some piece
       /\ (n = 0%nat \/ (n < length piece)%nat)) ->
  (counter + list_sum (firstn todo (skipn i edges)) <= length A0)%nat ->
  (counter + list_sum (firstn todo (skipn i edges)) <= length b0)%nat ->
  exists A b, obstacles_loop todo i counter edges vertices A0 b0 = Returns (A, b).
Proof.
  induction todo as [|todo IH]; intros i counter A0 b0 Ok LA Lb; simpl;
    [now exists A0, b0|].
  destruct (Ok 0%nat ltac:(lia)) as (n & piece & En & Ep & Bn).
  rewrite Nat.add_0_r in En, Ep.
  rewrite (skipn_nth_cons _ _ _ En) in LA, Lb.
  rewrite firstn_cons in LA, Lb.
  change (list_sum (n :: ?l)) with (n + list_sum l)%nat in LA, Lb.
  destruct (piece_rows_returns piece n 0) as [rows R];
    [destruct Bn; [now left | right; lia]|].
  destruct (piece_rows_spec _ _ _ _ R) as [Lr _].
  unfold index. rewrite En, Ep. cbn [bind]. rewrite R. cbn [bind].
  unfold write_block. rewrite !length_map. unfold row in *. rewrite Lr.
  rewrite (proj2 (Nat.leb_le _ _)) by lia. cbn [bind].
  rewrite (proj2 (Nat.leb_le _ _)) by lia. cbn [bind].
  apply IH.
  - intros k Hk. destruct (Ok (S k) ltac:(lia)) as (n' & piece' & E1 & E2 & B).
    exists n', piece'. rewrite Nat.add_succ_r in E1, E2. now repeat split.
  - rewrite !length_app, length_firstn, length_map, length_skipn. lia.
  - rewrite !length_app, length_firstn, length_map, length_skipn. lia.
Qed.

(** X6.  For as many pieces as [obstacles_num] says and an edge count for
    each of them, [GetHyperPlanes] returns true exactly when every edge
    count that is not zero is below the number of vertices of its piece;
    otherwise it reads past the end of a piece. *)
Theorem GetHyperPlanes_defined (obstacles_num : nat) (edges : list nat)
    (vertices : list (list Vec2d)) (A0 : MatrixA) (b0 : VectorB) :
  obstacles_num = length vertices -> length edges = obstacles_num ->
  ((exists A b,
      GetHyperPlanes obstacles_num edges vertices A0 b0 = Returns (true, (A, b)))
   <-> (forall i n piece,
          nth_error edges i = Some n -> nth_error vertices i = Some piece ->
          n = 0%nat \/ (n < length piece)%nat)).
Proof.
  intros N Le. split.
  - intros (A & b & G) i n piece En Ep.
    destruct (GetHyperPlanes_rows _ _ _ _ _ _ _ G) as (_ & _ & _ & R).
    destruct n as [|n]; [now left | right].
    destruct (R i (S n) piece n En Ep ltac:(lia)) as (v1 & v2 & _ & V2 & _).
    apply nth_error_Some. congruence.
  - intros Ok. unfold GetHyperPlanes.
    rewrite (proj2 (Nat.eqb_eq _ _) N). cbn [negb].
    destruct (obstacles_loop_returns edges vertices obstacles_num 0 0
                (resize (0, 0) (list_sum edges) A0)
                (resize 0 (list_sum edges) b0)) as (A & b & R).
    + intros k Hk. simpl.
      destruct (nth_error edges k) as [n|] eqn:En;
        [|apply nth_error_None in En; lia].
      destruct (nth_error vertices k) as [piece|] eqn:Ep;
        [|apply nth_error_None in Ep; lia].
      exists n, piece. repeat split. apply (Ok k n piece En Ep).
    + rewrite resize_length. apply list_sum_firstn_le.
    + rewrite resize_length. apply list_sum_firstn_le.
    + exists A, b. rewrite R. reflexivity.
Qed.

Lemma GetHyperPlanes_defined_witness :
  exists A b,
    GetHyperPlanes 2 [4; 1]%nat [counterclockwise_square; [P 0 0; P 1 2]] [] []
    = Returns (true, (A, b)).
Proof.
  apply (proj2 (GetHyperPlanes_defined 2 [4; 1]%nat
                  [counterclockwise_square; [P 0 0; P 1 2]] [] []
                  eq_refl eq_refl)).
  intros [|[|i]] n piece E1 E2; simpl in *;
    try (destruct i; discriminate);
    injection E1 as <-; injection E2 as <-; right; simpl; lia.
Defined.

End HyperPlaneMore.

(** ** Vertex loading: stale frames, aborts, perception pieces *)

Section ObstacleMore.
Import Obstacles.
Context `{Math} {Box2d : Type} `{BoxOps Box2d}.
Variable config : OpenSpaceRoiDeciderConfig.
Variable vehicle_state : VehicleState.

Lemma parking_boundaries_edges_num_cases roi :
  (Forall (fun piece => (1 < length piece)%nat) roi
   /\ parking_boundaries_edges_num roi
      = Returns (map (fun piece => (length piece - 1)%nat) roi))
  \/ (Exists (fun piece => (length piece <= 1)%nat) roi
      /\ parking_boundaries_edges_num roi = Aborted).
Proof.
  induction roi as [|piece roi IH]; simpl; [left; now split|].
  destruct (1 <? length piece)%nat eqn:L.
  - apply Nat.ltb_lt in L.
    destruct IH as [[F E]|[X E]]; rewrite E; cbn [bind].
    + left. split; [now constructor | reflexivity].
    + right. split; [now apply Exists_cons_tl | reflexivity].
  - apply Nat.ltb_ge in L. right. split; [now apply Exists_cons_hd | reflexivity].
Qed.

Lemma FilterOutObstacle_not_aborted info o :
  FilterOutObstacle config vehicle_state info o <> Aborted.
Proof.
  unfold FilterOutObstacle, index.
  destruct (IsVirtual o); [discriminate|].
  repeat match goal with
         | |- context [nth_error ?l ?i] => destruct (nth_error l i); cbn [bind]
         | |- context [if ?c then _ else _] => destruct c
         end; discriminate.
Qed.

Lemma perception_vertices_not_aborted info items :
  perception_vertices config vehicle_state info items <> Aborted.
Proof.
  induction items as [|o items IH]; simpl; [discriminate|].
  pose proof (FilterOutObstacle_not_aborted info o) as F.
  destruct (FilterOutObstacle config vehicle_state info o) as [[|]| | |];
    cbn [bind]; try discriminate; try congruence.
  unfold obstacle_vertices, front_of, index.
  destruct (nth_error _ 0); cbn [bind]; [|discriminate].
  destruct (perception_vertices config vehicle_state info items);
    cbn [bind]; try discriminate; congruence.
Qed.

Lemma perception_vertices_length info : forall items pieces,
  perception_vertices config vehicle_state info items = Returns pieces ->
  (length pieces <= length items)%nat.
Proof.
  induction items as [|o items IH]; simpl; intros pieces.
  - intros [= <-]. simpl. lia.
  - intros E. apply bind_returns in E as (filtered & _ & E).
    destruct filtered; [specialize (IH _ E); lia|].
    apply bind_returns in E as (piece & _ & E).
    apply bind_returns in E as (more & Em & [= <-]).
    specialize (IH _ Em). simpl. lia.
Qed.

Lemma LoadObstacleInVertices_returns (roi : list (list Vec2d))
    (items : list (Obstacle Box2d)) (info : OpenSpaceInfo) ok info' :
  LoadObstacleInVertices config vehicle_state roi items info
  = Returns (ok, info') ->
  ok = true
  /\ exists perception,
       obstacles_vertices_vec info'
       = obstacles_vertices_vec info ++ roi ++ perception
       /\ obstacles_num info' = (length roi + length perception)%nat
       /\ obstacles_edges_num info'
          = map (fun piece => (length piece - 1)%nat) roi
            ++ repeat 4%nat (length perception)
       /\ (length perception <= length items)%nat
       /\ (enable_perception_obstacles config = false -> perception = []).
Proof.
  unfold LoadObstacleInVertices.
  destruct (parking_boundaries_edges_num_cases roi) as [[F E]|[X E]];
    rewrite E; cbn [bind]; [|discriminate].
  destruct (enable_perception_obstacles config).
  - intros R. apply bind_returns in R as (perception & Ep & [= <- <-]).
    split; [reflexivity|]. exists perception. cbn.
    rewrite <- app_assoc. repeat split; trivial.
    + now apply perception_vertices_length in Ep.
    + discriminate.
  - intros [= <- <-]. split; [reflexivity|]. exists []. cbn.
    rewrite !app_nil_r. repeat split; trivial; lia.
Qed.

(** X7.  [LoadObstacleInVertices] aborts exactly when a boundary piece has
    fewer than two points, whatever the perception obstacles are.  When
    it returns it returns true: the boundary pieces and then the
    perception pieces (none with perception disabled, at most one per
    obstacle otherwise) are appended behind the pieces the frame already
    holds, while the edge counts and the obstacle count are written for
    the pieces of this call only. *)
Theorem LoadObstacleInVertices_outcome (roi : list (list Vec2d))
    (items : list (Obstacle Box2d)) (info : OpenSpaceInfo) :
  (LoadObstacleInVertices config vehicle_state roi items info = Aborted
   <-> Exists (fun piece => (length piece <= 1)%nat) roi)
  /\ forall ok info',
       LoadObstacleInVertices config vehicle_state roi items info
       = Returns (ok, info') ->
       ok = true
       /\ exists perception,
            obstacles_vertices_vec info'
            = obstacles_vertices_vec info ++ roi ++ perception
            /\ obstacles_num info' = (length roi + length perception)%nat
            /\ obstacles_edges_num info'
               = map (fun piece => (length piece - 1)%nat) roi
                 ++ repeat 4%nat (length perception)
            /\ (length perception <= length items)%nat
            /\ (enable_perception_obstacles config = false -> perception = []).
Proof.
  unfold LoadObstacleInVertices.
  destruct (parking_boundaries_edges_num_cases roi) as [[F E]|[X E]];
    rewrite E; cbn [bind].
  - split.
    + split.
      * intros A. exfalso.
        destruct (enable_perception_obstacles config); [|discriminate].
        pose proof (perception_vertices_not_aborted info items) as NA.
        destruct (perception_vertices config vehicle_state info items);
          cbn [bind] in A; try discriminate. now apply NA.
      * intros X. exfalso. apply Exists_exists in X as (piece & I & L).
        rewrite Forall_forall in F. specialize (F _ I). lia.
    + intros ok info' R.
      apply (LoadObstacleInVertices_returns roi items info).
      unfold LoadObstacleInVertices. rewrite E. exact R.
  - split; [now split | discriminate].
Qed.

(** X8.  A frame whose open-space record already holds vertex lists (the
    decider appends and never clears them) is never accepted:
    [FormulateBoundaryConstraints] does not return true on it, and
    whenever the vertex loading returns, the hyperplane step refuses the
    count of obstacles and the whole call returns false, leaving [A] and
    [b] zero with one row per recorded edge. *)
Theorem stale_vertices_refused (roi : list (list Vec2d))
    (items : list (Obstacle Box2d)) (info : OpenSpaceInfo) :
  obstacles_vertices_vec info <> [] ->
  (forall info',
     FormulateBoundaryConstraints config vehicle_state roi items info
     <> Returns (true, info'))
  /\ forall ok info1,
       LoadObstacleInVertices config vehicle_state roi items info
       = Returns (ok, info1) ->
       FormulateBoundaryConstraints config vehicle_state roi items info
       = Returns (false,
                  set_hyperplanes info1
                    (repeat (0, 0) (list_sum (obstacles_edges_num info1)),
                     repeat 0 (list_sum (obstacles_edges_num info1)))).
Proof.
  intros Stale.
  assert (forall ok info1,
            LoadObstacleInVertices config vehicle_state roi items info
            = Returns (ok, info1) ->
            FormulateBoundaryConstraints config vehicle_state roi items info
            = Returns (false,
                       set_hyperplanes info1
                         (repeat (0, 0) (list_sum (obstacles_edges_num info1)),
                          repeat 0 (list_sum (obstacles_edges_num info1)))))
    as Refused.
  { intros ok info1 L.
    destruct (LoadObstacleInVertices_returns roi items info _ _ L)
      as (-> & perception & V & N & _).
    unfold FormulateBoundaryConstraints. rewrite L. cbn [bind negb].
    unfold LoadObstacleInHyperPlanes, HyperPlanes.GetHyperPlanes.
    cbn [obstacles_num obstacles_vertices_vec obstacles_edges_num
         obstacles_A obstacles_b set_hyperplanes fst snd].
    rewrite V, N.
    destruct (Nat.eqb_spec (length roi + length perception)
                (length (obstacles_vertices_vec info ++ roi ++ perception)))
      as [E|_].
    - rewrite !length_app in E.
      destruct (obstacles_vertices_vec info); [congruence | simpl in E; lia].
    - reflexivity. }
  split; [|exact Refused].
  intros info' R.
  unfold FormulateBoundaryConstraints in R.
  destruct (LoadObstacleInVertices config vehicle_state roi items info)
    as [[ok info1]| | |] eqn:L; try discriminate R.
  pose proof (Refused _ _ eq_refl) as R'.
  unfold FormulateBoundaryConstraints in R'. rewrite L in R'.
  rewrite R in R'. discriminate R'.
Qed.

(** X9.  Every perception piece pushed by the vertex loading comes from
    an obstacle of the frame that is not virtual and was not filtered
    out; it lists the corners of the buffered box in reverse order,
    rotated into the parking frame, and ends with its first vertex
    again. *)
Theorem perception_pieces_closed (info : OpenSpaceInfo) :
  forall (items : list (Obstacle Box2d)) (pieces : list (list Vec2d)),
    perception_vertices config vehicle_state info items = Returns pieces ->
    Forall (fun piece =>
              exists o first rest,
                In o items /\ IsVirtual o = false
                /\ FilterOutObstacle config vehicle_state info o = Returns false
                /\ clockwise_corners
                     (GetAllCorners
                        (LateralExtend
                           (LongitudinalExtend
                              (Shift (PerceptionBoundingBox o)
                                     (vscale (origin_point info) (- (1))))
                              (perception_obstacle_buffer config))
                           (perception_obstacle_buffer config)))
                     (origin_heading info)
                   = first :: rest
                /\ piece = first :: rest ++ [first]
                /\ front piece = back piece) pieces.
Proof.
  induction items as [|o items IH]; simpl; intros pieces.
  - intros [= <-]. constructor.
  - intros E. apply bind_returns in E as (filtered & F & E).
    assert (forall l : list (list Vec2d),
              Forall (fun piece =>
                exists o' first rest,
                  In o' items /\ IsVirtual o' = false
                  /\ FilterOutObstacle config vehicle_state info o'
                     = Returns false
                  /\ clockwise_corners
                       (GetAllCorners
                          (LateralExtend
                             (LongitudinalExtend
                                (Shift (PerceptionBoundingBox o')
                                       (vscale (origin_point info) (- (1))))
                                (perception_obstacle_buffer config))
                             (perception_obstacle_buffer config)))
                       (origin_heading info)
                     = first :: rest
                  /\ piece = first :: rest ++ [first]
                  /\ front piece = back piece) l ->
              Forall (fun piece =>
                exists o' first rest,
                  (o = o' \/ In o' items) /\ IsVirtual o' = false
                  /\ FilterOutObstacle config vehicle_state info o'
                     = Returns false
                  /\ clockwise_corners
                       (GetAllCorners
                          (LateralExtend
                             (LongitudinalExtend
                                (Shift (PerceptionBoundingBox o')
                                       (vscale (origin_point info) (- (1))))
                                (perception_obstacle_buffer config))
                             (perception_obstacle_buffer config)))
                       (origin_heading info)
                     = first :: rest
                  /\ piece = first :: rest ++ [first]
                  /\ front piece = back piece) l) as Weaken.
    { intros l. apply Forall_impl.
      intros piece (o' & first & rest & I & R). exists o', first, rest.
      split; [now right | exact R]. }
    destruct filtered; [now apply Weaken, IH|].
    apply bind_returns in E as (piece & Ep & E).
    apply bind_returns in E as (more & Em & [= <-]).
    constructor; [|now apply Weaken, IH].
    unfold obstacle_vertices in Ep.
    apply bind_returns in Ep as (first & Ef & [= <-]).
    unfold front_of in Ef. apply index_returns in Ef.
    destruct (clockwise_corners _ _) as [|first' rest] eqn:C;
      [discriminate|]. injection Ef as ->.
    exists o, first, rest. repeat split; trivial.
    + now left.
    + unfold FilterOutObstacle in F. destruct (IsVirtual o);
        [discriminate | reflexivity].
    + change ((first :: rest) ++ [first]) with (first :: rest ++ [first]).
      rewrite app_comm_cons, back_app_one. reflexivity.
Qed.

End ObstacleMore.

Section ObstacleFilter.
Import Obstacles.
Context `{Math} {Box2d : Type} `{BoxOps Box2d}.
Variable config : OpenSpaceRoiDeciderConfig.
Variable vehicle_state : VehicleState.

(** X10.  With the box of the region and an end pose in the frame,
    [FilterOutObstacle] keeps an obstacle (returns false) exactly when it
    is not virtual, the centre of its bounding box, taken into the
    parking frame, lies in the closed box of the region, and the
    bounding box is within the filtering distance of the vehicle or of
    the end pose taken back into the world frame; in every other case it
    returns true. *)
Theorem FilterOutObstacle_keeps (info : OpenSpaceInfo) (o : Obstacle Box2d)
    (xmin xmax ymin ymax end_x end_y : Q) (more_box more_pose : list Q) :
  ROI_xy_boundary info = xmin :: xmax :: ymin :: ymax :: more_box ->
  open_space_end_pose info = end_x :: end_y :: more_pose ->
  (FilterOutObstacle config vehicle_state info o = Returns false
   <-> IsVirtual o = false
       /\ xmin <= x (SelfRotate (vsub (center (PerceptionBoundingBox o))
                                      (origin_point info))
                                (- origin_heading info)) <= xmax
       /\ ymin <= y (SelfRotate (vsub (center (PerceptionBoundingBox o))
                                      (origin_point info))
                                (- origin_heading info)) <= ymax
       /\ (DistanceTo (PerceptionBoundingBox o)
                      (mkVec2d (vehicle_x vehicle_state)
                               (vehicle_y vehicle_state))
           <= perception_obstacle_filtering_distance config
           \/ DistanceTo (PerceptionBoundingBox o)
                         (vadd (SelfRotate (mkVec2d end_x end_y)
                                           (origin_heading info))
                               (origin_point info))
              <= perception_obstacle_filtering_distance config))
  /\ (FilterOutObstacle config vehicle_state info o = Returns false
      \/ FilterOutObstacle config vehicle_state info o = Returns true).
Proof.
  intros Box Pose. unfold FilterOutObstacle, index, Qgtb.
  rewrite Box, Pose. cbn [nth_error bind].
  destruct (IsVirtual o).
  { split; [|now right]. split; [discriminate | intros [V _]; discriminate]. }
  set (c := SelfRotate _ _).
  set (dv := DistanceTo _ (mkVec2d _ _)).
  set (de := DistanceTo _ (vadd _ _)).
  set (fd := perception_obstacle_filtering_distance config).
  destruct (Qltb (x c) xmin) eqn:C1; cbn [orb].
  { apply Qltb_lt in C1. split; [|now right].
    split; [discriminate | intros (_ & [L _] & _); exfalso; lra]. }
  destruct (Qltb xmax (x c)) eqn:C2; cbn [orb].
  { apply Qltb_lt in C2. split; [|now right].
    split; [discriminate | intros (_ & [_ L] & _); exfalso; lra]. }
  destruct (Qltb (y c) ymin) eqn:C3; cbn [orb].
  { apply Qltb_lt in C3. split; [|now right].
    split; [discriminate | intros (_ & _ & [L _] & _); exfalso; lra]. }
  destruct (Qltb ymax (y c)) eqn:C4; cbn [orb].
  { apply Qltb_lt in C4. split; [|now right].
    split; [discriminate | intros (_ & _ & [_ L] & _); exfalso; lra]. }
  apply Qltb_ge in C1, C2, C3, C4.
  destruct (Qltb fd dv) eqn:D1; cbn [andb].
  - apply Qltb_lt in D1. destruct (Qltb fd de) eqn:D2.
    + apply Qltb_lt in D2. split; [|now right].
      split; [discriminate|].
      intros (_ & _ & _ & [L|L]); exfalso; lra.
    + apply Qltb_ge in D2. split; [|now left].
      split; [|reflexivity]. intros _. repeat split; trivial. now right.
  - apply Qltb_ge in D1. split; [|now left].
    split; [|reflexivity]. intros _. repeat split; trivial. now left.
Qed.

End ObstacleFilter.

Section ObstacleMoreExample.
Local Abbreviation P := mkVec2d.

Lemma stale_vertices_refused_witness :
  obstacles_vertices_vec
    (Obstacles.set_vertices example_info [clockwise_square] [] 0) <> []
  /\ forall info',
       @Obstacles.FormulateBoundaryConstraints QuarterTurns AxisBox AxisBoxOps
         example_config example_vehicle example_roi example_items
         (Obstacles.set_vertices example_info [clockwise_square] [] 0)
       <> Returns (true, info').
Proof.
  assert (obstacles_vertices_vec
            (Obstacles.set_vertices example_info [clockwise_square] [] 0)
          <> []) as Stale by discriminate.
  split; [exact Stale|].
  apply (@stale_vertices_refused QuarterTurns AxisBox AxisBoxOps
           example_config example_vehicle example_roi example_items _ Stale).
Defined.

Lemma perception_pieces_closed_witness :
  exists pieces,
    @Obstacles.perception_vertices QuarterTurns AxisBox AxisBoxOps
      example_config example_vehicle example_info example_items
    = Returns pieces
    /\ length pieces = 1%nat
    /\ Forall (fun piece => front piece = back piece) pieces.
Proof.
  assert (exists pieces,
            @Obstacles.perception_vertices QuarterTurns AxisBox AxisBoxOps
              example_config example_vehicle example_info example_items
            = Returns pieces /\ length pieces = 1%nat) as (pieces & E & L)
    by (eexists; split; vm_compute; reflexivity).
  exists pieces. split; [exact E|]. split; [exact L|].
  pose proof (@perception_pieces_closed QuarterTurns AxisBox AxisBoxOps
                example_config example_vehicle example_info example_items
                pieces E) as Closed.
  revert Closed. apply Forall_impl.
  intros piece (o & first & rest & _ & _ & _ & _ & _ & C). exact C.
Defined.

Lemma FilterOutObstacle_keeps_witness :
  @Obstacles.FilterOutObstacle QuarterTurns AxisBox AxisBoxOps
    example_config example_vehicle example_info
    {| IsVirtual := false;
       PerceptionBoundingBox :=
         {| box_center := P 3 3; half_length := 1; half_width := 1 # 2 |} |}
  = Returns false.
Proof.
  apply (proj1 (@FilterOutObstacle_keeps QuarterTurns AxisBox AxisBoxOps
                  example_config example_vehicle example_info
                  {| IsVirtual := false;
                     PerceptionBoundingBox :=
                       {| box_center := P 3 3; half_length := 1;
                          half_width := 1 # 2 |} |}
                  (- (10)) 10 (- (10)) 10 1 (- (2)) [] [1; 0]
                  eq_refl eq_refl)).
  split; [reflexivity|].
  split; [split; vm_compute; discriminate|].
  split; [split; vm_compute; discriminate|].
  left. vm_compute. discriminate.
Defined.

End ObstacleMoreExample.

(** ** The stitcher: what it returns and when *)

Section StitcherMore.
Import Stitcher.
Context `{Math}.
Variable origin_point : Vec2d.
Variable origin_heading : Q.
Variable spot : corners.
Variables left_top_s right_top_s average_l : Q.

Lemma iterator_at_returns {A : Type} (v : list A) (i j : nat) :
  iterator_at v i = Returns j -> j = i /\ (i <= length v)%nat.
Proof.
  unfold iterator_at. destruct (i <=? length v)%nat eqn:L; [|discriminate].
  apply Nat.leb_le in L. now intros [= <-].
Qed.

Lemma last_index_returns {A : Type} (v : list A) (k : nat) :
  last_index v = Returns k -> k = (length v - 1)%nat /\ v <> [].
Proof.
  destruct v as [|a t]; [discriminate|]. intros [= <-].
  split; [simpl; lia | discriminate].
Qed.

Lemma upper_bound_le (v : list Q) (value : Q) :
  (upper_bound v value <= length v)%nat.
Proof.
  induction v as [|a v IH]; simpl; [lia|].
  destruct (Qltb value a); simpl; lia.
Qed.

Lemma near_le_lower_bound (v : list Q) (value : Q) :
  (Brackets.near v value <= lower_bound v value)%nat.
Proof.
  unfold Brackets.near. destruct (lower_bound v value); simpl; lia.
Qed.

Lemma near_left (v : list Q) (value : Q) :
  (if (lower_bound v value <=? 0)%nat then lower_bound v value
   else (lower_bound v value - 1)%nat) = Brackets.near v value.
Proof.
  unfold Brackets.near. now destruct (lower_bound v value).
Qed.

Lemma forward_segments_spec v : forall todo i segs,
  forward_segments v i todo = Returns segs ->
  length segs = todo /\ Forall (fun s => length s = 2%nat) segs.
Proof.
  induction todo as [|todo IH]; simpl; intros i segs.
  - intros [= <-]. split; [reflexivity | constructor].
  - intros E. apply bind_returns in E as (a & _ & E).
    apply bind_returns in E as (b & _ & E).
    apply bind_returns in E as (more & Em & [= <-]).
    destruct (IH _ _ Em) as [L F]. split; [simpl; lia|].
    constructor; [reflexivity | exact F].
Qed.

Lemma backward_segments_spec v : forall todo i segs,
  backward_segments v i todo = Returns segs ->
  length segs = todo /\ Forall (fun s => length s = 2%nat) segs.
Proof.
  induction todo as [|todo IH]; simpl; intros i segs.
  - intros [= <-]. split; [reflexivity | constructor].
  - intros E. apply bind_returns in E as (a & _ & E).
    apply bind_returns in E as (b & _ & E).
    apply bind_returns in E as (more & Em & [= <-]).
    destruct (IH _ _ Em) as [L F]. split; [simpl; lia|].
    constructor; [reflexivity | exact F].
Qed.

Lemma index_in_range {A : Type} (v : list A) (i : nat) :
  (i < length v)%nat -> exists a, index v i = Returns a.
Proof.
  intros L. unfold index. destruct (nth_error v i) as [a|] eqn:E;
    [now exists a | apply nth_error_None in E; lia].
Qed.

Lemma forward_segments_returns v : forall todo i,
  todo = 0%nat \/ (i + todo < length v)%nat ->
  exists segs, forward_segments v i todo = Returns segs.
Proof.
  induction todo as [|todo IH]; intros i B; simpl; [now exists []|].
  destruct B as [B|B]; [discriminate|].
  destruct (index_in_range v i ltac:(lia)) as [a ->].
  destruct (index_in_range v (S i) ltac:(lia)) as [b ->].
  destruct (IH (S i)) as [more ->]; [destruct todo; [now left | right; lia]|].
  cbn [bind]. now eexists.
Qed.

Lemma backward_segments_returns v : forall todo i,
  todo = 0%nat \/ ((i < length v)%nat /\ (todo <= i)%nat) ->
  exists segs, backward_segments v i todo = Returns segs.
Proof.
  induction todo as [|todo IH]; intros i B; simpl; [now exists []|].
  destruct B as [B|[B1 B2]]; [discriminate|].
  destruct (index_in_range v i ltac:(lia)) as [a ->].
  destruct (index_in_range v (i - 1) ltac:(lia)) as [b ->].
  destruct (IH (i - 1)%nat) as [more ->];
    [destruct todo; [now left | right; lia]|].
  cbn [bind]. now eexists.
Qed.

Lemma rescale_length factor : forall boundary centers widths result,
  rescale origin_point origin_heading boundary centers widths factor
  = Returns result ->
  length result = length boundary.
Proof.
  induction boundary as [|p boundary IH]; simpl; intros centers widths result.
  - now intros [= <-].
  - intros E. apply bind_returns in E as (c & _ & E).
    apply bind_returns in E as (w & _ & E).
    apply bind_returns in E as (p' & _ & E).
    apply bind_returns in E as (more & Em & [= <-]).
    simpl. now rewrite (IH _ _ _ Em).
Qed.

Lemma rescale_returns factor : forall boundary centers widths,
  length centers = length boundary -> length widths = length boundary ->
  Forall (fun w => ~ w == 0) widths ->
  exists result,
    rescale origin_point origin_heading boundary centers widths factor
    = Returns result.
Proof.
  induction boundary as [|p boundary IH]; intros centers widths Lc Lw Nz;
    simpl; [now exists []|].
  destruct centers as [|c centers]; [discriminate|].
  destruct widths as [|w widths]; [discriminate|].
  inversion Nz as [|? ? Nw Nz']; subst.
  destruct (IH centers widths) as [more Em];
    [simpl in Lc; lia | simpl in Lw; lia | exact Nz' |].
  unfold index, rescale_point. cbn [nth_error bind tl].
  destruct (Qeq_bool w 0) eqn:E; [now apply Qeq_bool_iff in E|].
  cbn [bind]. rewrite Em. cbn [bind]. now eexists.
Qed.

(** What the right branch hands back, part by part. *)
Lemma stitch_right_edges_inv (right_lane_boundary left_lane_boundary : list Vec2d)
    (center_lane_s : list Q) (boundary_points : list Vec2d)
    (segments : list segment) :
  stitch_right_edges spot left_top_s right_top_s right_lane_boundary
                     left_lane_boundary center_lane_s
  = Returns (boundary_points, segments) ->
  exists first head tail left a b,
    front right_lane_boundary = Some first
    /\ left_lane_boundary <> []
    /\ forward_segments right_lane_boundary 0
         (Brackets.near center_lane_s left_top_s) = Returns head
    /\ forward_segments right_lane_boundary
         (upper_bound center_lane_s right_top_s)
         (length right_lane_boundary - 1
          - upper_bound center_lane_s right_top_s) = Returns tail
    /\ backward_segments left_lane_boundary (length left_lane_boundary - 1)
         (length left_lane_boundary - 1) = Returns left
    /\ nth_error right_lane_boundary (Brackets.near center_lane_s left_top_s)
       = Some a
    /\ nth_error right_lane_boundary (upper_bound center_lane_s right_top_s)
       = Some b
    /\ boundary_points
       = (((firstn (Brackets.near center_lane_s left_top_s) right_lane_boundary
            ++ parking_spot_boundary spot)
           ++ skipn (upper_bound center_lane_s right_top_s) right_lane_boundary)
          ++ rev left_lane_boundary) ++ [first]
    /\ segments
       = head ++ [[a; left_top spot]] ++ parking_spot_segments spot
         ++ [[right_top spot; b]] ++ tail ++ left.
Proof.
  unfold stitch_right_edges. fold (Brackets.near center_lane_s left_top_s).
  intros E.
  apply bind_returns in E as (i1 & I1 & E).
  apply iterator_at_returns in I1 as [-> _].
  apply bind_returns in E as (i2 & I2 & E).
  apply iterator_at_returns in I2 as [-> _].
  apply bind_returns in E as (first & F & E).
  apply bind_returns in E as (head & Hd & E).
  apply bind_returns in E as (a & Ia & E). apply index_returns in Ia.
  apply bind_returns in E as (b & Ib & E). apply index_returns in Ib.
  apply bind_returns in E as (k1 & K1 & E).
  apply last_index_returns in K1 as [-> _].
  apply bind_returns in E as (tail & Tl & E).
  apply bind_returns in E as (k2 & K2 & E).
  apply last_index_returns in K2 as [-> NL].
  apply bind_returns in E as (left & Lf & [= <- <-]).
  apply front_of_returns in F as [t ->].
  exists first, head, tail, left, a, b. repeat split; trivial.
Qed.

(** What the left branch hands back, part by part. *)
Lemma stitch_left_edges_inv (right_lane_boundary left_lane_boundary : list Vec2d)
    (center_lane_s : list Q) (boundary_points : list Vec2d)
    (segments : list segment) :
  stitch_left_edges spot left_top_s right_top_s right_lane_boundary
                    left_lane_boundary center_lane_s
  = Returns (boundary_points, segments) ->
  exists first right far near a b,
    front right_lane_boundary = Some first
    /\ left_lane_boundary <> []
    /\ forward_segments right_lane_boundary 0 (length right_lane_boundary - 1)
       = Returns right
    /\ backward_segments left_lane_boundary (length left_lane_boundary - 1)
         (length left_lane_boundary - 1
          - upper_bound center_lane_s left_top_s) = Returns far
    /\ backward_segments left_lane_boundary
         (Brackets.near center_lane_s right_top_s)
         (Brackets.near center_lane_s right_top_s) = Returns near
    /\ nth_error left_lane_boundary (upper_bound center_lane_s left_top_s)
       = Some a
    /\ nth_error left_lane_boundary (Brackets.near center_lane_s right_top_s)
       = Some b
    /\ boundary_points
       = (((right_lane_boundary
            ++ rev (skipn (upper_bound center_lane_s left_top_s)
                          left_lane_boundary))
           ++ parking_spot_boundary spot)
          ++ rev (firstn (Brackets.near center_lane_s right_top_s)
                         left_lane_boundary)) ++ [first]
    /\ segments
       = right ++ far ++ [[a; left_top spot]] ++ parking_spot_segments spot
         ++ [[right_top spot; b]] ++ near.
Proof.
  unfold stitch_left_edges. rewrite !near_left. intros E.
  apply bind_returns in E as (i1 & I1 & E).
  apply iterator_at_returns in I1 as [-> _].
  apply bind_returns in E as (i2 & I2 & E).
  apply iterator_at_returns in I2 as [-> _].
  apply bind_returns in E as (first & F & E).
  apply bind_returns in E as (k1 & K1 & E).
  apply last_index_returns in K1 as [-> _].
  apply bind_returns in E as (right & Rt & E).
  apply bind_returns in E as (k2 & K2 & E).
  apply last_index_returns in K2 as [-> NL].
  apply bind_returns in E as (far & Fr & E).
  apply bind_returns in E as (a & Ia & E). apply index_returns in Ia.
  apply bind_returns in E as (b & Ib & E). apply index_returns in Ib.
  apply bind_returns in E as (near & Nr & [= <- <-]).
  apply front_of_returns in F as [t ->].
  exists first, right, far, near, a, b. repeat split; trivial.
Qed.

End StitcherMore.

Section StitcherResults.
Import Stitcher.
Context `{Math}.
Variable origin_point : Vec2d.
Variable origin_heading : Q.
Variable spot : corners.
Variables left_top_s right_top_s average_l : Q.

Lemma near_lt (v : list Q) (value : Q) :
  v <> [] -> (Brackets.near v value < length v)%nat.
Proof.
  intros Ne. pose proof (lower_bound_le v value) as B.
  unfold Brackets.near. destruct v as [|a v]; [congruence|]. simpl in *.
  destruct (if Qltb a value then S (lower_bound v value) else 0%nat);
    simpl; lia.
Qed.

Lemma stitch_right_edges_returns (right_lane_boundary left_lane_boundary : list Vec2d)
    (center_lane_s : list Q) :
  length right_lane_boundary = length center_lane_s ->
  length left_lane_boundary = length center_lane_s ->
  center_lane_s <> [] ->
  (upper_bound center_lane_s right_top_s < length center_lane_s)%nat ->
  exists r,
    stitch_right_edges spot left_top_s right_top_s right_lane_boundary
                       left_lane_boundary center_lane_s = Returns r.
Proof.
  intros LR LL Ne Far. pose proof (near_lt _ left_top_s Ne) as Near.
  unfold stitch_right_edges. fold (Brackets.near center_lane_s left_top_s).
  unfold iterator_at.
  rewrite (proj2 (Nat.leb_le _ _)) by lia. cbn [bind].
  rewrite (proj2 (Nat.leb_le _ _)) by lia. cbn [bind].
  destruct (forward_segments_returns right_lane_boundary
              (Brackets.near center_lane_s left_top_s) 0) as [head ->];
    [right; lia|].
  destruct (index_in_range right_lane_boundary
              (Brackets.near center_lane_s left_top_s)) as [a ->]; [lia|].
  destruct (index_in_range right_lane_boundary
              (upper_bound center_lane_s right_top_s)) as [b ->]; [lia|].
  destruct right_lane_boundary as [|first t];
    [destruct center_lane_s; [congruence | discriminate]|].
  destruct left_lane_boundary as [|l0 l];
    [destruct center_lane_s; [congruence | discriminate]|].
  unfold front_of, index. cbn [nth_error bind last_index].
  destruct (forward_segments_returns (first :: t)
              (length t - upper_bound center_lane_s right_top_s)
              (upper_bound center_lane_s right_top_s)) as [tail ->];
    [right; simpl in *; lia|].
  destruct (backward_segments_returns (l0 :: l) (length l) (length l))
    as [left ->]; [right; simpl; lia|].
  cbn [bind]. now eexists.
Qed.

Lemma stitch_left_edges_returns (right_lane_boundary left_lane_boundary : list Vec2d)
    (center_lane_s : list Q) :
  length right_lane_boundary = length center_lane_s ->
  length left_lane_boundary = length center_lane_s ->
  center_lane_s <> [] ->
  (upper_bound center_lane_s left_top_s < length center_lane_s)%nat ->
  exists r,
    stitch_left_edges spot left_top_s right_top_s right_lane_boundary
                      left_lane_boundary center_lane_s = Returns r.
Proof.
  intros LR LL Ne Far. pose proof (near_lt _ right_top_s Ne) as Near.
  unfold stitch_left_edges. rewrite !near_left.
  unfold iterator_at.
  rewrite (proj2 (Nat.leb_le _ _)) by lia. cbn [bind].
  rewrite (proj2 (Nat.leb_le _ _)) by lia. cbn [bind].
  destruct (index_in_range left_lane_boundary
              (upper_bound center_lane_s left_top_s)) as [a ->]; [lia|].
  destruct (index_in_range left_lane_boundary
              (Brackets.near center_lane_s right_top_s)) as [b ->]; [lia|].
  destruct (backward_segments_returns left_lane_boundary
              (Brackets.near center_lane_s right_top_s)
              (Brackets.near center_lane_s right_top_s)) as [near ->];
    [right; lia|].
  destruct right_lane_boundary as [|first t];
    [destruct center_lane_s; [congruence | discriminate]|].
  destruct left_lane_boundary as [|l0 l];
    [destruct center_lane_s; [congruence | discriminate]|].
  unfold front_of, index. cbn [nth_error bind last_index].
  destruct (forward_segments_returns (first :: t) (length t) 0)
    as [rsegs ->]; [right; simpl; lia|].
  destruct (backward_segments_returns (l0 :: l)
              (length l - upper_bound center_lane_s left_top_s) (length l))
    as [far ->]; [right; simpl; lia|].
  cbn [bind]. now eexists.
Qed.

Lemma stitch_right_edges_counts (right_lane_boundary left_lane_boundary : list Vec2d)
    (center_lane_s : list Q) (boundary_points : list Vec2d)
    (segments : list segment) :
  length right_lane_boundary = length center_lane_s ->
  length left_lane_boundary = length center_lane_s ->
  stitch_right_edges spot left_top_s right_top_s right_lane_boundary
                     left_lane_boundary center_lane_s
  = Returns (boundary_points, segments) ->
  (upper_bound center_lane_s right_top_s < length center_lane_s)%nat
  /\ (length segments + upper_bound center_lane_s right_top_s
      = 2 * length center_lane_s + 3 + Brackets.near center_lane_s left_top_s)%nat
  /\ (length boundary_points + upper_bound center_lane_s right_top_s
      = 2 * length center_lane_s + 5 + Brackets.near center_lane_s left_top_s)%nat.
Proof.
  intros LR LL E.
  apply stitch_right_edges_inv in E
    as (first & head & tail & left & a & b & F & NL & Hd & Tl & Lf & Ia & Ib
        & -> & ->).
  apply forward_segments_spec in Hd as [Lh _], Tl as [Lt _].
  apply backward_segments_spec in Lf as [Ll _].
  assert (Brackets.near center_lane_s left_top_s < length right_lane_boundary)%nat
    as Near by (apply nth_error_Some; congruence).
  assert (upper_bound center_lane_s right_top_s < length right_lane_boundary)%nat
    as Far by (apply nth_error_Some; congruence).
  rewrite !length_app, length_firstn, length_skipn, length_rev.
  unfold segment in *.
  cbn [length parking_spot_boundary parking_spot_segments].
  lia.
Qed.

Lemma stitch_left_edges_counts (right_lane_boundary left_lane_boundary : list Vec2d)
    (center_lane_s : list Q) (boundary_points : list Vec2d)
    (segments : list segment) :
  length right_lane_boundary = length center_lane_s ->
  length left_lane_boundary = length center_lane_s ->
  stitch_left_edges spot left_top_s right_top_s right_lane_boundary
                    left_lane_boundary center_lane_s
  = Returns (boundary_points, segments) ->
  (upper_bound center_lane_s left_top_s < length center_lane_s)%nat
  /\ (length segments + upper_bound center_lane_s left_top_s
      = 2 * length center_lane_s + 3 + Brackets.near center_lane_s right_top_s)%nat
  /\ (length boundary_points + upper_bound center_lane_s left_top_s
      = 2 * length center_lane_s + 5 + Brackets.near center_lane_s right_top_s)%nat.
Proof.
  intros LR LL E.
  apply stitch_left_edges_inv in E
    as (first & right & far & near & a & b & F & NL & Rt & Fr & Nr & Ia & Ib
        & -> & ->).
  apply forward_segments_spec in Rt as [Lr _].
  apply backward_segments_spec in Fr as [Lf _], Nr as [Ln _].
  assert (Brackets.near center_lane_s right_top_s < length left_lane_boundary)%nat
    as Near by (apply nth_error_Some; congruence).
  assert (upper_bound center_lane_s left_top_s < length left_lane_boundary)%nat
    as Far by (apply nth_error_Some; congruence).
  rewrite !length_app, !length_rev, length_firstn, length_skipn.
  unfold segment in *.
  cbn [length parking_spot_boundary parking_spot_segments].
  lia.
Qed.

(** What both branches hand back: two-point segments, among them the
    three sides of the spot, and a polyline through its four corners. *)
Lemma StitchBoundary_shape (s : Builder.samples) (boundary_points : list Vec2d)
    (segments : list segment) :
  StitchBoundary origin_point origin_heading spot left_top_s right_top_s
                 average_l s = Returns (boundary_points, segments) ->
  Forall (fun sg => length sg = 2%nat) segments
  /\ (exists before after,
        segments = before ++ parking_spot_segments spot ++ after)
  /\ (forall c, In c (parking_spot_boundary spot) -> In c boundary_points).
Proof.
  unfold StitchBoundary, stitch_right, stitch_left.
  destruct (Qltb average_l 0); intros E;
    apply bind_returns in E as (edge & _ & E).
  - apply stitch_right_edges_inv in E
      as (first & head & tail & left & a & b & _ & _ & Hd & Tl & Lf & _ & _
          & -> & ->).
    apply forward_segments_spec in Hd as [_ Fh], Tl as [_ Ft].
    apply backward_segments_spec in Lf as [_ Fl].
    split; [|split].
    + repeat (apply Forall_app; split); trivial; repeat constructor.
    + exists (head ++ [[a; left_top spot]]), ([[right_top spot; b]] ++ tail ++ left).
      now rewrite <- app_assoc.
    + intros c I. rewrite !in_app_iff. tauto.
  - apply stitch_left_edges_inv in E
      as (first & right & far & near & a & b & _ & _ & Rt & Fr & Nr & _ & _
          & -> & ->).
    apply forward_segments_spec in Rt as [_ Fr'].
    apply backward_segments_spec in Fr as [_ Ff], Nr as [_ Fn].
    split; [|split].
    + repeat (apply Forall_app; split); trivial; repeat constructor.
    + exists (right ++ far ++ [[a; left_top spot]]), ([[right_top spot; b]] ++ near).
      now rewrite <- !app_assoc.
    + intros c I. rewrite !in_app_iff. tauto.
Qed.

(** X11.  Whatever the stitcher returns is accepted by the fuser: every
    segment has two points and the three sides of the spot are among
    them, so [FuseLineSegments] returns true on the list, every fused
    piece keeps at least two points, and the edge counting of the vertex
    loading does not abort on the result. *)
Theorem stitched_segments_fuse (s : Builder.samples)
    (boundary_points : list Vec2d) (segments : list segment) :
  StitchBoundary origin_point origin_heading spot left_top_s right_top_s
                 average_l s = Returns (boundary_points, segments) ->
  Forall (fun sg => length sg = 2%nat) segments
  /\ (exists before after,
        segments = before ++ parking_spot_segments spot ++ after)
  /\ exists out,
       Fuser.FuseLineSegments segments = Returns (true, out)
       /\ Forall (fun sg => (2 <= length sg)%nat) out
       /\ Obstacles.parking_boundaries_edges_num out
          = Returns (map (fun piece => (length piece - 1)%nat) out).
Proof.
  intros E. destruct (StitchBoundary_shape _ _ _ E) as (F & Sp & _).
  split; [exact F|]. split; [exact Sp|].
  destruct Sp as (before & after & ->).
  assert (exists out,
            Fuser.FuseLineSegments
              (before ++ parking_spot_segments spot ++ after)
            = Returns (true, out)
            /\ Forall (fun sg => (2 <= length sg)%nat) out)
    as (out & Fu & Two).
  { destruct (before ++ parking_spot_segments spot ++ after)
      as [|first others] eqn:V;
      [destruct before; discriminate|].
    inversion F as [|? ? L Fo]; subst.
    apply fuse_loop_two_point; [|apply Nat.le_refl].
    repeat split; [constructor | cbn [Fuser.cur]; lia | exact Fo]. }
  exists out. split; [exact Fu|]. split; [exact Two|].
  destruct (parking_boundaries_edges_num_cases out) as [[_ R]|[X _]];
    [exact R|].
  exfalso. apply Exists_exists in X as (piece & I & L).
  rewrite Forall_forall in Two. specialize (Two _ I). lia.
Qed.

(** X12.  On aligned samples with at least one station and no road width
    zero, the stitcher returns exactly when the far bracket (the upper
    bound of the station of the far corner) is an index into the edge,
    that is, when some recorded station lies beyond that corner.  The
    result then has [2 n + 3 + near - far] segments and
    [2 n + 5 + near - far] polyline points for [n] stations. *)
Theorem StitchBoundary_returns (s : Builder.samples) :
  Sampling.aligned s -> Builder.center_lane_s s <> [] ->
  Forall (fun w => ~ w == 0) (Builder.right_lane_road_width s) ->
  Forall (fun w => ~ w == 0) (Builder.left_lane_road_width s) ->
  ((exists r,
      StitchBoundary origin_point origin_heading spot left_top_s right_top_s
                     average_l s = Returns r)
   <-> (Brackets.far_of average_l left_top_s right_top_s
          (Builder.center_lane_s s)
        < length (Builder.center_lane_s s))%nat)
  /\ forall boundary_points segments,
       StitchBoundary origin_point origin_heading spot left_top_s right_top_s
                      average_l s = Returns (boundary_points, segments) ->
       (length segments
        + Brackets.far_of average_l left_top_s right_top_s
            (Builder.center_lane_s s)
        = 2 * length (Builder.center_lane_s s) + 3
          + Brackets.near_of average_l left_top_s right_top_s
              (Builder.center_lane_s s))%nat
       /\ (length boundary_points
           + Brackets.far_of average_l left_top_s right_top_s
               (Builder.center_lane_s s)
           = 2 * length (Builder.center_lane_s s) + 5
             + Brackets.near_of average_l left_top_s right_top_s
                 (Builder.center_lane_s s))%nat.
Proof.
  intros (LR & LL & LC & LWl & LWr) Ne NzR NzL.
  unfold StitchBoundary, stitch_right, stitch_left,
    Brackets.far_of, Brackets.near_of.
  destruct (Qltb average_l 0).
  - destruct (rescale_returns origin_point origin_heading (- average_l)
                (Builder.right_lane_boundary s)
                (Builder.center_lane_boundary s)
                (Builder.right_lane_road_width s)) as [edge R];
      [congruence | congruence | exact NzR |].
    pose proof (rescale_length _ _ _ _ _ _ _ R) as Le.
    rewrite R. cbn [bind]. split.
    + split.
      * intros [[pts segs] E].
        apply stitch_right_edges_counts in E; [tauto | congruence | exact LL].
      * intros Far. apply stitch_right_edges_returns; trivial. congruence.
    + intros pts segs E.
      apply stitch_right_edges_counts in E; [tauto | congruence | exact LL].
  - destruct (rescale_returns origin_point origin_heading average_l
                (Builder.left_lane_boundary s)
                (Builder.center_lane_boundary s)
                (Builder.left_lane_road_width s)) as [edge R];
      [congruence | congruence | exact NzL |].
    pose proof (rescale_length _ _ _ _ _ _ _ R) as Le.
    rewrite R. cbn [bind]. split.
    + split.
      * intros [[pts segs] E].
        apply stitch_left_edges_counts in E; [tauto | exact LR | congruence].
      * intros Far. apply stitch_left_edges_returns; trivial. congruence.
    + intros pts segs E.
      apply stitch_left_edges_counts in E; [tauto | exact LR | congruence].
Qed.

End StitcherResults.

Section StitcherResultsExample.
Local Abbreviation P := mkVec2d.

Lemma stitched_segments_fuse_witness :
  exists boundary_points segments out,
    @Stitcher.StitchBoundary QuarterTurns (P 14 (- (2))) 0 right_spot_local
      14 (33 # 2) (- (2)) straight_lane_samples
    = Returns (boundary_points, segments)
    /\ Fuser.FuseLineSegments segments = Returns (true, out)
    /\ Forall (fun sg => (2 <= length sg)%nat) out.
Proof.
  assert (exists boundary_points segments,
            @Stitcher.StitchBoundary QuarterTurns (P 14 (- (2))) 0
              right_spot_local 14 (33 # 2) (- (2)) straight_lane_samples
            = Returns (boundary_points, segments)) as (pts & segs & E)
    by (eexists; eexists; vm_compute; reflexivity).
  destruct (@stitched_segments_fuse QuarterTurns (P 14 (- (2))) 0
              right_spot_local 14 (33 # 2) (- (2)) straight_lane_samples
              pts segs E) as (_ & _ & out & Fu & Two & _).
  exists pts, segs, out. split; [exact E|]. split; [exact Fu | exact Two].
Defined.

Lemma StitchBoundary_returns_witness :
  Sampling.aligned straight_lane_samples
  /\ exists r,
       @Stitcher.StitchBoundary QuarterTurns (P 14 (- (2))) 0 right_spot_local
         14 (33 # 2) (- (2)) straight_lane_samples = Returns r.
Proof.
  assert (Sampling.aligned straight_lane_samples) as A by (repeat split).
  split; [exact A|].
  apply (proj1 (@StitchBoundary_returns QuarterTurns (P 14 (- (2))) 0
                  right_spot_local 14 (33 # 2) (- (2)) straight_lane_samples
                  A ltac:(discriminate)
                  ltac:(repeat constructor; discriminate)
                  ltac:(repeat constructor; discriminate))).
  vm_compute. lia.
Defined.

End StitcherResultsExample.

(** ** The parking frame, the box of the region and the end pose *)

Section FrameFacts.
Import Stitcher.
Context `{Math}.
Variable origin_point : Vec2d.
Variable origin_heading : Q.

Local Abbreviation to_local := (to_local origin_point origin_heading).
Local Abbreviation to_world := (to_world origin_point origin_heading).

Lemma rotate_back (c s c' s' u v a b : Q) :
  c' == c -> s' == - s -> c * c + s * s == 1 ->
  u == a * c - b * s -> v == a * s + b * c ->
  u * c' - v * s' == a /\ u * s' + v * c' == b.
Proof.
  intros Hc Hs Hu -> ->. rewrite Hc, Hs. split.
  - setoid_replace ((a * c - b * s) * c - (a * s + b * c) * - s)
      with (a * (c * c + s * s)) by ring. rewrite Hu. ring.
  - setoid_replace ((a * c - b * s) * - s + (a * s + b * c) * c)
      with (b * (c * c + s * s)) by ring. rewrite Hu. ring.
Qed.

Lemma rotate_forth (c s c' s' u v a b : Q) :
  c' == c -> s' == - s -> c * c + s * s == 1 ->
  u == a * c' - b * s' -> v == a * s' + b * c' ->
  u * c - v * s == a /\ u * s + v * c == b.
Proof.
  intros Hc Hs Hu -> ->. rewrite Hc, Hs. split.
  - setoid_replace ((a * c - b * - s) * c - (a * - s + b * c) * s)
      with (a * (c * c + s * s)) by ring. rewrite Hu. ring.
  - setoid_replace ((a * c - b * - s) * s + (a * - s + b * c) * c)
      with (b * (c * c + s * s)) by ring. rewrite Hu. ring.
Qed.

Lemma rotate_square (c s c' s' u v a b : Q) :
  c' == c -> s' == - s -> c * c + s * s == 1 ->
  u == a * c' - b * s' -> v == a * s' + b * c' ->
  u * u + v * v == a * a + b * b.
Proof.
  intros Hc Hs Hu -> ->. rewrite Hc, Hs.
  setoid_replace ((a * c - b * - s) * (a * c - b * - s)
                  + (a * - s + b * c) * (a * - s + b * c))
    with ((a * a + b * b) * (c * c + s * s)) by ring.
  rewrite Hu. ring.
Qed.

Lemma rotate_cross (c s c' s' u v w z a b d e : Q) :
  c' == c -> s' == - s -> c * c + s * s == 1 ->
  u == a * c' - b * s' -> v == a * s' + b * c' ->
  w == d * c' - e * s' -> z == d * s' + e * c' ->
  u * z - v * w == a * e - b * d.
Proof.
  intros Hc Hs Hu -> -> -> ->. rewrite Hc, Hs.
  setoid_replace ((a * c - b * - s) * (d * - s + e * c)
                  - (a * - s + b * c) * (d * c - e * - s))
    with ((a * e - b * d) * (c * c + s * s)) by ring.
  rewrite Hu. ring.
Qed.

(** X13.  With [cos] and [sin] exact at the origin heading, going to the
    parking frame and back is the identity in both directions, and the
    change of frame keeps distances and the cross product of three
    points: what the fuser and the hyperplane generator test in the
    parking frame holds in the world frame as well. *)
Theorem parking_frame_isometry (p q r : Vec2d) :
  Rescaling.rotation_exact origin_heading ->
  veq (to_local (to_world q)) q
  /\ veq (to_world (to_local q)) q
  /\ DistanceSquareTo (to_local p) (to_local q) == DistanceSquareTo p q
  /\ CrossProd (to_local p) (to_local q) (to_local r) == CrossProd p q r.
Proof.
  intros (Hc & Hs & Hu).
  unfold veq, CrossProd, vcross, DistanceSquareTo, Stitcher.to_world,
    Stitcher.to_local, SelfRotate, vadd, vsub.
  cbn [x y].
  set (c := cos origin_heading) in *. set (s := sin origin_heading) in *.
  set (c' := cos (- origin_heading)) in *.
  set (s' := sin (- origin_heading)) in *.
  set (ox := x origin_point). set (oy := y origin_point).
  split; [|split; [|split]].
  - split.
    + refine (proj1 (rotate_back c s c' s' _ _ (x q) (y q) Hc Hs Hu _ _)); ring.
    + refine (proj2 (rotate_back c s c' s' _ _ (x q) (y q) Hc Hs Hu _ _)); ring.
  - destruct (rotate_forth c s c' s'
                ((x q - ox) * c' - (y q - oy) * s')
                ((x q - ox) * s' + (y q - oy) * c')
                (x q - ox) (y q - oy) Hc Hs Hu) as [E1 E2];
      [reflexivity | reflexivity |].
    split; [rewrite E1 | rewrite E2]; ring.
  - refine (rotate_square c s c' s' _ _ _ _ Hc Hs Hu _ _); ring.
  - refine (rotate_cross c s c' s' _ _ _ _ (x q - x p) (y q - y p)
              (x r - x p) (y r - y p) Hc Hs Hu _ _ _ _);
      unfold vsub; cbn [x y]; ring.
Qed.

End FrameFacts.

Section BoxFacts.
Import Decider.

Lemma min_element_spec (key : Vec2d -> Q) (others : list Vec2d) :
  forall first,
    In (min_element key first others) (first :: others)
    /\ forall a, In a (first :: others) ->
                 key (min_element key first others) <= key a.
Proof.
  unfold min_element.
  induction others as [|b others IH]; intros first; cbn [fold_left].
  - split; [now left|]. intros a [<-|[]]. apply Qle_refl.
  - destruct (IH (if Qltb (key b) (key first) then b else first)) as [I B].
    split.
    + destruct I as [I|I]; [|now right; right].
      rewrite <- I. destruct (Qltb (key b) (key first)); [right|]; now left.
    + intros a Ia.
      pose proof (B _ (or_introl eq_refl)) as B0.
      destruct (Qltb (key b) (key first)) eqn:C.
      * apply Qltb_lt in C. destruct Ia as [<-|[<-|Ia]].
        -- lra.
        -- exact B0.
        -- apply B. now right.
      * apply Qltb_ge in C. destruct Ia as [<-|[<-|Ia]].
        -- exact B0.
        -- lra.
        -- apply B. now right.
Qed.

Lemma max_element_spec (key : Vec2d -> Q) (others : list Vec2d) :
  forall first,
    In (max_element key first others) (first :: others)
    /\ forall a, In a (first :: others) ->
                 key a <= key (max_element key first others).
Proof.
  unfold max_element.
  induction others as [|b others IH]; intros first; cbn [fold_left].
  - split; [now left|]. intros a [<-|[]]. apply Qle_refl.
  - destruct (IH (if Qltb (key b) (key first) then first else b)) as [I B].
    split.
    + destruct I as [I|I]; [|now right; right].
      rewrite <- I. destruct (Qltb (key b) (key first)); [|right]; now left.
    + intros a Ia.
      pose proof (B _ (or_introl eq_refl)) as B0.
      destruct (Qltb (key b) (key first)) eqn:C.
      * apply Qltb_lt in C. destruct Ia as [<-|[<-|Ia]].
        -- exact B0.
        -- lra.
        -- apply B. now right.
      * apply Qltb_ge in C. destruct Ia as [<-|[<-|Ia]].
        -- lra.
        -- exact B0.
        -- apply B. now right.
Qed.

Lemma xy_boundary_spec (boundary_points : list Vec2d) (box : list Q) :
  xy_boundary boundary_points = Returns box ->
  exists xmin xmax ymin ymax,
    box = [xmin; xmax; ymin; ymax]
    /\ (forall p, In p boundary_points ->
          xmin <= x p <= xmax /\ ymin <= y p <= ymax)
    /\ (exists p, In p boundary_points /\ x p = xmin)
    /\ (exists p, In p boundary_points /\ x p = xmax)
    /\ (exists p, In p boundary_points /\ y p = ymin)
    /\ (exists p, In p boundary_points /\ y p = ymax).
Proof.
  destruct boundary_points as [|first others]; [discriminate|].
  intros [= <-].
  destruct (min_element_spec x others first) as [Ix Bx].
  destruct (max_element_spec x others first) as [Jx Cx].
  destruct (min_element_spec y others first) as [Iy By].
  destruct (max_element_spec y others first) as [Jy Cy].
  do 4 eexists. split; [reflexivity|]. split; [|repeat split; eauto].
  intros p I. repeat split; auto.
Qed.

(** X14.  [ROI_xy_boundary] is the tight box of the boundary points: it
    has the four entries [xmin, xmax, ymin, ymax], every boundary point
    lies in it and each of its four sides passes through a boundary
    point.  On an empty polyline the dereferenced iterators are those
    of an empty range. *)
Theorem xy_boundary_tight (boundary_points : list Vec2d) :
  (xy_boundary boundary_points = Undefined <-> boundary_points = [])
  /\ forall box,
       xy_boundary boundary_points = Returns box ->
       exists xmin xmax ymin ymax,
         box = [xmin; xmax; ymin; ymax]
         /\ (forall p, In p boundary_points ->
               xmin <= x p <= xmax /\ ymin <= y p <= ymax)
         /\ (exists p, In p boundary_points /\ x p = xmin)
         /\ (exists p, In p boundary_points /\ x p = xmax)
         /\ (exists p, In p boundary_points /\ y p = ymin)
         /\ (exists p, In p boundary_points /\ y p = ymax).
Proof.
  split; [|apply xy_boundary_spec].
  destruct boundary_points; simpl; split; congruence.
Qed.

End BoxFacts.

Section EndPoseFacts.
Import Decider.
Context `{Math}.
Variable config : OpenSpaceRoiDeciderConfig.
Variable vehicle_params : VehicleParam.

Lemma end_pose_of_spec (spot : Stitcher.corners) :
  (parking_depth_buffer config < 0
   /\ end_pose_of config vehicle_params spot = Aborted)
  \/ (0 <= parking_depth_buffer config
      /\ exists end_y,
           end_pose_of config vehicle_params spot
           = Returns [(x (Stitcher.left_top spot)
                       + x (Stitcher.right_top spot)) / 2;
                      end_y;
                      if parking_inwards config
                      then Angle (vsub (Stitcher.left_down spot)
                                       (Stitcher.left_top spot))
                      else NormalizeAngle
                             (Angle (vsub (Stitcher.left_down spot)
                                          (Stitcher.left_top spot)) + M_PI);
                      0]
           /\ (Decider.kMathEpsilon
               < Angle (vsub (Stitcher.left_down spot) (Stitcher.left_top spot)) ->
               end_y
               <= y (Stitcher.left_down spot)
                  - ((if parking_inwards config
                      then front_edge_to_center vehicle_params
                      else back_edge_to_center vehicle_params)
                     + parking_depth_buffer config))
           /\ (Angle (vsub (Stitcher.left_down spot) (Stitcher.left_top spot))
               <= Decider.kMathEpsilon ->
               y (Stitcher.left_down spot)
               + ((if parking_inwards config
                   then front_edge_to_center vehicle_params
                   else back_edge_to_center vehicle_params)
                  + parking_depth_buffer config)
               <= end_y)).
Proof.
  unfold end_pose_of, Qgeb, Qgtb.
  destruct (Qle_bool 0 (parking_depth_buffer config)) eqn:B; cbn [negb].
  - right. apply Qle_bool_iff in B. split; [exact B|].
    eexists. split; [reflexivity|].
    set (h := Angle _).
    destruct (Qltb kMathEpsilon h) eqn:Hd.
    + apply Qltb_lt in Hd. split; [|intros L; exfalso; lra]. intros _.
      destruct (parking_inwards config).
      * pose proof (Q.le_max_r
                      (3 * - (y (Stitcher.left_top spot)
                              - y (Stitcher.left_down spot)) / 4)
                      (front_edge_to_center vehicle_params)). lra.
      * pose proof (Q.le_max_r
                      (- (y (Stitcher.left_top spot)
                          - y (Stitcher.left_down spot)) / 4)
                      (back_edge_to_center vehicle_params)). lra.
    + apply Qltb_ge in Hd. split; [intros L; exfalso; lra|]. intros _.
      destruct (parking_inwards config).
      * pose proof (Q.le_max_r
                      (3 * (y (Stitcher.left_top spot)
                            - y (Stitcher.left_down spot)) / 4)
                      (front_edge_to_center vehicle_params)). lra.
      * pose proof (Q.le_max_r
                      ((y (Stitcher.left_top spot)
                        - y (Stitcher.left_down spot)) / 4)
                      (back_edge_to_center vehicle_params)). lra.
  - left. split; [|reflexivity].
    apply Qnot_le_lt. intros L. apply Qle_bool_iff in L. congruence.
Qed.

(** X15.  The end pose is computed exactly when the depth buffer of the
    configuration is not negative; a negative buffer aborts the call.
    The pose has four entries: the abscissa half way between the two top
    corners, an ordinate, a heading (the heading of the spot when
    parking inwards, the opposite one otherwise) and the speed 0.  The
    ordinate keeps the vehicle centre away from the bottom of the spot by
    at least the distance from the centre to the edge that goes in
    first (front when parking inwards, back otherwise) plus the
    buffer. *)
Theorem end_pose_clearance (spot : Stitcher.corners) :
  (end_pose_of config vehicle_params spot = Aborted
   <-> parking_depth_buffer config < 0)
  /\ forall pose,
       end_pose_of config vehicle_params spot = Returns pose ->
       exists end_y,
         pose = [(x (Stitcher.left_top spot)
                  + x (Stitcher.right_top spot)) / 2;
                 end_y;
                 if parking_inwards config
                 then Angle (vsub (Stitcher.left_down spot)
                                  (Stitcher.left_top spot))
                 else NormalizeAngle
                        (Angle (vsub (Stitcher.left_down spot)
                                     (Stitcher.left_top spot)) + M_PI);
                 0]
         /\ (Decider.kMathEpsilon
             < Angle (vsub (Stitcher.left_down spot) (Stitcher.left_top spot)) ->
             end_y
             <= y (Stitcher.left_down spot)
                - ((if parking_inwards config
                    then front_edge_to_center vehicle_params
                    else back_edge_to_center vehicle_params)
                   + parking_depth_buffer config))
         /\ (Angle (vsub (Stitcher.left_down spot) (Stitcher.left_top spot))
             <= Decider.kMathEpsilon ->
             y (Stitcher.left_down spot)
             + ((if parking_inwards config
                 then front_edge_to_center vehicle_params
                 else back_edge_to_center vehicle_params)
                + parking_depth_buffer config)
             <= end_y).
Proof.
  destruct (end_pose_of_spec spot) as [[B E]|(B & end_y & E & Up & Down)];
    rewrite E.
  - split; [now split | discriminate].
  - split; [split; [discriminate | intros L; exfalso; lra]|].
    intros pose [= <-]. exists end_y. now repeat split.
Qed.

End EndPoseFacts.

(** ** What [GetParkingBoundary] and [Process] leave in the frame *)

Section DeciderMore.
Import Decider.
Context `{Math} {Box2d : Type} `{BoxOps Box2d}.
Variable config : OpenSpaceRoiDeciderConfig.
Variable vehicle_params : VehicleParam.
Variable GetParkingSpotFromMap : Frame Box2d -> option (list Vec2d * Path).

Lemma at_returns {A : Type} (v : list A) (i : nat) (a : A) :
  at_ v i = Returns a -> nth_error v i = Some a.
Proof. unfold at_. destruct (nth_error v i); congruence. Qed.

Lemma locate_and_stitch_inv (fuel : nat) (frame : Frame Box2d) (st : stitched) :
  locate_and_stitch config GetParkingSpotFromMap fuel frame = Returns (Some st) ->
  exists points nearby_path spot left_top_s left_top_l right_top_s right_top_l
         sampled,
    GetParkingSpotFromMap frame = Some (points, nearby_path)
    /\ spot_corners points = Returns spot
    /\ GetProjection nearby_path (Stitcher.left_top spot)
       = Some (left_top_s, left_top_l)
    /\ GetProjection nearby_path (Stitcher.right_top spot)
       = Some (right_top_s, right_top_l)
    /\ Builder.BuildLaneBoundary config nearby_path
         ((left_top_s + right_top_s) / 2 - roi_longitudinal_range config)
         ((left_top_s + right_top_s) / 2 + roi_longitudinal_range config)
         fuel = Returns sampled
    /\ stitched_frame st
       = with_info frame
           (set_origin (open_space_info frame)
              (Angle (vsub (Stitcher.right_top spot) (Stitcher.left_top spot)))
              (Stitcher.left_top spot))
    /\ stitched_spot st
       = localize_corners (Stitcher.left_top spot)
           (Angle (vsub (Stitcher.right_top spot) (Stitcher.left_top spot)))
           spot
    /\ Stitcher.StitchBoundary (Stitcher.left_top spot)
         (Angle (vsub (Stitcher.right_top spot) (Stitcher.left_top spot)))
         (stitched_spot st) left_top_s right_top_s
         ((left_top_l + right_top_l) / 2)
         (localize_samples (Stitcher.left_top spot)
            (Angle (vsub (Stitcher.right_top spot) (Stitcher.left_top spot)))
            sampled)
       = Returns (boundary_points st, roi_parking_boundary st).
Proof.
  unfold locate_and_stitch.
  destruct (GetParkingSpotFromMap frame) as [[points nearby_path]|];
    [|discriminate].
  intros E. apply bind_returns in E as (spot & Sp & E).
  destruct (GetProjection nearby_path (Stitcher.left_top spot))
    as [[left_top_s left_top_l]|] eqn:Pl; [|discriminate].
  destruct (GetProjection nearby_path (Stitcher.right_top spot))
    as [[right_top_s right_top_l]|] eqn:Pr; [|discriminate].
  apply bind_returns in E as (sampled & Sm & E).
  apply bind_returns in E as ([pts segs] & St & [= <-]).
  exists points, nearby_path, spot, left_top_s, left_top_l, right_top_s,
    right_top_l, sampled.
  cbn [stitched_frame stitched_spot boundary_points roi_parking_boundary
       fst snd].
  cbn [origin_point origin_heading set_origin] in St.
  repeat split; trivial.
Qed.

Lemma outside_xy_boundary_false (v : Vec2d) (xmin xmax ymin ymax : Q) :
  outside_xy_boundary v [xmin; xmax; ymin; ymax] = Returns false ->
  xmin <= x v <= xmax /\ ymin <= y v <= ymax.
Proof.
  unfold outside_xy_boundary, index, Qgtb. cbn [nth_error bind].
  intros [= E]. rewrite !orb_false_iff, !Qltb_ge in E. tauto.
Qed.

Lemma to_local_origin (origin : Vec2d) (heading : Q) :
  veq (Stitcher.to_local origin heading origin) (mkVec2d 0 0).
Proof.
  unfold veq, Stitcher.to_local, SelfRotate, vsub. cbn [x y]. split; ring.
Qed.

(** What a call of [GetParkingBoundary] that returns true has done. *)
Lemma GetParkingBoundary_true_inv (fuel : nat) (frame frame' : Frame Box2d)
    (roi : list (list Vec2d)) :
  GetParkingBoundary config vehicle_params GetParkingSpotFromMap fuel frame
  = Returns (true, frame', roi) ->
  exists points nearby_path spot xmin xmax ymin ymax pose,
    GetParkingSpotFromMap frame = Some (points, nearby_path)
    /\ spot_corners points = Returns spot
    /\ frame'
       = with_info frame
           (push_end_pose
              (set_ROI_xy_boundary
                 (set_origin (open_space_info frame)
                    (Angle (vsub (Stitcher.right_top spot)
                                 (Stitcher.left_top spot)))
                    (Stitcher.left_top spot))
                 [xmin; xmax; ymin; ymax])
              pose)
    /\ (xmin <= x (vehicle_in_parking_frame frame') <= xmax
        /\ ymin <= y (vehicle_in_parking_frame frame') <= ymax)
    /\ (forall c,
          In c [Stitcher.left_top spot; Stitcher.left_down spot;
                Stitcher.right_down spot; Stitcher.right_top spot] ->
          xmin <= x (Stitcher.to_local (Stitcher.left_top spot)
                       (Angle (vsub (Stitcher.right_top spot)
                                    (Stitcher.left_top spot))) c) <= xmax
          /\ ymin <= y (Stitcher.to_local (Stitcher.left_top spot)
                          (Angle (vsub (Stitcher.right_top spot)
                                       (Stitcher.left_top spot))) c) <= ymax)
    /\ length pose = 4%nat
    /\ 0 <= parking_depth_buffer config
    /\ Forall (fun piece => (2 <= length piece)%nat) roi
    /\ roi <> [].
Proof.
  unfold GetParkingBoundary. intros E.
  apply bind_returns in E as ([st|] & L & E); [|discriminate].
  apply bind_returns in E as ([fuse_ok fused] & Fu & E).
  destruct fuse_ok; cbn [negb] in E; [|discriminate].
  apply bind_returns in E as (box & B & E).
  apply bind_returns in E as (outside & O & E).
  destruct outside; [discriminate|].
  apply bind_returns in E as (pose & Ps & [= <- <-]).
  apply locate_and_stitch_inv in L
    as (points & nearby_path & spot & lts & ltl & rts & rtl & sampled
        & Map & Sp & _ & _ & _ & Fr & Spot & St).
  apply xy_boundary_spec in B
    as (xmin & xmax & ymin & ymax & -> & In_box & _).
  apply outside_xy_boundary_false in O.
  destruct (StitchBoundary_shape _ _ _ _ _ _ _ _ _ St) as (Two & Sides & Corners).
  exists points, nearby_path, spot, xmin, xmax, ymin, ymax, pose.
  rewrite Fr in *.
  split; [exact Map|]. split; [exact Sp|]. split; [reflexivity|].
  split; [exact O|]. split; [|split; [|split; [|split]]].
  - intros c I. apply In_box, Corners. rewrite Spot.
    unfold Stitcher.parking_spot_boundary, localize_corners.
    cbn [Stitcher.left_top Stitcher.left_down Stitcher.right_down
         Stitcher.right_top].
    cbn [In] in *. intuition (subst; auto).
  - destruct (end_pose_of_spec config vehicle_params (stitched_spot st))
      as [[_ A]|(_ & end_y & R & _)]; [congruence|].
    rewrite R in Ps. injection Ps as <-. reflexivity.
  - destruct (end_pose_of_spec config vehicle_params (stitched_spot st))
      as [[_ A]|(Bf & _)]; [rewrite Ps in A; discriminate | exact Bf].
  - destruct Sides as (before & after & V). rewrite V in *.
    destruct (before ++ Stitcher.parking_spot_segments (stitched_spot st)
              ++ after) as [|first others] eqn:W;
      [destruct before; discriminate|].
    inversion Two as [|? ? L2 Fo]; subst.
    destruct (fuse_loop_two_point (Fuser.work others)
                (Fuser.mkCursor [] first others))
      as (out & Fu' & Two').
    + repeat split; [constructor | cbn [Fuser.cur]; lia | exact Fo].
    + apply Nat.le_refl.
    + unfold Fuser.FuseLineSegments in Fu. rewrite Fu' in Fu.
      injection Fu as <-. exact Two'.
  - unfold Fuser.FuseLineSegments in Fu.
    destruct (roi_parking_boundary st) as [|first others]; [discriminate|].
    apply fuse_loop_settled in Fu as [Ne _]; [exact Ne | constructor].
Qed.

End DeciderMore.

Section DeciderResults.
Import Decider.
Context `{Math} {Box2d : Type} `{BoxOps Box2d}.
Variable config : OpenSpaceRoiDeciderConfig.
Variable vehicle_params : VehicleParam.
Variable GetParkingSpotFromMap : Frame Box2d -> option (list Vec2d * Path).

(** X16.  When [GetParkingBoundary] returns true, the map search found a
    spot with its four corners; the frame now has the left-top corner as
    its origin and the direction of the top side as its heading, a box of
    four entries that holds the vehicle position, the four corners of the
    spot and so the origin of the parking frame, and four more entries
    (one pose) behind whatever end pose it held; the vehicle state, the
    obstacles and the stored vertices, edge counts and hyperplanes are as
    before.  The depth buffer of the configuration is not negative, and
    the boundary handed out is not empty and has at least two points in
    every piece. *)
Theorem GetParkingBoundary_true (fuel : nat) (frame frame' : Frame Box2d)
    (roi : list (list Vec2d)) :
  GetParkingBoundary config vehicle_params GetParkingSpotFromMap fuel frame
  = Returns (true, frame', roi) ->
  exists points nearby_path spot xmin xmax ymin ymax pose,
    GetParkingSpotFromMap frame = Some (points, nearby_path)
    /\ spot_corners points = Returns spot
    /\ vehicle_state frame' = vehicle_state frame
    /\ obstacles_by_frame frame' = obstacles_by_frame frame
    /\ origin_point (open_space_info frame') = Stitcher.left_top spot
    /\ origin_heading (open_space_info frame')
       = Angle (vsub (Stitcher.right_top spot) (Stitcher.left_top spot))
    /\ ROI_xy_boundary (open_space_info frame') = [xmin; xmax; ymin; ymax]
    /\ open_space_end_pose (open_space_info frame')
       = open_space_end_pose (open_space_info frame) ++ pose
    /\ length pose = 4%nat
    /\ obstacles_vertices_vec (open_space_info frame')
       = obstacles_vertices_vec (open_space_info frame)
    /\ obstacles_edges_num (open_space_info frame')
       = obstacles_edges_num (open_space_info frame)
    /\ obstacles_A (open_space_info frame') = obstacles_A (open_space_info frame)
    /\ obstacles_b (open_space_info frame') = obstacles_b (open_space_info frame)
    /\ (xmin <= x (vehicle_in_parking_frame frame') <= xmax
        /\ ymin <= y (vehicle_in_parking_frame frame') <= ymax)
    /\ (forall c,
          In c [Stitcher.left_top spot; Stitcher.left_down spot;
                Stitcher.right_down spot; Stitcher.right_top spot] ->
          xmin <= x (Stitcher.to_local (origin_point (open_space_info frame'))
                       (origin_heading (open_space_info frame')) c) <= xmax
          /\ ymin <= y (Stitcher.to_local
                          (origin_point (open_space_info frame'))
                          (origin_heading (open_space_info frame')) c) <= ymax)
    /\ (xmin <= 0 <= xmax /\ ymin <= 0 <= ymax)
    /\ 0 <= parking_depth_buffer config
    /\ Forall (fun piece => (2 <= length piece)%nat) roi
    /\ roi <> [].
Proof.
  intros E.
  apply GetParkingBoundary_true_inv in E
    as (points & nearby_path & spot & xmin & xmax & ymin & ymax & pose
        & Map & Sp & -> & V & C & Lp & Bf & Two & Ne).
  exists points, nearby_path, spot, xmin, xmax, ymin, ymax, pose.
  cbn [with_info open_space_info vehicle_state obstacles_by_frame
       push_end_pose set_ROI_xy_boundary set_origin origin_point
       origin_heading ROI_xy_boundary open_space_end_pose
       obstacles_vertices_vec obstacles_edges_num obstacles_A obstacles_b].
  repeat match goal with |- _ /\ _ => split end; trivial;
    try apply V; try (now apply C);
    destruct (C (Stitcher.left_top spot) (or_introl eq_refl)) as [Cx Cy];
    destruct (to_local_origin (Stitcher.left_top spot)
                (Angle (vsub (Stitcher.right_top spot)
                             (Stitcher.left_top spot)))) as [Ox Oy];
    cbn [x y] in Ox, Oy; lra.
Qed.

(** X17.  When [Process] returns the status OK, the frame it was given
    named a parking space and held no vertex lists; the vehicle state,
    the obstacles and the routing request are as before; the frame
    holds a box of four entries with the vehicle position inside, one
    more pose of four entries, the boundary pieces (not empty, each of
    at least two points) followed by at most one piece per obstacle, an
    obstacle count and a list of edge counts of that length, and
    matrices [A] and [b] with one row per edge. *)
Theorem Process_ok (fuel : nat) (frame : Frame Box2d) (st : Status)
    (result : option (Frame Box2d)) :
  Process config vehicle_params GetParkingSpotFromMap fuel (Some frame)
  = Returns (st, result) ->
  code st = OK ->
  exists frame' xmin xmax ymin ymax pose roi perception,
    result = Some frame' /\ st = Status_OK
    /\ routing_parking_space_id frame <> None
    /\ obstacles_vertices_vec (open_space_info frame) = []
    /\ vehicle_state frame' = vehicle_state frame
    /\ obstacles_by_frame frame' = obstacles_by_frame frame
    /\ routing_parking_space_id frame' = routing_parking_space_id frame
    /\ ROI_xy_boundary (open_space_info frame') = [xmin; xmax; ymin; ymax]
    /\ (xmin <= x (vehicle_in_parking_frame frame') <= xmax
        /\ ymin <= y (vehicle_in_parking_frame frame') <= ymax)
    /\ open_space_end_pose (open_space_info frame')
       = open_space_end_pose (open_space_info frame) ++ pose
    /\ length pose = 4%nat
    /\ obstacles_vertices_vec (open_space_info frame') = roi ++ perception
    /\ roi <> []
    /\ Forall (fun piece => (2 <= length piece)%nat) roi
    /\ (length perception <= length (obstacles_by_frame frame))%nat
    /\ obstacles_num (open_space_info frame')
       = length (obstacles_vertices_vec (open_space_info frame'))
    /\ length (obstacles_edges_num (open_space_info frame'))
       = obstacles_num (open_space_info frame')
    /\ length (obstacles_A (open_space_info frame'))
       = list_sum (obstacles_edges_num (open_space_info frame'))
    /\ length (obstacles_b (open_space_info frame'))
       = list_sum (obstacles_edges_num (open_space_info frame')).
Proof.
  unfold Process. intros E Ok.
  destruct (routing_parking_space_id frame) as [id|] eqn:Id;
    [|injection E as <- _; discriminate Ok].
  apply bind_returns in E as ([[ok frame1] roi] & G & E).
  destruct ok; cbn [negb] in E; [|injection E as <- _; discriminate Ok].
  apply bind_returns in E as ([ok2 info2] & Fo & E).
  destruct ok2; cbn [negb] in E; [|injection E as <- _; discriminate Ok].
  injection E as <- <-.
  apply GetParkingBoundary_true_inv in G
    as (points & nearby_path & spot & xmin & xmax & ymin & ymax & pose
        & _ & _ & -> & V & _ & Lp & _ & Two & Ne).
  unfold Obstacles.FormulateBoundaryConstraints in Fo.
  apply bind_returns in Fo as ([ok1 info1] & L & Fo).
  destruct (LoadObstacleInVertices_returns _ _ _ _ _ _ _ L)
    as (-> & perception & Vv & Nn & Ee & Lpn & _).
  cbn [negb] in Fo.
  apply bind_returns in Fo as ([ok3 info3] & Hp & Fo).
  destruct ok3; cbn [negb] in Fo; [|discriminate]. injection Fo as <-.
  unfold Obstacles.LoadObstacleInHyperPlanes in Hp.
  apply bind_returns in Hp as ([ok Ab] & Gh & [= -> <-]).
  destruct Ab as [A b].
  cbn [Obstacles.set_hyperplanes obstacles_num obstacles_edges_num
       obstacles_vertices_vec obstacles_A obstacles_b fst snd] in Gh.
  apply GetHyperPlanes_rows in Gh as (N & LA & Lb & _).
  cbn [with_info open_space_info vehicle_state obstacles_by_frame
       push_end_pose set_ROI_xy_boundary set_origin origin_point
       origin_heading ROI_xy_boundary open_space_end_pose
       obstacles_vertices_vec obstacles_edges_num obstacles_A obstacles_b
       routing_parking_space_id] in Vv, Lpn.
  assert (obstacles_vertices_vec (open_space_info frame) = []) as Fresh.
  { rewrite Vv, Nn, !length_app in N.
    destruct (obstacles_vertices_vec (open_space_info frame));
      [reflexivity | simpl in N; lia]. }
  rewrite Fresh in Vv. cbn [app] in Vv.
  eexists. exists xmin, xmax, ymin, ymax, pose, roi, perception.
  split; [reflexivity|]. split; [reflexivity|]. split; [congruence|].
  split; [exact Fresh|].
  cbn [with_info open_space_info vehicle_state obstacles_by_frame
       routing_parking_space_id Obstacles.set_hyperplanes
       ROI_xy_boundary open_space_end_pose obstacles_vertices_vec
       obstacles_edges_num obstacles_num obstacles_A obstacles_b fst snd].
  assert (ROI_xy_boundary info1 = [xmin; xmax; ymin; ymax]
          /\ open_space_end_pose info1
             = open_space_end_pose (open_space_info frame) ++ pose
          /\ origin_point info1 = Stitcher.left_top spot
          /\ origin_heading info1
             = Angle (vsub (Stitcher.right_top spot) (Stitcher.left_top spot)))
    as (Rb & Ep & Op & Oh).
  { clear - L. unfold Obstacles.LoadObstacleInVertices in L.
    apply bind_returns in L as (pe & _ & L).
    destruct (enable_perception_obstacles config).
    - apply bind_returns in L as (pv & _ & [= <-]). now repeat split.
    - injection L as <-. now repeat split. }
  assert (vehicle_in_parking_frame
            (with_info
               (with_info frame
                  (push_end_pose
                     (set_ROI_xy_boundary
                        (set_origin (open_space_info frame)
                           (Angle (vsub (Stitcher.right_top spot)
                                        (Stitcher.left_top spot)))
                           (Stitcher.left_top spot))
                        [xmin; xmax; ymin; ymax])
                     pose))
               (Obstacles.set_hyperplanes
                  (Obstacles.set_hyperplanes info1
                     (repeat (0, 0) (list_sum (obstacles_edges_num info1)),
                      repeat 0 (list_sum (obstacles_edges_num info1))))
                  (A, b)))
          = vehicle_in_parking_frame
              (with_info frame
                 (push_end_pose
                    (set_ROI_xy_boundary
                       (set_origin (open_space_info frame)
                          (Angle (vsub (Stitcher.right_top spot)
                                       (Stitcher.left_top spot)))
                          (Stitcher.left_top spot))
                       [xmin; xmax; ymin; ymax])
                    pose))) as ->.
  { unfold vehicle_in_parking_frame.
    cbn [with_info open_space_info vehicle_state Obstacles.set_hyperplanes
         origin_point origin_heading push_end_pose set_ROI_xy_boundary
         set_origin].
    now rewrite Op, Oh. }
  destruct V as [[V1 V2] [V3 V4]].
  repeat match goal with |- _ /\ _ => split end; trivial; try congruence.
  rewrite Ee, length_app, length_map, repeat_length. lia.
Qed.

End DeciderResults.

Section DeciderResultsExample.
Import Decider.
Local Abbreviation P := mkVec2d.

Lemma parking_frame_isometry_witness :
  @Rescaling.rotation_exact QuarterTurns 1
  /\ veq (@Stitcher.to_local QuarterTurns (P 14 (- (2))) 1
            (@Stitcher.to_world QuarterTurns (P 14 (- (2))) 1 (P 3 5)))
         (P 3 5)
  /\ DistanceSquareTo (@Stitcher.to_local QuarterTurns (P 14 (- (2))) 1 (P 0 0))
                      (@Stitcher.to_local QuarterTurns (P 14 (- (2))) 1 (P 3 5))
     == DistanceSquareTo (P 0 0) (P 3 5).
Proof.
  assert (@Rescaling.rotation_exact QuarterTurns 1) as R by (repeat split).
  split; [exact R|].
  destruct (@parking_frame_isometry QuarterTurns (P 14 (- (2))) 1
              (P 0 0) (P 3 5) (P 1 1) R) as (Back & _ & Dist & _).
  split; [exact Back | exact Dist].
Defined.

Lemma GetParkingBoundary_true_witness :
  exists frame' roi,
    @GetParkingBoundary QuarterTurns AxisBox example_config
      example_vehicle_params straight_lane_map 100 (frame_with_vehicle 15 0)
    = Returns (true, frame', roi)
    /\ length (ROI_xy_boundary (open_space_info frame')) = 4%nat
    /\ Forall (fun piece => (2 <= length piece)%nat) roi.
Proof.
  assert (exists frame' roi,
            @GetParkingBoundary QuarterTurns AxisBox example_config
              example_vehicle_params straight_lane_map 100
              (frame_with_vehicle 15 0)
            = Returns (true, frame', roi)) as (frame' & roi & E)
    by (eexists; eexists; vm_compute; reflexivity).
  exists frame', roi. split; [exact E|].
  destruct (@GetParkingBoundary_true QuarterTurns AxisBox example_config
              example_vehicle_params straight_lane_map 100
              (frame_with_vehicle 15 0) frame' roi E)
    as (points & nearby_path & spot & xmin & xmax & ymin & ymax & pose & Fs).
  split; [|apply Fs].
  destruct Fs as (_ & _ & _ & _ & _ & _ & -> & _). reflexivity.
Defined.

Lemma Process_ok_witness :
  exists st frame',
    @Process QuarterTurns AxisBox AxisBoxOps example_config
      example_vehicle_params straight_lane_map 100
      (Some (frame_with_vehicle 15 0))
    = Returns (st, Some frame')
    /\ code st = OK
    /\ length (obstacles_A (open_space_info frame'))
       = list_sum (obstacles_edges_num (open_space_info frame')).
Proof.
  assert (exists st frame',
            @Process QuarterTurns AxisBox AxisBoxOps example_config
              example_vehicle_params straight_lane_map 100
              (Some (frame_with_vehicle 15 0))
            = Returns (st, Some frame') /\ code st = OK)
    as (st & frame' & E & C)
    by (eexists; eexists; split; vm_compute; reflexivity).
  exists st, frame'. split; [exact E|]. split; [exact C|].
  destruct (@Process_ok QuarterTurns AxisBox AxisBoxOps example_config
              example_vehicle_params straight_lane_map 100
              (frame_with_vehicle 15 0) st (Some frame') E C)
    as (f & xmin & xmax & ymin & ymax & pose & roi & perception & Fs).
  destruct Fs as ([= <-] & Fs).
  repeat match type of Fs with
         | _ /\ _ /\ _ => destruct Fs as [_ Fs]
         end.
  apply Fs.
Defined.

End DeciderResultsExample.

(** ** The segment fuser: when it returns *)

Section FuserDefined.
Import Fuser.
Local Abbreviation P := mkVec2d.

Lemma nonempty_step c :
  nonempty_state c ->
  match fuse_step c with
  | Continue c' => nonempty_state c'
  | Exit ok v => v <> [] /\ Forall (fun s => s <> []) v
  | Fault => False
  end.
Proof.
  destruct c as [dn s rs]. unfold fuse_step, nonempty_state.
  cbn [done cur rest]. intros (Fd & Ns & Fr). destruct rs as [|t rs].
  - split; [destruct dn; discriminate|].
    apply Forall_app. split; [exact Fd | now constructor].
  - inversion Fr as [|? ? Nt Frs]; subst.
    pose proof (loop_body_cases dn s t rs) as I.
    destruct (loop_body dn s t rs) as [c'|ok v|].
    + destruct I as [(-> & _)|(a & p & q0 & q & t' & _ & _ & _ & -> & _ & _ & ->)];
        cbn [done cur rest].
      * repeat split; trivial. apply Forall_app. split; [exact Fd | now constructor].
      * repeat split; trivial; [destruct s; discriminate|].
        destruct t' as [|z t']; [exact Frs|]. constructor; [discriminate | exact Frs].
    + destruct I as [_ ->]. split; [destruct dn; discriminate|].
      apply Forall_app. split; [exact Fd|]. now repeat constructor.
    + destruct I; congruence.
Qed.

Lemma fuse_loop_nonempty fuel : forall c,
  nonempty_state c -> (work (rest c) <= fuel)%nat ->
  exists ok out,
    fuse_loop fuel c = Returns (ok, out)
    /\ out <> [] /\ Forall (fun s => s <> []) out.
Proof.
  induction fuel as [|fuel IH]; intros c S W; simpl;
    pose proof (nonempty_step c S) as St;
    destruct (fuse_step c) as [c'|ok v|] eqn:E; try (exfalso; exact St);
    try (now exists ok, v).
  - apply step_work in E. lia.
  - apply IH; [exact St|]. apply step_work in E. lia.
Qed.

(** X1.  On a vector that is not empty and holds no empty segment the
    fuser comes to an end and returns, with a flag and a vector that
    again is not empty and holds no empty segment: the bound on the
    passes of the loop is enough, and no [back()], [front()] or indexed
    read of the loop leaves its segment. *)
Theorem FuseLineSegments_returns (v : list segment) :
  v <> [] -> Forall (fun s => s <> []) v ->
  exists ok out,
    FuseLineSegments v = Returns (ok, out)
    /\ out <> [] /\ Forall (fun s => s <> []) out.
Proof.
  destruct v as [|first others]; [congruence|]. intros _ F.
  inversion F as [|? ? N Fo]; subst.
  apply fuse_loop_nonempty; [|apply Nat.le_refl].
  repeat split; [constructor | exact N | exact Fo].
Qed.

Lemma FuseLineSegments_returns_witness :
  exists ok out,
    FuseLineSegments [[P 0 0]; [P 0 0; P 1 0]; [P 1 0; P 1 (- (1)); P 2 2]]
    = Returns (ok, out)
    /\ out <> [] /\ Forall (fun s => s <> []) out.
Proof.
  apply FuseLineSegments_returns;
    [discriminate | repeat constructor; discriminate].
Defined.

End FuserDefined.

(** ** The boundary builder: when the sampling loop ends *)

Section BuilderMore.
Import Builder.
Context `{Math}.
Variable config : OpenSpaceRoiDeciderConfig.
Variable nearby_path : Path.
Variables start_s end_s : Q.

Local Abbreviation index_at := Sampling.index_at.
Local Abbreviation station := (Sampling.station config start_s end_s).
Local Abbreviation heading_at := (Sampling.heading_at nearby_path).
Local Abbreviation kept := (Sampling.kept config nearby_path start_s end_s).
Local Abbreviation record_all := (Sampling.record_all nearby_path).

Lemma index_at_val (k : nat) : index_at k == inject_Z (Z.of_nat k).
Proof.
  induction k as [|k IH]; [reflexivity|].
  change (index_at (S k)) with (index_at k + 1).
  rewrite IH, Nat2Z.inj_succ, <- Z.add_1_r, inject_Z_plus. reflexivity.
Qed.

Lemma index_at_pos (k : nat) : (1 <= k)%nat -> 1 <= index_at k.
Proof.
  intros L. rewrite index_at_val.
  change 1 with (inject_Z 1). rewrite <- Zle_Qle. lia.
Qed.

Lemma first_hit (N : nat) : forall P : nat -> Prop,
  (forall k, {P k} + {~ P k}) -> P N ->
  exists n, (n <= N)%nat /\ P n /\ forall k, (k < n)%nat -> ~ P k.
Proof.
  induction N as [|N IH]; intros P Dec PN.
  - exists 0%nat. repeat split; trivial. intros k Hk. lia.
  - destruct (Dec 0%nat) as [P0|NP0].
    + exists 0%nat. repeat split; trivial; [lia|]. intros k Hk. lia.
    + destruct (IH (fun k => P (S k)) (fun k => Dec (S k)) PN)
        as (n & Ln & Pn & Before).
      exists (S n). repeat split; trivial; [lia|].
      intros [|k] Hk; [exact NP0 | apply Before; lia].
Qed.

(** With a segment length above zero some multiple of it reaches
    [end_s]; the loop gets to [end_s] for the first time on some pass. *)
Lemma reaches_end :
  0 < roi_linesegment_length config -> start_s <= end_s ->
  exists n,
    station n == end_s /\ forall k, (k < n)%nat -> ~ station k == end_s.
Proof.
  intros Lpos L.
  set (len := roi_linesegment_length config) in *.
  set (N := S (Z.to_nat (Qceiling (end_s / len)))).
  assert (station N == end_s) as Hit.
  { unfold Sampling.station, N, next_station, Qgeb. fold len.
    assert (end_s <= index_at (S (Z.to_nat (Qceiling (end_s / len)))) * len)
      as B.
    { rewrite index_at_val.
      assert (end_s / len
              <= inject_Z (Z.of_nat (S (Z.to_nat (Qceiling (end_s / len))))))
        as C.
      { apply Qle_trans with (inject_Z (Qceiling (end_s / len)));
          [apply Qle_ceiling|].
        rewrite <- Zle_Qle. lia. }
      apply (Qmult_le_compat_r _ _ len) in C; [|now apply Qlt_le_weak].
      setoid_replace (end_s / len * len) with end_s in C
        by (field; intros Z; rewrite Z in Lpos; discriminate Lpos).
      exact C. }
    apply Qle_bool_iff in B. rewrite B. reflexivity. }
  destruct (first_hit N (fun k => station k == end_s)
              (fun k => Qeq_dec (station k) end_s) Hit)
    as (n & _ & At & Before).
  now exists n.
Qed.

Lemma kept_start : kept 0 = true.
Proof.
  unfold Sampling.kept, skips. cbn [Sampling.station].
  rewrite (Qeq_eq_bool _ _ (Qeq_refl start_s)). cbn [negb].
  now rewrite andb_false_r.
Qed.

Lemma station_le_end (k : nat) : start_s <= end_s -> station k <= end_s.
Proof. intros L. apply Qle_bool_iff, station_le, L. Qed.

(** What the builder hands back when the loop gets to [end_s] for the
    first time on pass [n]. *)
Lemma sampling_result (n : nat) :
  start_s <= end_s ->
  station n == end_s -> (forall k, (k < n)%nat -> ~ station k == end_s) ->
  exists smp,
    (forall fuel, (n < fuel)%nat ->
       BuildLaneBoundary config nearby_path start_s end_s fuel = Returns smp)
    /\ center_lane_s smp = map station (filter kept (seq 0 (S n)))
    /\ Sampling.aligned smp.
Proof.
  intros L At Before.
  exists (record_all no_samples (map station (filter kept (seq 0 (S n))))).
  split; [|split].
  - intros fuel Hf. unfold BuildLaneBoundary.
    apply (sample_loop_from config nearby_path start_s end_s n L Before At
             n 0%nat fuel no_samples); lia.
  - apply record_all_center_lane_s.
  - apply record_all_aligned. unfold Sampling.aligned. simpl. tauto.
Qed.

(** X18.  With a segment length above zero and [start_s <= end_s] the
    sampling loop ends: from some amount of fuel on the builder returns
    the same samples.  The six arrays have the same length; the recorded
    stations start with [start_s], end with [end_s] and none of them is
    beyond [end_s]. *)
Theorem sampling_returns :
  0 < roi_linesegment_length config -> start_s <= end_s ->
  exists n smp mid last,
    (forall fuel, (n < fuel)%nat ->
       BuildLaneBoundary config nearby_path start_s end_s fuel = Returns smp)
    /\ Sampling.aligned smp
    /\ center_lane_s smp = start_s :: mid
    /\ back (center_lane_s smp) = Some last /\ last == end_s
    /\ Forall (fun s => s <= end_s) (center_lane_s smp).
Proof.
  intros Lpos L.
  destruct (reaches_end Lpos L) as (n & At & Before).
  destruct (sampling_result n L At Before) as (smp & R & Cs & A).
  exists n, smp, (map station (filter kept (seq 1 n))), (station n).
  split; [exact R|]. split; [exact A|].
  assert (center_lane_s smp = start_s :: map station (filter kept (seq 1 n)))
    as Shape.
  { rewrite Cs. change (seq 0 (S n)) with (0%nat :: seq 1 n).
    cbn [filter]. now rewrite kept_start. }
  split; [exact Shape|]. split; [|split; [exact At|]].
  - rewrite Cs. rewrite seq_S, filter_app, map_app. cbn [filter Nat.add].
    rewrite (kept_end config nearby_path start_s end_s n At).
    apply back_app_one.
  - rewrite Cs. apply Forall_forall. intros s I.
    apply in_map_iff in I as (k & <- & _). now apply station_le_end.
Qed.

(** X19.  The stations after [start_s] are counted from arc length 0,
    not from [start_s]: with a segment length below [start_s], the
    second pass of the loop is at one segment length, before [start_s],
    and when the heading there differs from the heading at [start_s] by
    the minimum angle or more that station is recorded second, so the
    recorded stations are not in ascending order. *)
Theorem sampling_steps_back :
  0 < roi_linesegment_length config ->
  roi_linesegment_length config < start_s -> start_s < end_s ->
  roi_linesegment_min_angle config
  <= Qabs (NormalizeAngle (heading_at (station 1) - heading_at start_s)) ->
  exists n smp second more,
    (forall fuel, (n < fuel)%nat ->
       BuildLaneBoundary config nearby_path start_s end_s fuel = Returns smp)
    /\ center_lane_s smp = start_s :: second :: more
    /\ second == roi_linesegment_length config
    /\ second < start_s.
Proof.
  intros Lpos Short L Turn.
  destruct (reaches_end Lpos (Qlt_le_weak _ _ L)) as (n & At & Before).
  destruct (sampling_result n (Qlt_le_weak _ _ L) At Before)
    as (smp & R & Cs & _).
  assert (station 1 == roi_linesegment_length config) as One.
  { unfold Sampling.station, next_station, Qgeb.
    change (index_at 1) with (0 + 1).
    destruct (Qle_bool end_s ((0 + 1) * roi_linesegment_length config)) eqn:C.
    - apply Qle_bool_iff in C. exfalso. lra.
    - ring. }
  destruct n as [|[|n]].
  - exfalso. cbn [Sampling.station] in At. lra.
  - exfalso. rewrite One in At. lra.
  - exists (S (S n)), smp, (station 1),
      (map station (filter kept (seq 2 (S n)))).
    split; [exact R|]. split; [|split; [exact One | lra]].
    rewrite Cs. change (seq 0 (S (S (S n)))) with (0 :: 1 :: seq 2 (S n))%nat.
    cbn [filter]. rewrite kept_start.
    assert (kept 1 = true) as ->; [|reflexivity].
    unfold Sampling.kept, skips. cbn [pred].
    change (Sampling.station config start_s end_s 0) with start_s.
    apply negb_true_iff. rewrite !andb_false_iff. left. left.
    apply Qltb_ge. exact Turn.
Qed.

Lemma station_below_end (k : nat) :
  roi_linesegment_length config <= 0 -> 0 < end_s -> (1 <= k)%nat ->
  station k < end_s.
Proof.
  intros Neg Pos Hk. destruct k as [|k]; [lia|].
  unfold Sampling.station, next_station, Qgeb.
  pose proof (index_at_pos (S k) Hk) as I.
  assert (index_at (S k) * roi_linesegment_length config <= 0) as B by nra.
  destruct (Qle_bool end_s (index_at (S k) * roi_linesegment_length config))
    eqn:C; [apply Qle_bool_iff in C; exfalso; lra | lra].
Qed.

Lemma sample_loop_diverges :
  roi_linesegment_length config <= 0 -> 0 < end_s ->
  forall fuel k h acc, (1 <= k)%nat ->
    sample_loop config nearby_path start_s end_s fuel (index_at k) (station k)
                h acc = OutOfFuel.
Proof.
  intros Neg Pos.
  induction fuel as [|fuel IH]; intros k h acc Hk;
    pose proof (station_below_end k Neg Pos Hk) as B; simpl sample_loop;
    rewrite (proj2 (Qle_bool_iff _ _) (Qlt_le_weak _ _ B)); [reflexivity|].
  assert (Qeq_bool (station k) end_s = false) as Ne.
  { destruct (Qeq_bool (station k) end_s) eqn:E; [|reflexivity].
    apply Qeq_bool_iff in E. exfalso. lra. }
  destruct (skips config start_s end_s (station k) _ h).
  - apply (IH (S k)). lia.
  - rewrite Ne. apply (IH (S k)). lia.
Qed.

(** X20.  With a segment length that is zero or negative, [start_s]
    before [end_s] and [end_s] above zero, the sampling loop never ends:
    every station after the first stays below [end_s], so neither the
    loop condition nor the [break] stops it, whatever the fuel. *)
Theorem sampling_never_ends :
  roi_linesegment_length config <= 0 -> 0 < end_s -> start_s < end_s ->
  forall fuel,
    BuildLaneBoundary config nearby_path start_s end_s fuel = OutOfFuel.
Proof.
  intros Neg Pos L fuel. unfold BuildLaneBoundary.
  destruct fuel as [|fuel]; simpl sample_loop;
    rewrite (proj2 (Qle_bool_iff _ _) (Qlt_le_weak _ _ L)); [reflexivity|].
  unfold skips. rewrite (Qeq_eq_bool _ _ (Qeq_refl start_s)).
  cbn [negb]. rewrite andb_false_r. cbn [andb].
  assert (Qeq_bool start_s end_s = false) as ->.
  { destruct (Qeq_bool start_s end_s) eqn:E; [|reflexivity].
    apply Qeq_bool_iff in E. exfalso. lra. }
  apply (sample_loop_diverges Neg Pos fuel 1%nat). lia.
Qed.

End BuilderMore.

Section BuilderMoreExample.
Local Abbreviation P := mkVec2d.

Lemma sampling_returns_witness :
  exists n smp,
    (forall fuel, (n < fuel)%nat ->
       @Builder.BuildLaneBoundary QuarterTurns example_config gentle_curve
         0 3 fuel = Returns smp)
    /\ Sampling.aligned smp.
Proof.
  destruct (@sampling_returns QuarterTurns example_config gentle_curve 0 3)
    as (n & smp & mid & last & R & A & _).
  - reflexivity.
  - discriminate.
  - exists n, smp. split; [exact R | exact A].
Defined.

Lemma sampling_steps_back_witness :
  exists n smp second more,
    (forall fuel, (n < fuel)%nat ->
       @Builder.BuildLaneBoundary QuarterTurns example_config gentle_curve
         5 7 fuel = Returns smp)
    /\ Builder.center_lane_s smp = 5 :: second :: more
    /\ second < 5.
Proof.
  destruct (@sampling_steps_back QuarterTurns example_config gentle_curve 5 7)
    as (n & smp & second & more & R & S & _ & B).
  - reflexivity.
  - reflexivity.
  - reflexivity.
  - vm_compute. discriminate.
  - exists n, smp, second, more. split; [exact R|]. split; [exact S | exact B].
Defined.

Lemma sampling_never_ends_witness :
  @Builder.BuildLaneBoundary QuarterTurns zero_length_config gentle_curve
    0 3 1000 = OutOfFuel.
Proof.
  apply (@sampling_never_ends QuarterTurns zero_length_config gentle_curve 0 3).
  - discriminate.
  - reflexivity.
  - reflexivity.
Defined.

End BuilderMoreExample.

(** ** The map search *)

Section MapSearchFacts.
Import MapSearch.
Context `{Math} {MapPath : Type} `{MapService MapPath}.
Variable config : OpenSpaceRoiDeciderConfig.
Variable vehicle_state_ : VehicleState.
Variable target_parking_spot_id_ : Id.

Lemma search_closed_form (nearby_path : MapPath) :
  forall target_parking_spot,
    SearchTargetParkingSpotOnPath target_parking_spot_id_ nearby_path
                                  target_parking_spot
    = if existsb (fun object_id => String.eqb object_id target_parking_spot_id_)
                 (parking_space_overlaps nearby_path)
      then GetParkingSpaceById target_parking_spot_id_
      else target_parking_spot.
Proof.
  unfold SearchTargetParkingSpotOnPath.
  induction (parking_space_overlaps nearby_path) as [|o os IH];
    intros target; cbn [fold_left existsb]; [reflexivity|].
  rewrite IH. destruct (String.eqb o target_parking_spot_id_) eqn:E.
  - apply String.eqb_eq in E. subst o. cbn [orb].
    now destruct (existsb (fun object_id : String.string =>
                             String.eqb object_id target_parking_spot_id_) os).
  - reflexivity.
Qed.

(** X21.  The search on a path looks the target id up in the map when
    some parking space overlapping the path has that id, and leaves the
    pointer as it was otherwise; a parking space found on an earlier path
    is given up when the id overlaps the new path and the map has no
    parking space for it. *)
Theorem search_looks_up_target (nearby_path : MapPath)
    (target_parking_spot : option ParkingSpaceInfo) :
  (In target_parking_spot_id_ (parking_space_overlaps nearby_path) ->
   SearchTargetParkingSpotOnPath target_parking_spot_id_ nearby_path
                                 target_parking_spot
   = GetParkingSpaceById target_parking_spot_id_)
  /\ (~ In target_parking_spot_id_ (parking_space_overlaps nearby_path) ->
      SearchTargetParkingSpotOnPath target_parking_spot_id_ nearby_path
                                    target_parking_spot
      = target_parking_spot).
Proof.
  rewrite search_closed_form.
  destruct (existsb (fun object_id => String.eqb object_id target_parking_spot_id_)
                    (parking_space_overlaps nearby_path)) eqn:E.
  - split; [reflexivity|]. intros N. exfalso. apply N.
    apply existsb_exists in E as (o & I & Eo).
    apply String.eqb_eq in Eo. now subst o.
  - split; [|reflexivity]. intros I. exfalso.
    assert (existsb (fun object_id => String.eqb object_id target_parking_spot_id_)
                    (parking_space_overlaps nearby_path) = true) as T
      by (apply existsb_exists; exists target_parking_spot_id_;
          split; [exact I | apply String.eqb_refl]).
    congruence.
Qed.

Lemma search_from_null (nearby_path : MapPath) (spot : ParkingSpaceInfo) :
  SearchTargetParkingSpotOnPath target_parking_spot_id_ nearby_path None
  = Some spot ->
  In target_parking_spot_id_ (parking_space_overlaps nearby_path)
  /\ GetParkingSpaceById target_parking_spot_id_ = Some spot.
Proof.
  rewrite search_closed_form.
  destruct (existsb _ _) eqn:E; [|discriminate].
  intros G. split; [|exact G].
  apply existsb_exists in E as (o & I & Eo).
  apply String.eqb_eq in Eo. now subst o.
Qed.

(** The successor loop, when it comes out with a parking space. *)
Lemma successors_loop_found (nearest_lanesegment : LaneSegment) :
  forall successors segments_vector nearby_path path' spot,
    successors_loop target_parking_spot_id_ nearest_lanesegment successors
                    segments_vector nearby_path None
    = Returns (path', Some spot) ->
    exists nexts,
      nexts <> [] /\ (length nexts <= length successors)%nat
      /\ Forall2 (fun id s =>
                    exists l, GetLaneById id = Some l
                              /\ whole_lane l = Returns s)
                 (firstn (length nexts) successors) nexts
      /\ path' = Some (new_Path (segments_vector
                                 ++ with_nearest nearest_lanesegment nexts))
      /\ In target_parking_spot_id_
            (parking_space_overlaps
               (new_Path (segments_vector
                          ++ with_nearest nearest_lanesegment nexts)))
      /\ GetParkingSpaceById target_parking_spot_id_ = Some spot.
Proof.
  induction successors as [|id successors IH];
    intros segs path path' spot; simpl; [discriminate|].
  destruct (GetLaneById id) as [next_lane|] eqn:G; [|discriminate].
  intros E. apply bind_returns in E as (next & W & E).
  destruct (SearchTargetParkingSpotOnPath target_parking_spot_id_
              (new_Path ((segs ++ [nearest_lanesegment]) ++ [next])) None)
    as [found|] eqn:S.
  - injection E as <- <-. apply search_from_null in S as [I L].
    exists [next]. unfold with_nearest. cbn [flat_map app length firstn].
    rewrite <- app_assoc in I. cbn [app] in I.
    rewrite <- app_assoc. cbn [app].
    repeat split; trivial; [discriminate | lia |].
    constructor; [now exists next_lane | constructor].
  - apply IH in E as (nexts & Ne & Ln & F & -> & I & L).
    exists (next :: nexts). unfold with_nearest in *.
    cbn [flat_map app length firstn].
    rewrite <- !app_assoc in I. cbn [app] in I.
    rewrite <- !app_assoc. cbn [app].
    repeat split; trivial; [discriminate | lia |].
    constructor; [now exists next_lane | exact F].
Qed.

(** X22.  When [GetParkingSpotFromMap], called with null pointers for
    the spot and the path as [GetParkingBoundary] does, returns true: the
    frame and the frame history are there; the lane the search started
    from is stored in the frame; the spot handed out is the parking space
    the map has for the target id, and that id overlaps the path handed
    out; the path is built from the nearest lane alone when it has no
    successor, and otherwise from the nearest lane in front of each
    successor tried up to the one where the spot was found; the middle of
    the two bottom corners is nearer to the vehicle along the path than
    [parking_start_range], which therefore is above zero. *)
Theorem GetParkingSpotFromMap_true (frame latest : option TargetInfo)
    (r : found (MapPath := MapPath)) :
  GetParkingSpotFromMap config vehicle_state_ target_parking_spot_id_
                        frame latest None None = Returns r ->
  found_ok r = true ->
  exists info previous nearest_lane nearest_lanesegment spot segments
         left_bottom_point right_bottom_point,
    frame = Some info /\ latest = Some previous
    /\ nearest_lane_of vehicle_state_ info previous = Some nearest_lane
    /\ whole_lane nearest_lane = Returns nearest_lanesegment
    /\ found_frame r
       = Some {| target_parking_spot_id := target_parking_spot_id info;
                 target_parking_lane := Some nearest_lane |}
    /\ found_spot r = Some spot
    /\ GetParkingSpaceById target_parking_spot_id_ = Some spot
    /\ found_path r = Some (new_Path segments)
    /\ In target_parking_spot_id_ (parking_space_overlaps (new_Path segments))
    /\ ((successor_id nearest_lane = [] /\ segments = [nearest_lanesegment])
        \/ exists nexts,
             nexts <> []
             /\ (length nexts <= length (successor_id nearest_lane))%nat
             /\ Forall2 (fun id s =>
                           exists l, GetLaneById id = Some l
                                     /\ whole_lane l = Returns s)
                        (firstn (length nexts) (successor_id nearest_lane))
                        nexts
             /\ segments = with_nearest nearest_lanesegment nexts)
    /\ nth_error (polygon_points spot) 0 = Some left_bottom_point
    /\ nth_error (polygon_points spot) 1 = Some right_bottom_point
    /\ Qabs ((fst (GetNearestPoint (new_Path segments) left_bottom_point)
              + fst (GetNearestPoint (new_Path segments) right_bottom_point))
             / 2
             - fst (GetNearestPoint (new_Path segments)
                      (mkVec2d (vehicle_x vehicle_state_)
                               (vehicle_y vehicle_state_))))
       < parking_start_range config
    /\ 0 < parking_start_range config.
Proof.
  unfold GetParkingSpotFromMap.
  destruct frame as [info|]; [|intros [= <-]; discriminate].
  destruct latest as [previous|]; [|intros [= <-]; discriminate].
  destruct (nearest_lane_of vehicle_state_ info previous) as [nearest_lane|]
    eqn:N; [|intros [= <-]; discriminate].
  intros E Ok.
  apply bind_returns in E as (nearest & W & E).
  apply bind_returns in E as ([path target] & Lp & E).
  destruct target as [spot|]; [|injection E as <-; discriminate].
  apply bind_returns in E as (p & Pp & E).
  destruct path as [path|]; [|discriminate]. injection Pp as ->.
  apply bind_returns in E as (near & C & [= <-]).
  cbn [found_ok] in Ok. subst near.
  unfold CheckDistanceToParkingSpot in C.
  apply bind_returns in C as (lb & Alb & C). apply at_returns in Alb.
  apply bind_returns in C as (rb & Arb & C). apply at_returns in Arb.
  destruct (Qltb _ (parking_start_range config)) eqn:D; [|discriminate].
  apply Qltb_lt in D.
  assert (exists segments,
            p = new_Path segments
            /\ In target_parking_spot_id_
                  (parking_space_overlaps (new_Path segments))
            /\ GetParkingSpaceById target_parking_spot_id_ = Some spot
            /\ ((successor_id nearest_lane = [] /\ segments = [nearest])
                \/ exists nexts,
                     nexts <> []
                     /\ (length nexts <= length (successor_id nearest_lane))%nat
                     /\ Forall2 (fun id s =>
                                   exists l, GetLaneById id = Some l
                                             /\ whole_lane l = Returns s)
                                (firstn (length nexts)
                                        (successor_id nearest_lane)) nexts
                     /\ segments = with_nearest nearest nexts))
    as (segments & -> & I & G & Shape).
  { destruct (successor_id nearest_lane) as [|id ids] eqn:Su.
    - injection Lp as <- S. apply search_from_null in S as [I G].
      exists [nearest]. repeat split; trivial. now left.
    - apply successors_loop_found in Lp as (nexts & Ne & Ln & F & [= ->] & I & G).
      cbn [app] in *. exists (with_nearest nearest nexts).
      repeat split; trivial. right. now exists nexts. }
  exists info, previous, nearest_lane, nearest, spot, segments, lb, rb.
  cbn [found_frame found_spot found_path].
  repeat split; trivial.
  eapply Qle_lt_trans; [apply Qabs_nonneg | exact D].
Qed.

End MapSearchFacts.

Section MapSearchExample.
Import MapSearch.

Lemma search_looks_up_target_witness :
  In "spot"%string
     (@parking_space_overlaps _ example_map
        [{| lane := example_next_lane; start_s := 0; end_s := 15 |}])
  /\ @SearchTargetParkingSpotOnPath _ example_map "spot"%string
       [{| lane := example_next_lane; start_s := 0; end_s := 15 |}] None
     = @GetParkingSpaceById _ example_map "spot"%string.
Proof.
  assert (In "spot"%string
             (@parking_space_overlaps _ example_map
                [{| lane := example_next_lane; start_s := 0; end_s := 15 |}]))
    as I by (right; left; reflexivity).
  split; [exact I|].
  apply (proj1 (@search_looks_up_target _ example_map "spot"%string
                  [{| lane := example_next_lane; start_s := 0; end_s := 15 |}]
                  None) I).
Defined.

Lemma GetParkingSpotFromMap_true_witness :
  exists r segments,
    @GetParkingSpotFromMap QuarterTurns _ example_map example_config
      {| vehicle_x := 15; vehicle_y := 0; vehicle_heading := 0 |}
      "spot"%string (Some example_target) (Some example_target) None None
    = Returns r
    /\ found_ok r = true
    /\ found_path r = Some segments
    /\ length segments = 2%nat.
Proof.
  assert (exists r,
            @GetParkingSpotFromMap QuarterTurns _ example_map example_config
              {| vehicle_x := 15; vehicle_y := 0; vehicle_heading := 0 |}
              "spot"%string (Some example_target) (Some example_target)
              None None = Returns r
            /\ found_ok r = true /\ option_map (@length _) (found_path r) = Some 2%nat)
    as (r & E & Ok & Two)
    by (eexists; split; [vm_compute; reflexivity | split; reflexivity]).
  destruct (@GetParkingSpotFromMap_true QuarterTurns _ example_map
              example_config
              {| vehicle_x := 15; vehicle_y := 0; vehicle_heading := 0 |}
              "spot"%string (Some example_target) (Some example_target)
              r E Ok)
    as (info & previous & nearest_lane & nearest & spot & segments & lb & rb
        & _ & _ & _ & _ & _ & _ & _ & P & _).
  exists r, segments. split; [exact E|]. split; [exact Ok|].
  split; [exact P|]. rewrite P in Two. now injection Two.
Defined.

End MapSearchExample.

(** ** A spot centred on the lane *)

Section CentredSpot.
Import Stitcher.
Context `{Math}.
Variable origin_point : Vec2d.
Variable origin_heading : Q.
Variable spot : corners.
Variables left_top_s right_top_s average_l : Q.

(** X23.  When the two top corners of the spot are level with the
    centre line on average ([average_l] is zero), the stitcher takes the
    left branch and rescales the left edge by zero: with [cos] and [sin]
    exact at the origin heading, every point of the left edge it works
    on lies, in the world frame, on the centre point of its station. *)
Theorem centred_spot_collapses_left_edge (s : Builder.samples) :
  Rescaling.rotation_exact origin_heading -> Sampling.aligned s ->
  Forall (fun w => ~ w == 0) (Builder.left_lane_road_width s) ->
  average_l == 0 ->
  exists left_lane_boundary,
    rescale origin_point origin_heading (Builder.left_lane_boundary s)
            (Builder.center_lane_boundary s) (Builder.left_lane_road_width s)
            average_l
    = Returns left_lane_boundary
    /\ StitchBoundary origin_point origin_heading spot left_top_s right_top_s
                      average_l s
       = stitch_left_edges spot left_top_s right_top_s
           (Builder.right_lane_boundary s) left_lane_boundary
           (Builder.center_lane_s s)
    /\ length left_lane_boundary = length (Builder.center_lane_s s)
    /\ forall i p' c,
         nth_error left_lane_boundary i = Some p' ->
         nth_error (Builder.center_lane_boundary s) i = Some c ->
         veq (to_world origin_point origin_heading p') c.
Proof.
  intros R (Ar & Al & Ac & Alw & Arw) Nz Z.
  destruct (rescale_spec origin_point origin_heading average_l
              (Builder.left_lane_boundary s) R
              (Builder.center_lane_boundary s)
              (Builder.left_lane_road_width s))
    as (l & El & Ll & Rl); [congruence | congruence | exact Nz |].
  exists l. split; [exact El|]. split; [|split; [congruence|]].
  - unfold StitchBoundary, stitch_left.
    assert (Qltb average_l 0 = false) as ->
      by (apply Qltb_ge; rewrite Z; apply Qle_refl).
    now rewrite El.
  - intros i p' c Ip Ic.
    assert (i < length l)%nat as Hi by (apply nth_error_Some; congruence).
    destruct (nth_error (Builder.left_lane_boundary s) i) as [p|] eqn:Eb;
      [|apply nth_error_None in Eb; lia].
    destruct (nth_error (Builder.left_lane_road_width s) i) as [w|] eqn:Ew;
      [|apply nth_error_None in Ew; lia].
    destruct (Rl i p c w Eb Ic Ew) as (p'' & Ip' & [Vx Vy] & _).
    assert (p'' = p') as -> by congruence.
    unfold Rescaling.rescaled_world, vadd, vscale, vdiv, vsub in Vx, Vy.
    cbn [x y] in Vx, Vy. split.
    + rewrite Vx, Z. ring.
    + rewrite Vy, Z. ring.
Qed.

End CentredSpot.

Section CentredSpotExample.
Local Abbreviation P := mkVec2d.

Lemma centred_spot_collapses_left_edge_witness :
  @Rescaling.rotation_exact QuarterTurns 0
  /\ exists left_lane_boundary,
       @Stitcher.rescale QuarterTurns (P 14 (- (2))) 0
         (Builder.left_lane_boundary straight_lane_samples)
         (Builder.center_lane_boundary straight_lane_samples)
         (Builder.left_lane_road_width straight_lane_samples) 0
       = Returns left_lane_boundary
       /\ length left_lane_boundary = 2%nat.
Proof.
  assert (@Rescaling.rotation_exact QuarterTurns 0) as R by (repeat split).
  split; [exact R|].
  destruct (@centred_spot_collapses_left_edge QuarterTurns (P 14 (- (2))) 0
              right_spot_local 14 (33 # 2) 0 straight_lane_samples R)
    as (l & E & _ & L & _).
  - repeat split.
  - repeat constructor; discriminate.
  - reflexivity.
  - exists l. split; [exact E | exact L].
Defined.

End CentredSpotExample.
